(** * Runner: the game-state store and the level manager, embedded and verified

  The development follows the TypeScript sources:

  - [Types]         the enums and constants of [types.ts];
  - [Store]         the zustand store with [speedMultiplier]
                    (the store the level manager is written against);
  - [StoreFlags]    the older store with discrete buff flags;
  - [LevelManager]  the per-frame simulation of [LevelManager.tsx];
  - [StoreBuffs]    the store with timed buffs;
  - [Player]        the player component of [Player.tsx];
  - [Shop]          the shop screen of the HUD.

  The [types.ts] under src/ is the one of the flag store.  The store
  with [speedMultiplier] and the level manager are written against a
  later [types.ts] that is not under src/: they name power-up kinds
  that the declared enum lacks.  [Types.PowerUpType] is therefore
  modelled, and says so.

  Numbers.  JavaScript numbers that only ever hold integers in the program
  (score, lives, level, lane count, letter indices, milliseconds) are [Z];
  numbers that hold fractions (speeds, positions, distances, random draws)
  are exact rationals [Q], compared with [==].  Rounding of IEEE doubles is
  not modelled. *)

From Stdlib Require Import ZArith QArith Qabs Qminmax Qround Qpower.
From Stdlib Require Import List Bool Lia Lqa Permutation String.
Import ListNotations.

Open Scope Z_scope.

(** ** Comparisons on rationals as booleans *)

Definition Qltb (x y : Q) : bool := negb (Qle_bool y x).
Definition Qgtb (x y : Q) : bool := Qltb y x.
Definition Qgeb (x y : Q) : bool := Qle_bool y x.

(** ** types.ts *)

Module Types.

Inductive GameStatus := MENU | PLAYING | SHOP | GAME_OVER | VICTORY.

Inductive GameMode := STORY | ENDLESS.

Inductive ObjectType :=
  OBSTACLE | GEM | LETTER | SHOP_PORTAL | ALIEN | MISSILE | POWERUP.

(** Modelled from the spec: the declaration of [PowerUpType] that the
    store with [speedMultiplier] and the level manager import is missing
    from src/.  The [types.ts] under src/ declares MAGNET, SHIELD,
    REVERSE, SLOWMO and SCOREX2, the five kinds the flag store switches
    on (src/fullscreen.ts 476-488), and its [GameObject] has a field
    [powerUp] where the level manager reads [powerUpType].  The spec has
    the planner choose among six power-up subtypes; these are the six
    members that [applyPowerUp] (src/fullscreen.ts 881-909) and the spawn
    block (LevelManager.tsx 523-536) name, taken as six distinct
    values.  Against the enum declared under src/ the members INVERT,
    SCORE_X2, SLOW and BOOST would all read as [undefined]. *)
Inductive PowerUpType := SHIELD | MAGNET | INVERT | SCORE_X2 | SLOW | BOOST.

(** The shop item kinds accepted by [buyItem]. *)
Inductive ItemType := DOUBLE_JUMP | MAX_LIFE | HEAL | IMMORTAL.

Definition LANE_WIDTH : Q := 22 # 10.
Definition RUN_SPEED_BASE : Q := 225 # 10.
Definition SPAWN_DISTANCE : Q := 120.
Definition REMOVE_DISTANCE : Q := 20.

Definition GameMode_eqb (a b : GameMode) : bool :=
  match a, b with
  | STORY, STORY | ENDLESS, ENDLESS => true
  | _, _ => false
  end.

Definition ObjectType_eqb (a b : ObjectType) : bool :=
  match a, b with
  | OBSTACLE, OBSTACLE | GEM, GEM | LETTER, LETTER
  | SHOP_PORTAL, SHOP_PORTAL | ALIEN, ALIEN | MISSILE, MISSILE
  | POWERUP, POWERUP => true
  | _, _ => false
  end.

End Types.

Import Types.

(** [Array.prototype.includes] on an array of integers. *)
Definition includes (l : list Z) (x : Z) : bool := existsb (Z.eqb x) l.

(** ** The store with [speedMultiplier] *)

Module Store.

Definition GEMINI_TARGET : list string :=
  ["G"; "E"; "M"; "I"; "N"; "I"]%string.
Definition MAX_LEVEL : Z := 3.

(** The fields of the zustand state, followed by the two module-local
    expiry times of [speedEffect]. *)
Record GameState := mkState {
  status : GameStatus;
  mode : GameMode;
  score : Z;
  lives : Z;
  maxLives : Z;
  speed : Q;
  speedMultiplier : Q;
  scoreMultiplier : Z;
  collectedLetters : list Z;
  level : Z;
  laneCount : Z;
  gemsCollected : Z;
  distance : Z;
  hasDoubleJump : bool;
  hasImmortality : bool;
  isImmortalityActive : bool;
  isControlsInverted : bool;
  isMagnetActive : bool;
  shieldCharges : Z;
  slowUntil : Z;
  boostUntil : Z
}.

(** One entry of the object literal handed to zustand's [set]. *)
Inductive Field :=
| Status (v : GameStatus) | Mode (v : GameMode)
| Score (v : Z) | Lives (v : Z) | MaxLives (v : Z)
| Speed (v : Q) | SpeedMultiplier (v : Q) | ScoreMultiplier (v : Z)
| CollectedLetters (v : list Z) | Level (v : Z) | LaneCount (v : Z)
| GemsCollected (v : Z) | Distance (v : Z)
| HasDoubleJump (v : bool) | HasImmortality (v : bool)
| IsImmortalityActive (v : bool) | IsControlsInverted (v : bool)
| IsMagnetActive (v : bool) | ShieldCharges (v : Z).

Definition set1 (s : GameState) (f : Field) : GameState :=
  let 'mkState st mo sc li ml sp sm scm cl lv lc gc di dj im ia ci ma sh su bu := s in
  match f with
  | Status v => mkState v mo sc li ml sp sm scm cl lv lc gc di dj im ia ci ma sh su bu
  | Mode v => mkState st v sc li ml sp sm scm cl lv lc gc di dj im ia ci ma sh su bu
  | Score v => mkState st mo v li ml sp sm scm cl lv lc gc di dj im ia ci ma sh su bu
  | Lives v => mkState st mo sc v ml sp sm scm cl lv lc gc di dj im ia ci ma sh su bu
  | MaxLives v => mkState st mo sc li v sp sm scm cl lv lc gc di dj im ia ci ma sh su bu
  | Speed v => mkState st mo sc li ml v sm scm cl lv lc gc di dj im ia ci ma sh su bu
  | SpeedMultiplier v => mkState st mo sc li ml sp v scm cl lv lc gc di dj im ia ci ma sh su bu
  | ScoreMultiplier v => mkState st mo sc li ml sp sm v cl lv lc gc di dj im ia ci ma sh su bu
  | CollectedLetters v => mkState st mo sc li ml sp sm scm v lv lc gc di dj im ia ci ma sh su bu
  | Level v => mkState st mo sc li ml sp sm scm cl v lc gc di dj im ia ci ma sh su bu
  | LaneCount v => mkState st mo sc li ml sp sm scm cl lv v gc di dj im ia ci ma sh su bu
  | GemsCollected v => mkState st mo sc li ml sp sm scm cl lv lc v di dj im ia ci ma sh su bu
  | Distance v => mkState st mo sc li ml sp sm scm cl lv lc gc v dj im ia ci ma sh su bu
  | HasDoubleJump v => mkState st mo sc li ml sp sm scm cl lv lc gc di v im ia ci ma sh su bu
  | HasImmortality v => mkState st mo sc li ml sp sm scm cl lv lc gc di dj v ia ci ma sh su bu
  | IsImmortalityActive v => mkState st mo sc li ml sp sm scm cl lv lc gc di dj im v ci ma sh su bu
  | IsControlsInverted v => mkState st mo sc li ml sp sm scm cl lv lc gc di dj im ia v ma sh su bu
  | IsMagnetActive v => mkState st mo sc li ml sp sm scm cl lv lc gc di dj im ia ci v sh su bu
  | ShieldCharges v => mkState st mo sc li ml sp sm scm cl lv lc gc di dj im ia ci ma v su bu
  end.

(** zustand's [set(partial)]: the listed fields are overwritten, the
    others kept. *)
Definition set (patch : list Field) (s : GameState) : GameState :=
  fold_left set1 patch s.

(** The initial store (the literal passed to [create]). *)
Definition initial : GameState :=
  mkState MENU STORY 0 6 6 0 1 1 [] 1 3 0 0
          false false false false false 0 0 0.

Definition startGame (s : GameState) : GameState :=
  set [ Status PLAYING; Mode STORY;
        Score 0; Lives 6; MaxLives 6;
        Speed RUN_SPEED_BASE; SpeedMultiplier 1; ScoreMultiplier 1;
        CollectedLetters []; Level 1; LaneCount 3;
        GemsCollected 0; Distance 0;
        HasDoubleJump false; HasImmortality false;
        IsImmortalityActive false;
        IsControlsInverted false; IsMagnetActive false;
        ShieldCharges 0 ] s.

Definition restartGame (s : GameState) : GameState := startGame s.

Definition takeDamage (s : GameState) : GameState :=
  if isImmortalityActive s then s
  else if 0 <? shieldCharges s then
    set [ ShieldCharges (Z.max 0 (shieldCharges s - 1)) ] s
  else if 1 <? lives s then
    set [ Lives (lives s - 1) ] s
  else
    set [ Lives 0; Status GAME_OVER; Speed 0 ] s.

(** [amount] and the multiplier are integers, so [Math.floor] is the
    identity on their product. *)
Definition addScore (amount : Z) (s : GameState) : GameState :=
  let mult := scoreMultiplier s in
  set [ Score (score s + amount * mult) ] s.

Definition collectGem (value : Z) (s : GameState) : GameState :=
  let mult := scoreMultiplier s in
  set [ Score (score s + value * mult);
        GemsCollected (gemsCollected s + 1) ] s.

Definition setDistance (dist : Z) (s : GameState) : GameState :=
  set [ Distance dist ] s.

Definition setSpeed (v : Q) (s : GameState) : GameState :=
  set [ Speed v ] s.

Definition advanceLevel (s : GameState) : GameState :=
  let nextLevel := level s + 1 in
  let speedIncrease := (RUN_SPEED_BASE * (25 # 100))%Q in
  let newSpeed := (speed s + speedIncrease)%Q in
  set [ Level nextLevel;
        LaneCount (Z.min (laneCount s + 2) 9);
        Status PLAYING;
        Speed newSpeed;
        CollectedLetters [] ] s.

(** The transitions a completed word can start. *)
Inductive Transition := AdvanceLevel | StoryComplete.

(** [collectLetter], returning the new state together with the
    transitions it started, in order: a call of [advanceLevel], or the
    switch to the endless mode. *)
Definition collectLetter (index : Z) (s : GameState)
  : GameState * list Transition :=
  match mode s with
  | ENDLESS => (addScore 250 s, [])
  | STORY =>
    if negb (includes (collectedLetters s) index) then
      let newLetters := collectedLetters s ++ [index] in
      let speedIncrease := (RUN_SPEED_BASE * (6 # 100))%Q in
      let nextSpeed := (speed s + speedIncrease)%Q in
      let s1 := set [ CollectedLetters newLetters; Speed nextSpeed ] s in
      if (Z.of_nat (List.length newLetters) =? Z.of_nat (List.length GEMINI_TARGET)) then
        if level s <? MAX_LEVEL then
          (advanceLevel s1, [AdvanceLevel])
        else
          (set [ Mode ENDLESS; Status PLAYING;
                 Score (score s1 + 5000);
                 CollectedLetters [] ] s1, [StoryComplete])
      else (s1, [])
    else (s, [])
  end.

Definition openShop (s : GameState) : GameState := set [ Status SHOP ] s.
Definition closeShop (s : GameState) : GameState := set [ Status PLAYING ] s.

(** [buyItem] returns its boolean result and the new state. *)
Definition buyItem (type : ItemType) (cost : Z) (s : GameState)
  : bool * GameState :=
  let maxed := match type with MAX_LIFE => 6 <=? maxLives s | _ => false end in
  if maxed then (false, s)
  else if cost <=? score s then
    let s1 := set [ Score (score s - cost) ] s in
    let s2 :=
      match type with
      | DOUBLE_JUMP => set [ HasDoubleJump true ] s1
      | MAX_LIFE =>
        let nextMax := Z.min (maxLives s + 1) 6 in
        let nextLives := Z.min (lives s + 1) nextMax in
        set [ MaxLives nextMax; Lives nextLives ] s1
      | HEAL => set [ Lives (Z.min (lives s + 1) (maxLives s)) ] s1
      | IMMORTAL => set [ HasImmortality true ] s1
      end in
    (true, s2)
  else (false, s).

Definition activateImmortality (s : GameState) : GameState :=
  if hasImmortality s && negb (isImmortalityActive s)
  then set [ IsImmortalityActive true ] s
  else s.

(** [recomputeSpeedMultiplier] at time [now] (milliseconds). *)
Definition recomputeSpeedMultiplier (now : Z) (s : GameState) : GameState :=
  let slowOn := now <? slowUntil s in
  let boostOn := now <? boostUntil s in
  let m0 := 1%Q in
  let m1 := if boostOn then (m0 * (125 # 100))%Q else m0 in
  let m2 := if slowOn then (m1 * (75 # 100))%Q else m1 in
  let mult := Qmax (55 # 100) (Qmin (145 # 100) m2) in
  set [ SpeedMultiplier mult ] s.

Definition setSlowUntil (t : Z) (s : GameState) : GameState :=
  let 'mkState st mo sc li ml sp sm scm cl lv lc gc di dj im ia ci ma sh su bu := s in
  mkState st mo sc li ml sp sm scm cl lv lc gc di dj im ia ci ma sh t bu.

Definition setBoostUntil (t : Z) (s : GameState) : GameState :=
  let 'mkState st mo sc li ml sp sm scm cl lv lc gc di dj im ia ci ma sh su bu := s in
  mkState st mo sc li ml sp sm scm cl lv lc gc di dj im ia ci ma sh su t.

(** [applyPowerUp] at time [now] (milliseconds), one case per member of
    the modelled [PowerUpType]; the timers it sets are the actions
    [TMagnetOff], [TInvertOff], [TScoreOff] and [TSpeedRecompute]
    below. *)
Definition applyPowerUp (type : PowerUpType) (now : Z) (s : GameState)
  : GameState :=
  match type with
  | SHIELD => set [ ShieldCharges (Z.min 2 (shieldCharges s + 1)) ] s
  | MAGNET => set [ IsMagnetActive true ] s
  | INVERT => set [ IsControlsInverted true ] s
  | SCORE_X2 => set [ ScoreMultiplier 2 ] s
  | SLOW =>
    recomputeSpeedMultiplier now
      (setSlowUntil (Z.max (slowUntil s) (now + 5200)) s)
  | BOOST =>
    recomputeSpeedMultiplier now
      (setBoostUntil (Z.max (boostUntil s) (now + 4200)) s)
  end.

Definition setStatus (v : GameStatus) (s : GameState) : GameState :=
  set [ Status v ] s.

Definition increaseLevel (s : GameState) : GameState :=
  set [ Level (level s + 1) ] s.

(** Everything that can change the store: the actions, and the timer
    callbacks the actions schedule. *)
Inductive Action :=
| AStartGame | ARestartGame | ATakeDamage
| AAddScore (amount : Z) | ACollectGem (value : Z)
| ASetDistance (dist : Z) | ASetSpeed (v : Q)
| ACollectLetter (index : Z) | AAdvanceLevel
| AOpenShop | ACloseShop
| ABuyItem (type : ItemType) (cost : Z)
| AActivateImmortality
| AApplyPowerUp (type : PowerUpType) (now : Z)
| ASetStatus (v : GameStatus) | AIncreaseLevel
| TImmortalityOff | TMagnetOff | TInvertOff | TScoreOff
| TSpeedRecompute (now : Z).

Definition act (a : Action) (s : GameState) : GameState :=
  match a with
  | AStartGame => startGame s
  | ARestartGame => restartGame s
  | ATakeDamage => takeDamage s
  | AAddScore n => addScore n s
  | ACollectGem v => collectGem v s
  | ASetDistance d => setDistance d s
  | ASetSpeed v => setSpeed v s
  | ACollectLetter i => fst (collectLetter i s)
  | AAdvanceLevel => advanceLevel s
  | AOpenShop => openShop s
  | ACloseShop => closeShop s
  | ABuyItem t c => snd (buyItem t c s)
  | AActivateImmortality => activateImmortality s
  | AApplyPowerUp p now => applyPowerUp p now s
  | ASetStatus v => setStatus v s
  | AIncreaseLevel => increaseLevel s
  | TImmortalityOff => set [ IsImmortalityActive false ] s
  | TMagnetOff => set [ IsMagnetActive false ] s
  | TInvertOff => set [ IsControlsInverted false ] s
  | TScoreOff => set [ ScoreMultiplier 1 ] s
  | TSpeedRecompute now => recomputeSpeedMultiplier now s
  end.

(** The states the store can be in: [initial], closed under [act]. *)
Inductive reachable : GameState -> Prop :=
| reach_initial : reachable initial
| reach_act a s : reachable s -> reachable (act a s).

(** Collecting a sequence of letters, one call after the other. *)
Fixpoint collectLetters (indices : list Z) (s : GameState)
  : GameState * list Transition :=
  match indices with
  | [] => (s, [])
  | i :: rest =>
    let '(s1, t1) := collectLetter i s in
    let '(s2, t2) := collectLetters rest s1 in
    (s2, t1 ++ t2)
  end.

(** *** Notions used in the statements about the store *)

(** The transition a completed word starts at the level of [s]. *)
Definition completion (s : GameState) : Transition :=
  if level s <? MAX_LEVEL then AdvanceLevel else StoryComplete.

(** The state right after a new letter was appended. *)
Definition appended (index : Z) (s : GameState) : GameState :=
  set [ CollectedLetters (collectedLetters s ++ [index]);
        Speed (speed s + RUN_SPEED_BASE * (6 # 100))%Q ] s.

(** How many entries of [l] are not yet collected. *)
Definition missing (c l : list Z) : nat :=
  List.length (filter (fun i => negb (includes c i)) l).

(** The effect of the completing call on mode and level. *)
Definition completed (s s' : GameState) : Prop :=
  if level s <? MAX_LEVEL
  then mode s' = STORY /\ level s' = level s + 1
  else mode s' = ENDLESS /\ level s' = level s.

(** The bounds every action keeps. *)
Definition livesInv (s : GameState) : Prop :=
  0 <= lives s /\ lives s <= maxLives s /\ maxLives s <= 6.

(** The state of a Story run at level 1 with the letters 0..4
    collected. *)
Definition fiveLetters : GameState :=
  fst (collectLetters [0; 1; 2; 3; 4] (startGame initial)).

(** A state of the [speedMultiplier] store that owns the double jump
    and has 400 points left. *)
Definition ownsDoubleJump : GameState :=
  snd (buyItem DOUBLE_JUMP 100
         (addScore 500 (startGame initial))).

(** [k] player hits in a row, each one a call of [takeDamage]. *)
Definition hits (k : nat) (s : GameState) : GameState :=
  Nat.iter k takeDamage s.

(** The values [recomputeSpeedMultiplier] can give: no effect, slow,
    boost, both. *)
Definition speedMultiplierValue (q : Q) : Prop :=
  (q == 1 \/ q == 3 # 4 \/ q == 5 # 4 \/ q == 15 # 16)%Q.

(** What every action keeps, besides the bounds on lives: the shield
    charges, the collected letters, the lane count and the multiplier. *)
Definition storeInv (s : GameState) : Prop :=
  (0 <= shieldCharges s <= 2) /\
  (NoDup (collectedLetters s) /\ (List.length (collectedLetters s) <= 5)%nat) /\
  (laneCount s = 3 \/ laneCount s = 5 \/ laneCount s = 7 \/ laneCount s = 9) /\
  speedMultiplierValue (speedMultiplier s).

End Store.

(** ** The store with discrete buff flags *)

Module StoreFlags.

Definition GEMINI_TARGET : list string :=
  ["G"; "E"; "M"; "I"; "N"; "I"]%string.
Definition MAX_LEVEL : Z := 3.

(** The fields of the state read or written by the actions below, and
    the module-local [victorySpeedCache]. *)
Record GameState := mkState {
  status : GameStatus;
  mode : GameMode;
  score : Z;
  lives : Z;
  maxLives : Z;
  speed : Q;
  collectedLetters : list Z;
  level : Z;
  laneCount : Z;
  hasDoubleJump : bool;
  hasImmortality : bool;
  isImmortalityActive : bool;
  isShieldActive : bool;
  victorySpeedCache : Q
}.

Inductive Field :=
| Status (v : GameStatus)
| Score (v : Z) | Lives (v : Z) | MaxLives (v : Z)
| Speed (v : Q)
| CollectedLetters (v : list Z) | Level (v : Z) | LaneCount (v : Z)
| HasDoubleJump (v : bool) | HasImmortality (v : bool).

Definition set1 (s : GameState) (f : Field) : GameState :=
  let 'mkState st mo sc li ml sp cl lv lc dj im ia sh vc := s in
  match f with
  | Status v => mkState v mo sc li ml sp cl lv lc dj im ia sh vc
  | Score v => mkState st mo v li ml sp cl lv lc dj im ia sh vc
  | Lives v => mkState st mo sc v ml sp cl lv lc dj im ia sh vc
  | MaxLives v => mkState st mo sc li v sp cl lv lc dj im ia sh vc
  | Speed v => mkState st mo sc li ml v cl lv lc dj im ia sh vc
  | CollectedLetters v => mkState st mo sc li ml sp v lv lc dj im ia sh vc
  | Level v => mkState st mo sc li ml sp cl v lc dj im ia sh vc
  | LaneCount v => mkState st mo sc li ml sp cl lv v dj im ia sh vc
  | HasDoubleJump v => mkState st mo sc li ml sp cl lv lc v im ia sh vc
  | HasImmortality v => mkState st mo sc li ml sp cl lv lc dj v ia sh vc
  end.

Definition set (patch : list Field) (s : GameState) : GameState :=
  fold_left set1 patch s.

Definition setVictorySpeedCache (v : Q) (s : GameState) : GameState :=
  let 'mkState st mo sc li ml sp cl lv lc dj im ia sh vc := s in
  mkState st mo sc li ml sp cl lv lc dj im ia sh v.

Definition takeDamage (s : GameState) : GameState :=
  if isImmortalityActive s || isShieldActive s then s
  else if 1 <? lives s then set [ Lives (lives s - 1) ] s
  else set [ Lives 0; Status GAME_OVER; Speed 0 ] s.

Definition advanceLevel (s : GameState) : GameState :=
  let nextLevel := level s + 1 in
  let speedIncrease := (RUN_SPEED_BASE * (4 # 10))%Q in
  let newSpeed := (speed s + speedIncrease)%Q in
  set [ Level nextLevel;
        LaneCount (Z.min (laneCount s + 2) 9);
        Status PLAYING;
        Speed newSpeed;
        CollectedLetters [] ] s.

Definition collectLetter (index : Z) (s : GameState) : GameState :=
  match mode s with
  | ENDLESS => s
  | STORY =>
    if negb (includes (collectedLetters s) index) then
      let newLetters := collectedLetters s ++ [index] in
      let speedIncrease := (RUN_SPEED_BASE * (1 # 10))%Q in
      let nextSpeed := (speed s + speedIncrease)%Q in
      let s1 := set [ CollectedLetters newLetters; Speed nextSpeed ] s in
      if (Z.of_nat (List.length newLetters) =? Z.of_nat (List.length GEMINI_TARGET)) then
        if level s <? MAX_LEVEL then advanceLevel s1
        else
          let s2 := setVictorySpeedCache nextSpeed s1 in
          set [ Status VICTORY; Speed 0; Score (score s2 + 5000) ] s2
      else s1
    else s
  end.

Definition buyItem (type : ItemType) (cost : Z) (s : GameState)
  : bool * GameState :=
  let maxed := match type with MAX_LIFE => 6 <=? maxLives s | _ => false end in
  if maxed then (false, s)
  else if cost <=? score s then
    let s1 := set [ Score (score s - cost) ] s in
    let s2 :=
      match type with
      | DOUBLE_JUMP => set [ HasDoubleJump true ] s1
      | MAX_LIFE =>
        let nextMax := Z.min (maxLives s + 1) 6 in
        let nextLives := Z.min (lives s + 1) nextMax in
        set [ MaxLives nextMax; Lives nextLives ] s1
      | HEAL => set [ Lives (Z.min (lives s + 1) (maxLives s)) ] s1
      | IMMORTAL => set [ HasImmortality true ] s1
      end in
    (true, s2)
  else (false, s).

(** A state of the flag store that owns the double jump and has 400
    points. *)
Definition ownsDoubleJump : GameState :=
  mkState PLAYING STORY 400 6 6 RUN_SPEED_BASE [] 1 3
                     true false false false RUN_SPEED_BASE.

End StoreFlags.

(** ** LevelManager.tsx *)

Module LevelManager.

Definition OBSTACLE_HEIGHT : Q := 16 # 10.
Definition BASE_LETTER_INTERVAL : Q := 150.
Definition MISSILE_SPEED : Q := 30.

Definition GEMINI_COLORS : list string :=
  ["#2979ff"; "#ff1744"; "#ffea00"; "#2979ff"; "#00e676"; "#ff1744"]%string.

(** [level] is an integer counter, so [Math.pow] is an integer power. *)
Definition getLetterInterval (level : Z) : Q :=
  (BASE_LETTER_INTERVAL * (3 # 2) ^ (Z.max 0 (level - 1)))%Q.

(** A world object, with the fields the level manager writes and
    reads.  The [id] (a fresh uuid, used as a rendering key only) is
    left out; an absent [hasFired] reads as [false], which is how
    [!obj.hasFired] treats it.  The kind of a power-up is the field
    [powerUpType] the level manager pushes and reads
    (LevelManager.tsx 407, 544), of the modelled [PowerUpType]. *)
Record GameObject := mkObject {
  type : ObjectType;
  posX : Q;
  posY : Q;
  posZ : Q;
  active : bool;
  value : option string;
  targetIndex : option Z;
  color : option string;
  points : option Z;
  hasFired : bool;
  powerUpType : option PowerUpType
}.

Definition setPosX (v : Q) (o : GameObject) : GameObject :=
  mkObject (type o) v (posY o) (posZ o) (active o) (value o)
           (targetIndex o) (color o) (points o) (hasFired o) (powerUpType o).

Definition setPosZ (v : Q) (o : GameObject) : GameObject :=
  mkObject (type o) (posX o) (posY o) v (active o) (value o)
           (targetIndex o) (color o) (points o) (hasFired o) (powerUpType o).

Definition setActive (v : bool) (o : GameObject) : GameObject :=
  mkObject (type o) (posX o) (posY o) (posZ o) v (value o)
           (targetIndex o) (color o) (points o) (hasFired o) (powerUpType o).

Definition setHasFired (v : bool) (o : GameObject) : GameObject :=
  mkObject (type o) (posX o) (posY o) (posZ o) (active o) (value o)
           (targetIndex o) (color o) (points o) v (powerUpType o).

(** The store calls and window events a frame issues, in order (the
    sound effects, which feed nothing back, are left out). *)
Inductive Event :=
| PlayerHit
| ParticleBurst (x y z : Q) (color : string)
| OpenShop
| CollectGem (value : Z)
| CollectLetter (index : Z)
| ApplyPowerUp (p : PowerUpType)
| SetSpeed (v : Q).

Definition isPlayerHit (e : Event) : bool :=
  match e with PlayerHit => true | _ => false end.

(** What the loop body reads besides the object itself. *)
Record Frame := mkFrame {
  safeDelta : Q;
  dist : Q;
  isMagnetActive : bool;
  playerX : Q;
  playerY : Q;
  playerZ : Q
}.

Definition isPickup (t : ObjectType) : bool :=
  match t with GEM | LETTER | POWERUP => true | _ => false end.

Definition isDamageSource (t : ObjectType) : bool :=
  match t with OBSTACLE | ALIEN | MISSILE => true | _ => false end.

Definition isMissile (t : ObjectType) : bool :=
  match t with MISSILE => true | _ => false end.

(** [a || b] on an optional number: [undefined] and [0] give [b]. *)
Definition orZ (a : option Z) (b : Z) : Z :=
  match a with
  | Some v => if v =? 0 then b else v
  | None => b
  end.

(** [a || b] on an optional string: [undefined] and the empty string
    give [b]. *)
Definition orString (a : option string) (b : string) : string :=
  match a with
  | Some EmptyString => b
  | Some v => v
  | None => b
  end.

(** The result of the loop body for one object. *)
Record Outcome := mkOutcome {
  object : GameObject;
  keep : bool;
  newSpawns : list GameObject;
  events : list Event;
  hasChanges : bool
}.

Definition moveAmount (f : Frame) (o : GameObject) : Q :=
  if isMissile (type o) then (dist f + MISSILE_SPEED * safeDelta f)%Q
  else dist f.

(** Magnet pull on an already moved object. *)
Definition magnetPull (f : Frame) (o : GameObject) : GameObject :=
  if isMagnetActive f && active o && isPickup (type o) then
    let dz := Qabs (posZ o - playerZ f) in
    if Qltb dz 28 then
      setPosX (posX o + (playerX f - posX o) * safeDelta f * (35 # 10))%Q o
    else o
  else o.

(** Alien fire on an already moved object: the object, the missile it
    spawned (if any) and the burst event. *)
Definition alienFire (o : GameObject)
  : GameObject * list GameObject * list Event :=
  match type o with
  | ALIEN =>
    if active o && negb (hasFired o) then
      if Qgtb (posZ o) (-90) then
        let o1 := setHasFired true o in
        (o1,
         [ mkObject MISSILE (posX o) 1 (posZ o + 2)%Q true
                    None None (Some "#ff0000"%string) None false None ],
         [ ParticleBurst (posX o) (posY o) (posZ o) "#ff00ff" ])
      else (o, [], [])
    else (o, [], [])
  | _ => (o, [], [])
  end.

Definition objBottom (o : GameObject) : Q :=
  match type o with
  | OBSTACLE => 0
  | MISSILE => 5 # 10
  | _ => (posY o - (5 # 10))%Q
  end.

Definition objTop (o : GameObject) : Q :=
  match type o with
  | OBSTACLE => OBSTACLE_HEIGHT
  | MISSILE => 15 # 10
  | _ => (posY o + (5 # 10))%Q
  end.

Definition isHit (f : Frame) (o : GameObject) : bool :=
  let playerBottom := playerY f in
  let playerTop := (playerY f + (18 # 10))%Q in
  Qltb playerBottom (objTop o) && Qgtb playerTop (objBottom o).

Definition inZZone (f : Frame) (prevZ : Q) (o : GameObject) : bool :=
  let zThreshold := 2%Q in
  Qltb prevZ (playerZ f + zThreshold) && Qgtb (posZ o) (playerZ f - zThreshold).

Definition dxThreshold (f : Frame) (o : GameObject) : Q :=
  if isDamageSource (type o) then 9 # 10
  else if isMagnetActive f then 21 # 10 else 9 # 10.

Definition collectEvents (o : GameObject) : list Event :=
  (match type o with GEM => [CollectGem (orZ (points o) 50)] | _ => [] end)
  ++ (match type o, targetIndex o with
      | LETTER, Some i => [CollectLetter i]
      | _, _ => []
      end)
  ++ (match type o, powerUpType o with
      | POWERUP, Some p => [ApplyPowerUp p]
      | _, _ => []
      end)
  ++ [ParticleBurst (posX o) (posY o) (posZ o) (orString (color o) "#ffffff")].

(** The collision block for an object that is still active: the object,
    whether to keep it, the events, and whether anything changed. *)
Definition collide (f : Frame) (prevZ : Q) (o : GameObject)
  : GameObject * bool * list Event * bool :=
  match type o with
  | SHOP_PORTAL =>
    let dz := Qabs (posZ o - playerZ f) in
    if Qltb dz 2 then (setActive false o, false, [OpenShop], true)
    else (o, true, [], false)
  | _ =>
    if inZZone f prevZ o then
      let dx := Qabs (posX o - playerX f) in
      if Qltb dx (dxThreshold f o) then
        if isDamageSource (type o) then
          if isHit f o then
            (setActive false o, true,
             PlayerHit ::
             (if isMissile (type o)
              then [ParticleBurst (posX o) (posY o) (posZ o) "#ff4400"]
              else []),
             true)
          else (o, true, [], false)
        else
          let dy := Qabs (posY o - playerY f) in
          if Qltb dy (28 # 10) then
            (setActive false o, true, collectEvents o, true)
          else (o, true, [], false)
      else (o, true, [], false)
    else (o, true, [], false)
  end.

(** The body of [for (const obj of currentObjects)]. *)
Definition stepObject (f : Frame) (o : GameObject) : Outcome :=
  let prevZ := posZ o in
  let o1 := setPosZ (posZ o + moveAmount f o)%Q o in
  let o2 := magnetPull f o1 in
  let '(o3, missiles, ev1) := alienFire o2 in
  let '(o4, keep1, ev2, ch2) :=
    if active o3 then collide f prevZ o3 else (o3, true, [], false) in
  let gone := Qgtb (posZ o4) REMOVE_DISTANCE in
  mkOutcome o4
            (keep1 && negb gone)
            missiles
            (ev1 ++ ev2)
            (negb (match missiles with [] => true | _ => false end) || ch2 || gone).

(** The whole loop: the kept objects, the missiles spawned, the events
    and the change flag. *)
Fixpoint moveLoop (f : Frame) (objs : list GameObject)
  : list GameObject * list GameObject * list Event * bool :=
  match objs with
  | [] => ([], [], [], false)
  | o :: rest =>
    let r := stepObject f o in
    let '(kept, news, evs, ch) := moveLoop f rest in
    ((if keep r then object r :: kept else kept),
     newSpawns r ++ news,
     events r ++ evs,
     hasChanges r || ch)
  end.

(** The missiles one object spawns over a run of frames, for as long as
    the loop keeps it in the registry. *)
Fixpoint missilesOver (fs : list Frame) (o : GameObject) : list GameObject :=
  match fs with
  | [] => []
  | f :: rest =>
    let r := stepObject f o in
    newSpawns r ++ (if keep r then missilesOver rest (object r) else [])
  end.

(** *** Pacing counters and the spawn planner *)

(** The refs of the component; [None] in [nextLetterDistance] stands for
    [Number.POSITIVE_INFINITY]. *)
Record Refs := mkRefs {
  distanceTraveled : Q;
  nextLetterDistance : option Q;
  nextPortalDistance : Q;
  nextRampDistance : Q
}.

(** The draws of [Math.random] in one frame, one per call site (the
    top-gem draw once per spike), and the outcome of the randomised
    [sort] of the lane list. *)
Record Random := mkRandom {
  rndLane : Q;
  rndLetter : Q;
  rndAttempt : Q;
  rndPowerup : Q;
  rndPowerupType : Q;
  rndObstacle : Q;
  rndAlien : Q;
  rndAlienCount : Q;
  rndSpikeCount : Q;
  rndTopGem : nat -> Q;
  shuffle : list Z -> list Z
}.

Definition getRandomLane (r : Q) (laneCount : Z) : Z :=
  let max := laneCount / 2 in
  Qfloor (r * inject_Z (max * 2 + 1)) - max.

(** [for (let i = -maxLane; i <= maxLane; i++) availableLanes.push(i)] *)
Definition laneRange (maxLane : Z) : list Z :=
  map (fun k => Z.of_nat k - maxLane) (seq 0 (Z.to_nat (2 * maxLane + 1))).

Definition laneX (lane : Z) : Q := (inject_Z lane * LANE_WIDTH)%Q.

Definition furthestZ (kept : list GameObject) : Q :=
  match filter (fun o => negb (isMissile (type o))) kept with
  | [] => (-20)%Q
  | o :: rest => fold_left Qmin (map posZ rest) (posZ o)
  end.

Definition minGap (mode : GameMode) (effectiveSpeed : Q) : Q :=
  let baseGap : Q := match mode with ENDLESS => 13%Q | STORY => 14%Q end in
  let gapFactor : Q := match mode with ENDLESS => 22 # 100 | STORY => 26 # 100 end in
  Qmin 30 (baseGap + effectiveSpeed * gapFactor).

Definition spawnZ (mode : GameMode) (effectiveSpeed : Q)
           (kept : list GameObject) : Q :=
  Qmin (furthestZ kept - minGap mode effectiveSpeed) (- SPAWN_DISTANCE).

Definition isActivePortal (o : GameObject) : bool :=
  ObjectType_eqb (type o) SHOP_PORTAL && active o.

(** The endless-mode portal offer: the portal pushed (if any) and the
    next portal distance. *)
Definition portalOffer (mode : GameMode) (z : Q) (refs : Refs)
           (kept : list GameObject) : list GameObject * Q :=
  match mode with
  | ENDLESS =>
    if Qgeb (distanceTraveled refs) (nextPortalDistance refs) then
      if negb (existsb isActivePortal kept) then
        ([ mkObject SHOP_PORTAL 0 0 (z - 35)%Q true
                    None None None None false None ],
         (nextPortalDistance refs + 520)%Q)
      else ([], nextPortalDistance refs)
    else ([], nextPortalDistance refs)
  | STORY => ([], nextPortalDistance refs)
  end.

Definition isLetterDue (mode : GameMode) (refs : Refs) : bool :=
  match mode, nextLetterDistance refs with
  | STORY, Some d => Qgeb (distanceTraveled refs) d
  | _, _ => false
  end.

Definition target : list string := ["G"; "E"; "M"; "I"; "N"; "I"]%string.

Definition availableIndices (collectedLetters : list Z) : list Z :=
  filter (fun i => negb (includes collectedLetters i))
         (map Z.of_nat (seq 0 (List.length target))).

(** The letter branch: the object pushed and the next letter distance.
    An index past the end of [availableIndices] reads as [undefined], so
    the letter's index, value and colour are optional. *)
Definition letterSpawn (rnd : Random) (collectedLetters : list Z)
           (laneCount level : Z) (z : Q) (refs : Refs)
  : list GameObject * option Q :=
  let lane := getRandomLane (rndLane rnd) laneCount in
  let avail := availableIndices collectedLetters in
  match avail with
  | _ :: _ =>
    let k := Qfloor (rndLetter rnd * inject_Z (Z.of_nat (List.length avail))) in
    let chosenIndex := if k <? 0 then None else nth_error avail (Z.to_nat k) in
    let val := match chosenIndex with
               | Some i => if i <? 0 then None else nth_error target (Z.to_nat i)
               | None => None
               end in
    let col := match chosenIndex with
               | Some i => if i <? 0 then None else nth_error GEMINI_COLORS (Z.to_nat i)
               | None => None
               end in
    ([ mkObject LETTER (laneX lane) 1 z true val chosenIndex col None false None ],
     option_map (fun d => (d + getLetterInterval level)%Q) (nextLetterDistance refs))
  | [] =>
    ([ mkObject GEM (laneX lane) (12 # 10) z true
                None None (Some "#00ffff"%string) (Some 50) false None ],
     nextLetterDistance refs)
  end.

(** The weighted choice of the power-up kind, over the members of the
    modelled [PowerUpType]. *)
Definition pickPowerUp (r : Q) : PowerUpType :=
  if Qltb r (26 # 100) then SHIELD
  else if Qltb r (50 # 100) then MAGNET
  else if Qltb r (70 # 100) then SCORE_X2
  else if Qltb r (86 # 100) then SLOW
  else if Qltb r (95 # 100) then BOOST
  else INVERT.

Definition colorByType (p : PowerUpType) : string :=
  match p with
  | SHIELD => "#00ffff"
  | MAGNET => "#b388ff"
  | SLOW => "#2979ff"
  | BOOST => "#ff1744"
  | SCORE_X2 => "#ffea00"
  | INVERT => "#ff00ff"
  end.

Definition alienSquad (rnd : Random) (laneCount : Z) (z : Q)
  : list GameObject :=
  let availableLanes := shuffle rnd (laneRange (laneCount / 2)) in
  let alienCount :=
    if Qgtb (rndAlienCount rnd) (82 # 100)
    then Nat.min 2 (List.length availableLanes) else 1%nat in
  map (fun k =>
         let lane := nth k availableLanes 0 in
         mkObject ALIEN (laneX lane) (15 # 10) z true
                  None None (Some "#00ff00"%string) None false None)
      (seq 0 alienCount).

Definition spikeCluster (rnd : Random) (mode : GameMode) (laneCount : Z)
           (z : Q) : list GameObject :=
  let availableLanes := shuffle rnd (laneRange (laneCount / 2)) in
  let p := rndSpikeCount rnd in
  let countToSpawn :=
    if Qgtb p (88 # 100) then Nat.min 3 (List.length availableLanes)
    else if Qgtb p (62 # 100) then Nat.min 2 (List.length availableLanes)
    else 1%nat in
  let topGemChance : Q :=
    match mode with ENDLESS => 34 # 100 | STORY => 28 # 100 end in
  flat_map
    (fun i =>
       let lane := nth i availableLanes 0 in
       mkObject OBSTACLE (laneX lane) (OBSTACLE_HEIGHT / 2)%Q z true
                None None (Some "#ff0054"%string) None false None
       :: (if Qltb (rndTopGem rnd i) topGemChance
           then [ mkObject GEM (laneX lane) (OBSTACLE_HEIGHT + 1)%Q z true
                           None None (Some "#ffd700"%string) (Some 100)
                           false None ]
           else []))
    (seq 0 countToSpawn).

(** The branch taken when no letter is due. *)
Definition randomSpawn (rnd : Random) (mode : GameMode)
           (laneCount level : Z) (z : Q) : list GameObject :=
  if Qgtb (rndAttempt rnd) (12 # 100) then
    let powerupChance : Q :=
      match mode with ENDLESS => 10 # 100 | STORY => 7 # 100 end in
    if Qltb (rndPowerup rnd) powerupChance then
      let lane := getRandomLane (rndLane rnd) laneCount in
      let pType := pickPowerUp (rndPowerupType rnd) in
      [ mkObject POWERUP (laneX lane) (12 # 10) z true
                 None None (Some (colorByType pType)) None false (Some pType) ]
    else
      let obstacleProb : Q :=
        match mode with ENDLESS => 74 # 100 | STORY => 64 # 100 end in
      if Qltb (rndObstacle rnd) obstacleProb then
        let alienProb : Q :=
          match mode with ENDLESS => 16 # 100 | STORY => 12 # 100 end in
        if (2 <=? level) && Qltb (rndAlien rnd) alienProb
        then alienSquad rnd laneCount z
        else spikeCluster rnd mode laneCount z
      else
        let lane := getRandomLane (rndLane rnd) laneCount in
        [ mkObject GEM (laneX lane) (12 # 10) z true
                   None None (Some "#00ffff"%string) (Some 50) false None ]
  else [].

(** The spawning block ("2. Spawning Logic"): the objects it pushes onto
    [keptObjects], in order, and the updated refs. *)
Definition spawnPlan (s : Store.GameState) (rnd : Random) (refs : Refs)
           (kept : list GameObject) : list GameObject * Refs :=
  let mode := Store.mode s in
  let effectiveSpeed := (Store.speed s * Store.speedMultiplier s)%Q in
  if Qgtb (furthestZ kept) (- SPAWN_DISTANCE) then
    let z := spawnZ mode effectiveSpeed kept in
    let '(portal, nextPortal) := portalOffer mode z refs kept in
    if isLetterDue mode refs then
      let '(objs, nextLetter) :=
        letterSpawn rnd (Store.collectedLetters s) (Store.laneCount s)
                    (Store.level s) z refs in
      (portal ++ objs,
       mkRefs (distanceTraveled refs) nextLetter nextPortal
              (nextRampDistance refs))
    else
      (portal ++ randomSpawn rnd mode (Store.laneCount s) (Store.level s) z,
       mkRefs (distanceTraveled refs) (nextLetterDistance refs) nextPortal
              (nextRampDistance refs))
  else ([], refs).

(** What the loop body reads in a frame: the clamped time step, the
    distance moved, the magnet flag of the store snapshot and the player
    position ([None] while the player object is not mounted: the origin
    is used then). *)
Definition frameOf (s : Store.GameState) (delta : Q)
           (player : option (Q * Q * Q)) : Frame :=
  let safeDelta := Qmin delta (5 # 100) in
  let effectiveSpeed := (Store.speed s * Store.speedMultiplier s)%Q in
  let dist := (effectiveSpeed * safeDelta)%Q in
  let '(px, py, pz) :=
    match player with Some p => p | None => (0%Q, 0%Q, 0%Q) end in
  mkFrame safeDelta dist (Store.isMagnetActive s) px py pz.

(** The endless-mode speed ramp: whether it fires at the distance
    travelled, and the [setSpeed] call it makes. *)
Definition rampDue (s : Store.GameState) (travelled : Q) (refs : Refs) : bool :=
  match Store.mode s with
  | ENDLESS => Qgeb travelled (nextRampDistance refs)
  | STORY => false
  end.

Definition rampEvents (s : Store.GameState) (due : bool) : list Event :=
  let cap := (RUN_SPEED_BASE * 3)%Q in
  let inc := (RUN_SPEED_BASE * (3 # 100))%Q in
  if due then [SetSpeed (Qmin cap (Store.speed s + inc))] else [].

(** The frame callback: the new registry, the new refs and the events
    issued.  The registry is returned whether or not [hasChanges] is set:
    the objects are mutated in place, and when the flag is unset nothing
    was dropped or pushed, so the old array holds the same objects. *)
Definition useFrame (s : Store.GameState) (delta : Q)
           (player : option (Q * Q * Q)) (rnd : Random)
           (refs : Refs) (objs : list GameObject)
  : list GameObject * Refs * list Event :=
  match Store.status s with
  | PLAYING =>
    let f := frameOf s delta player in
    let travelled := (distanceTraveled refs + dist f)%Q in
    let due := rampDue s travelled refs in
    let refs1 :=
      mkRefs travelled (nextLetterDistance refs) (nextPortalDistance refs)
             (if due then (nextRampDistance refs + 80)%Q
              else nextRampDistance refs) in
    let '(kept, news, evs, _) := moveLoop f objs in
    let keptObjects := kept ++ news in
    let '(created, refs2) := spawnPlan s rnd refs1 keptObjects in
    (keptObjects ++ created, refs2, rampEvents s due ++ evs)
  | _ => (objs, refs, [])
  end.

(** *** Notions used in the statements about the level manager *)

(** The player-hit signals among a list of events. *)
Definition playerHits (evs : list Event) : nat :=
  List.length (filter isPlayerHit evs).

(** The events of the whole loop. *)
Definition loopEvents (f : Frame) (objs : list GameObject) : list Event :=
  let '(_, _, evs, _) := moveLoop f objs in evs.

(** The obstacle of the scenario: in the player's lane, at z = -2. *)
Definition obstacleAtMinus2 : GameObject :=
  mkObject OBSTACLE 0 (OBSTACLE_HEIGHT / 2)%Q (-2) true
           None None (Some "#ff0054"%string) None false None.

(** A store running at speed 50. *)
Definition fastStore : Store.GameState :=
  Store.setSpeed 50 (Store.startGame Store.initial).

(** The frame of [fastStore] after 0.05 s with the player not mounted
    (read as the origin): the world moves by 2.5. *)
Definition frame25 : Frame := frameOf fastStore (5 # 100) None.

(** An alien at z = -91 that has not fired. *)
Definition alienAtMinus91 : GameObject :=
  mkObject ALIEN (22 # 10) (15 # 10) (-91) true
           None None (Some "#00ff00"%string) None false None.

(** A store in the endless mode at base speed. *)
Definition endlessStore : Store.GameState :=
  Store.set [ Store.Mode ENDLESS ] (Store.startGame Store.initial).

(** Refs of a run that has travelled 500 with a portal due at 450. *)
Definition portalDue : Refs := mkRefs 500 None 450 560.

(** Draws that take the ground-gem branch. *)
Definition gemDraws : Random :=
  mkRandom (5 # 10) 0 (5 # 10) (5 # 10) 0 (9 # 10) 0 0 0
           (fun _ => 0%Q) (fun l => l).

(** *** The transition effect *)

(** What the effect remembers of the render before. *)
Record Prev := mkPrev {
  prevStatus : GameStatus;
  prevLevel : Z;
  prevMode : GameMode
}.

Definition GameStatus_eqb (a b : GameStatus) : bool :=
  match a, b with
  | MENU, MENU | PLAYING, PLAYING | SHOP, SHOP
  | GAME_OVER, GAME_OVER | VICTORY, VICTORY => true
  | _, _ => false
  end.

(** The portal pushed on a level-up. *)
Definition levelUpPortal : GameObject :=
  mkObject SHOP_PORTAL 0 0 (-100) true None None None None false None.

(** The [useEffect] on status, level and mode: the new registry, the new
    refs, the argument of the [setDistance] call if one is made, and the
    values remembered for the next run. *)
Definition transitionEffect (prev : Prev) (s : Store.GameState)
           (refs : Refs) (objs : list GameObject)
  : list GameObject * Refs * option Z * Prev :=
  let status := Store.status s in
  let level := Store.level s in
  let mode := Store.mode s in
  let isRestart :=
    GameStatus_eqb status PLAYING && GameStatus_eqb (prevStatus prev) GAME_OVER in
  let isMenuReset := GameStatus_eqb status MENU in
  let isLevelUp := negb (level =? prevLevel prev) && GameStatus_eqb status PLAYING in
  let enteredEndless :=
    GameMode_eqb mode ENDLESS && negb (GameMode_eqb (prevMode prev) ENDLESS) in
  let next := mkPrev status level mode in
  if isMenuReset || isRestart then
    ([], mkRefs 0 (Some (getLetterInterval 1)) 450 80, None, next)
  else if enteredEndless then
    (objs,
     mkRefs (distanceTraveled refs) None
            (Qmax (nextPortalDistance refs) (distanceTraveled refs + 350))
            (Qmax (nextRampDistance refs) (distanceTraveled refs + 80)),
     None, next)
  else if isLevelUp && (1 <? level) then
    (filter (fun obj => Qgtb (posZ obj) (-80)) objs ++ [levelUpPortal],
     mkRefs (distanceTraveled refs)
            (Some (distanceTraveled refs - SPAWN_DISTANCE
                   + getLetterInterval level)%Q)
            (nextPortalDistance refs) (nextRampDistance refs),
     None, next)
  else if GameStatus_eqb status GAME_OVER || GameStatus_eqb status VICTORY then
    (objs, refs, Some (Qfloor (distanceTraveled refs)), next)
  else (objs, refs, None, next).

(** *** Further notions for the statements *)

(** A frame with the magnet flag replaced. *)
Definition withMagnet (b : bool) (f : Frame) : Frame :=
  mkFrame (safeDelta f) (dist f) b (playerX f) (playerY f) (playerZ f).

(** The objects of one kind in a list. *)
Definition ofType (t : ObjectType) (l : list GameObject) : list GameObject :=
  filter (fun o => ObjectType_eqb (type o) t) l.

(** The draws come from [Math.random]: each lies in [0, 1). *)
Definition unitDraw (r : Q) : Prop := (0 <= r /\ r < 1)%Q.

(** The other results of the whole loop. *)
Definition loopKept (f : Frame) (objs : list GameObject) : list GameObject :=
  let '(kept, _, _, _) := moveLoop f objs in kept.

Definition loopSpawns (f : Frame) (objs : list GameObject) : list GameObject :=
  let '(_, news, _, _) := moveLoop f objs in news.

Definition loopChanged (f : Frame) (objs : list GameObject) : bool :=
  let '(_, _, _, ch) := moveLoop f objs in ch.

(** An obstacle in the middle lane, 110 ahead, and the refs of a fresh
    run. *)
Definition obstacleAtMinus110 : GameObject :=
  mkObject OBSTACLE 0 (OBSTACLE_HEIGHT / 2)%Q (-110) true
           None None (Some "#ff0054"%string) None false None.

Definition startRefs : Refs := mkRefs 0 (Some (getLetterInterval 1)) 450 80.

(** The refs as the spawn block finds them: the distance of the frame
    added, and the ramp distance moved on when the ramp fired. *)
Definition movedRefs (s : Store.GameState) (delta : Q)
           (player : option (Q * Q * Q)) (refs : Refs) : Refs :=
  let travelled := (distanceTraveled refs + dist (frameOf s delta player))%Q in
  mkRefs travelled (nextLetterDistance refs) (nextPortalDistance refs)
         (if rampDue s travelled refs then (nextRampDistance refs + 80)%Q
          else nextRampDistance refs).

(** *** Runs of the frame callback *)

(** An alien that can still fire. *)
Definition isArmed (o : GameObject) : bool :=
  ObjectType_eqb (type o) ALIEN && active o && negb (hasFired o).

Definition armedCount (l : list GameObject) : nat :=
  List.length (filter isArmed l).

Definition missileCount (l : list GameObject) : nat :=
  List.length (ofType MISSILE l).

(** What one call of the frame callback reads from outside. *)
Record Tick := mkTick {
  tickStore : Store.GameState;
  tickDelta : Q;
  tickPlayer : option (Q * Q * Q);
  tickRandom : Random
}.

(** One call, on the registry and the refs. *)
Definition tick (t : Tick) (st : list GameObject * Refs)
  : list GameObject * Refs :=
  fst (useFrame (tickStore t) (tickDelta t) (tickPlayer t) (tickRandom t)
                (snd st) (fst st)).

Definition runFrames (ts : list Tick) (st : list GameObject * Refs)
  : list GameObject * Refs :=
  fold_left (fun st t => tick t st) ts st.

(** The objects the spawn block added in a call: what the registry holds
    after the objects the loop kept and the missiles it spawned. *)
Definition planned (t : Tick) (st : list GameObject * Refs)
  : list GameObject :=
  match Store.status (tickStore t) with
  | PLAYING =>
    let f := frameOf (tickStore t) (tickDelta t) (tickPlayer t) in
    skipn (List.length (loopKept f (fst st))
           + List.length (loopSpawns f (fst st)))
          (fst (tick t st))
  | _ => []
  end.

(** The aliens the spawn block added over a run. *)
Fixpoint aliensPlanned (ts : list Tick) (st : list GameObject * Refs) : nat :=
  match ts with
  | [] => 0%nat
  | t :: rest =>
    (List.length (ofType ALIEN (planned t st))
     + aliensPlanned rest (tick t st))%nat
  end.

(** What holds of every object a generator creates: it is active, has
    not fired, and is of one of the kinds the generator makes. *)
Definition fresh (kinds : list ObjectType) (o : GameObject) : Prop :=
  active o = true /\ hasFired o = false /\ In (type o) kinds.

End LevelManager.

(** ** The store with timed buffs *)

Module StoreBuffs.

(** The buff kinds, the keys of [BUFF_DEFAULTS]. *)
Inductive BuffType := REVERSE | MAGNET | SPEED | SCORE_X2.

Definition GEMINI_TARGET : list string :=
  ["G"; "E"; "M"; "I"; "N"; "I"]%string.
Definition MAX_LEVEL : Z := 3.

Definition BUFF_DEFAULTS (buff : BuffType) : Z :=
  match buff with
  | REVERSE => 8000
  | MAGNET => 10000
  | SPEED => 6500
  | SCORE_X2 => 12000
  end.

(** The fields of the zustand state (the language setting apart); the
    buff fields are expiry times in milliseconds, 0 when inactive. *)
Record GameState := mkState {
  status : GameStatus;
  score : Z;
  lives : Z;
  maxLives : Z;
  speed : Q;
  collectedLetters : list Z;
  level : Z;
  laneCount : Z;
  gemsCollected : Z;
  distance : Z;
  isEndlessMode : bool;
  canContinueEndless : bool;
  buffReverseUntil : Z;
  buffMagnetUntil : Z;
  buffSpeedUntil : Z;
  buffScoreX2Until : Z;
  hasDoubleJump : bool;
  hasImmortality : bool;
  isImmortalityActive : bool
}.

Inductive Field :=
| Status (v : GameStatus)
| Score (v : Z) | Lives (v : Z) | MaxLives (v : Z)
| Speed (v : Q)
| CollectedLetters (v : list Z) | Level (v : Z) | LaneCount (v : Z)
| GemsCollected (v : Z) | Distance (v : Z)
| IsEndlessMode (v : bool) | CanContinueEndless (v : bool)
| BuffReverseUntil (v : Z) | BuffMagnetUntil (v : Z)
| BuffSpeedUntil (v : Z) | BuffScoreX2Until (v : Z)
| HasDoubleJump (v : bool) | HasImmortality (v : bool)
| IsImmortalityActive (v : bool).

Definition set1 (s : GameState) (f : Field) : GameState :=
  let 'mkState st sc li ml sp cl lv lc gc di en ce br bm bs bx dj im ia := s in
  match f with
  | Status v => mkState v sc li ml sp cl lv lc gc di en ce br bm bs bx dj im ia
  | Score v => mkState st v li ml sp cl lv lc gc di en ce br bm bs bx dj im ia
  | Lives v => mkState st sc v ml sp cl lv lc gc di en ce br bm bs bx dj im ia
  | MaxLives v => mkState st sc li v sp cl lv lc gc di en ce br bm bs bx dj im ia
  | Speed v => mkState st sc li ml v cl lv lc gc di en ce br bm bs bx dj im ia
  | CollectedLetters v => mkState st sc li ml sp v lv lc gc di en ce br bm bs bx dj im ia
  | Level v => mkState st sc li ml sp cl v lc gc di en ce br bm bs bx dj im ia
  | LaneCount v => mkState st sc li ml sp cl lv v gc di en ce br bm bs bx dj im ia
  | GemsCollected v => mkState st sc li ml sp cl lv lc v di en ce br bm bs bx dj im ia
  | Distance v => mkState st sc li ml sp cl lv lc gc v en ce br bm bs bx dj im ia
  | IsEndlessMode v => mkState st sc li ml sp cl lv lc gc di v ce br bm bs bx dj im ia
  | CanContinueEndless v => mkState st sc li ml sp cl lv lc gc di en v br bm bs bx dj im ia
  | BuffReverseUntil v => mkState st sc li ml sp cl lv lc gc di en ce v bm bs bx dj im ia
  | BuffMagnetUntil v => mkState st sc li ml sp cl lv lc gc di en ce br v bs bx dj im ia
  | BuffSpeedUntil v => mkState st sc li ml sp cl lv lc gc di en ce br bm v bx dj im ia
  | BuffScoreX2Until v => mkState st sc li ml sp cl lv lc gc di en ce br bm bs v dj im ia
  | HasDoubleJump v => mkState st sc li ml sp cl lv lc gc di en ce br bm bs bx v im ia
  | HasImmortality v => mkState st sc li ml sp cl lv lc gc di en ce br bm bs bx dj v ia
  | IsImmortalityActive v => mkState st sc li ml sp cl lv lc gc di en ce br bm bs bx dj im v
  end.

Definition set (patch : list Field) (s : GameState) : GameState :=
  fold_left set1 patch s.

Definition initial : GameState :=
  mkState MENU 0 6 6 0 [] 1 3 0 0 false false 0 0 0 0 false false false.

(** [isActive(until)] at the time [now] that [Date.now()] returns. *)
Definition isActive (now until : Z) : bool := now <? until.

Definition isBuffActive (now : Z) (buff : BuffType) (s : GameState) : bool :=
  match buff with
  | REVERSE => isActive now (buffReverseUntil s)
  | MAGNET => isActive now (buffMagnetUntil s)
  | SPEED => isActive now (buffSpeedUntil s)
  | SCORE_X2 => isActive now (buffScoreX2Until s)
  end.

(** [durationMs ?? BUFF_DEFAULTS[buff]]: only an absent duration falls
    back to the default. *)
Definition applyBuff (buff : BuffType) (durationMs : option Z) (now : Z)
           (s : GameState) : GameState :=
  let until :=
    now + match durationMs with Some d => d | None => BUFF_DEFAULTS buff end in
  match buff with
  | REVERSE => set [ BuffReverseUntil until ] s
  | MAGNET => set [ BuffMagnetUntil until ] s
  | SPEED => set [ BuffSpeedUntil until ] s
  | SCORE_X2 => set [ BuffScoreX2Until until ] s
  end.

Definition startGame (s : GameState) : GameState :=
  set [ Status PLAYING; Score 0; Lives 6; MaxLives 6;
        Speed RUN_SPEED_BASE; CollectedLetters []; Level 1; LaneCount 3;
        GemsCollected 0; Distance 0;
        HasDoubleJump false; HasImmortality false; IsImmortalityActive false;
        IsEndlessMode false; CanContinueEndless false;
        BuffReverseUntil 0; BuffMagnetUntil 0; BuffSpeedUntil 0;
        BuffScoreX2Until 0 ] s.

Definition restartGame (s : GameState) : GameState := startGame s.

Definition continueEndless (s : GameState) : GameState :=
  set [ Status PLAYING; IsEndlessMode true; CanContinueEndless false;
        CollectedLetters [];
        Speed (Qmax (speed s) (RUN_SPEED_BASE * 2)) ] s.

Definition takeDamage (s : GameState) : GameState :=
  if isImmortalityActive s then s
  else if 1 <? lives s then set [ Lives (lives s - 1) ] s
  else set [ Lives 0; Status GAME_OVER; Speed 0 ] s.

Definition addScore (amount : Z) (s : GameState) : GameState :=
  set [ Score (score s + amount) ] s.

Definition collectGem (value : Z) (now : Z) (s : GameState) : GameState :=
  let mult := if isBuffActive now SCORE_X2 s then 2 else 1 in
  set [ Score (score s + value * mult);
        GemsCollected (gemsCollected s + 1) ] s.

Definition setDistance (dist : Z) (s : GameState) : GameState :=
  set [ Distance dist ] s.

Definition setSpeed (v : Q) (s : GameState) : GameState := set [ Speed v ] s.

Definition addSpeed (amount : Q) (s : GameState) : GameState :=
  set [ Speed (Qmax 0 (speed s + amount)) ] s.

Definition advanceLevel (s : GameState) : GameState :=
  let nextLevel := level s + 1 in
  let speedIncrease := (RUN_SPEED_BASE * (4 # 10))%Q in
  let newSpeed := (speed s + speedIncrease)%Q in
  set [ Level nextLevel;
        LaneCount (Z.min (laneCount s + 2) 9);
        Status PLAYING;
        Speed newSpeed;
        CollectedLetters [] ] s.

Definition collectLetter (index : Z) (s : GameState) : GameState :=
  if isEndlessMode s then s
  else if negb (includes (collectedLetters s) index) then
    let newLetters := collectedLetters s ++ [index] in
    let speedIncrease := (RUN_SPEED_BASE * (1 # 10))%Q in
    let nextSpeed := (speed s + speedIncrease)%Q in
    let s1 := set [ CollectedLetters newLetters; Speed nextSpeed ] s in
    if (Z.of_nat (List.length newLetters) =? Z.of_nat (List.length GEMINI_TARGET)) then
      if level s <? MAX_LEVEL then advanceLevel s1
      else set [ Status VICTORY; Score (score s1 + 5000);
                 CanContinueEndless true ] s1
    else s1
  else s.

Definition openShop (s : GameState) : GameState := set [ Status SHOP ] s.
Definition closeShop (s : GameState) : GameState := set [ Status PLAYING ] s.

Definition buyItem (type : ItemType) (cost : Z) (s : GameState)
  : bool * GameState :=
  let maxed := match type with MAX_LIFE => 6 <=? maxLives s | _ => false end in
  if maxed then (false, s)
  else if score s <? cost then (false, s)
  else
    let s1 := set [ Score (score s - cost) ] s in
    let s2 :=
      match type with
      | DOUBLE_JUMP => set [ HasDoubleJump true ] s1
      | MAX_LIFE =>
        let nextMax := Z.min (maxLives s + 1) 6 in
        let nextLives := Z.min (lives s + 1) nextMax in
        set [ MaxLives nextMax; Lives nextLives ] s1
      | HEAL => set [ Lives (Z.min (lives s + 1) (maxLives s)) ] s1
      | IMMORTAL => set [ HasImmortality true ] s1
      end in
    (true, s2).

Definition activateImmortality (s : GameState) : GameState :=
  if negb (hasImmortality s) || isImmortalityActive s then s
  else set [ IsImmortalityActive true ] s.

Definition setStatus (v : GameStatus) (s : GameState) : GameState :=
  set [ Status v ] s.

Definition increaseLevel (s : GameState) : GameState :=
  set [ Level (level s + 1) ] s.

(** A campaign one letter short of victory: level 3, letters 0..4. *)
Definition lastLetterMissing : GameState :=
  set [ Level 3; CollectedLetters [0; 1; 2; 3; 4] ] (startGame initial).

End StoreBuffs.

(** * The player (src/components/World/Player.tsx)

    The refs of the component and its lane state, as one record.  The
    component reads the flag store ([isShieldActive],
    [isImmortalityActive], [hasDoubleJump], [laneCount], [status]);
    [isControlsReversed] is passed as read.  [Date.now()] is the
    parameter [now], in milliseconds.  The group is taken as mounted;
    the pose, the shadow and the horizontal easing are not modelled. *)

Module Player.

Definition GRAVITY : Q := 50.
Definition JUMP_FORCE : Q := 16.

Record PlayerState := mkPlayer {
  lane : Z;
  posY : Q;
  isJumping : bool;
  velocityY : Q;
  jumpsPerformed : Z;
  isInvincible : bool;
  lastDamageTime : Z
}.

Definition initial : PlayerState := mkPlayer 0 0 false 0 0 false 0.

Definition setLane (v : Z) (p : PlayerState) : PlayerState :=
  mkPlayer v (posY p) (isJumping p) (velocityY p) (jumpsPerformed p)
           (isInvincible p) (lastDamageTime p).

(** The effect on [status]: entering play puts the player on the
    ground. *)
Definition onStatus (status : GameStatus) (p : PlayerState) : PlayerState :=
  match status with
  | PLAYING =>
    mkPlayer (lane p) 0 false 0 0 (isInvincible p) (lastDamageTime p)
  | _ => p
  end.

(** The effect on [laneCount] and [lane]. *)
Definition clampLane (laneCount : Z) (p : PlayerState) : PlayerState :=
  let maxLane := laneCount / 2 in
  if maxLane <? Z.abs (lane p)
  then setLane (Z.max (Z.min (lane p) maxLane) (- maxLane)) p
  else p.

Definition moveLane (isControlsReversed : bool) (laneCount : Z) (dir : Z)
           (p : PlayerState) : PlayerState :=
  let maxLane := laneCount / 2 in
  let realDir :=
    if isControlsReversed then (if dir =? -1 then 1 else -1) else dir in
  setLane (Z.max (Z.min (lane p + realDir) maxLane) (- maxLane)) p.

Definition triggerJump (hasDoubleJump : bool) (p : PlayerState) : PlayerState :=
  let maxJumps := if hasDoubleJump then 2 else 1 in
  if negb (isJumping p) then
    mkPlayer (lane p) (posY p) true JUMP_FORCE 1
             (isInvincible p) (lastDamageTime p)
  else if jumpsPerformed p <? maxJumps then
    mkPlayer (lane p) (posY p) (isJumping p) JUMP_FORCE (jumpsPerformed p + 1)
             (isInvincible p) (lastDamageTime p)
  else p.

(** The jump physics of the frame callback. *)
Definition jumpFrame (delta : Q) (p : PlayerState) : PlayerState :=
  if isJumping p then
    let y := (posY p + velocityY p * delta)%Q in
    let v := (velocityY p - GRAVITY * delta)%Q in
    if Qle_bool y 0 then
      mkPlayer (lane p) 0 false 0 0 (isInvincible p) (lastDamageTime p)
    else
      mkPlayer (lane p) y (isJumping p) v (jumpsPerformed p)
               (isInvincible p) (lastDamageTime p)
  else p.

(** The end of the grace period, in the same callback. *)
Definition graceFrame (now : Z) (p : PlayerState) : PlayerState :=
  if isInvincible p then
    if 1500 <? now - lastDamageTime p then
      mkPlayer (lane p) (posY p) (isJumping p) (velocityY p)
               (jumpsPerformed p) false (lastDamageTime p)
    else p
  else p.

Definition useFrame (status : GameStatus) (now : Z) (delta : Q)
           (p : PlayerState) : PlayerState :=
  match status with
  | PLAYING | SHOP => graceFrame now (jumpFrame delta p)
  | _ => p
  end.

(** The listener of the [player-hit] event. *)
Definition checkHit (now : Z) (s : StoreFlags.GameState) (p : PlayerState)
  : PlayerState * StoreFlags.GameState :=
  if isInvincible p || StoreFlags.isImmortalityActive s
     || StoreFlags.isShieldActive s
  then (p, s)
  else (mkPlayer (lane p) (posY p) (isJumping p) (velocityY p)
                 (jumpsPerformed p) true now,
        StoreFlags.takeDamage s).

(** What happens to the player, one event at a time. *)
Inductive Input :=
| Jump (hasDoubleJump : bool)
| Frame (status : GameStatus) (now : Z) (delta : Q)
| StatusChange (status : GameStatus)
| Move (isControlsReversed : bool) (laneCount : Z) (dir : Z)
| LaneEffect (laneCount : Z)
| Hit (now : Z) (s : StoreFlags.GameState).

Definition step (p : PlayerState) (i : Input) : PlayerState :=
  match i with
  | Jump dj => triggerJump dj p
  | Frame st now delta => useFrame st now delta p
  | StatusChange st => onStatus st p
  | Move rev lc dir => moveLane rev lc dir p
  | LaneEffect lc => clampLane lc p
  | Hit now s => fst (checkHit now s p)
  end.

Definition run (inputs : list Input) (p : PlayerState) : PlayerState :=
  fold_left step inputs p.

(** The frames of a list of inputs all come no later than [t]. *)
Definition framesBy (t : Z) (inputs : list Input) : Prop :=
  Forall (fun i => match i with
                   | Frame _ now _ => now <= t
                   | _ => True
                   end) inputs.

(** The jumps of a list of inputs are all made without the double
    jump. *)
Definition singleJumps (inputs : list Input) : Prop :=
  Forall (fun i => match i with Jump dj => dj = false | _ => True end) inputs.

(** A flag store in play with three lives, vulnerable. *)
Definition vulnerable : StoreFlags.GameState :=
  StoreFlags.mkState PLAYING STORY 0 3 3 RUN_SPEED_BASE [] 1 3
                     false false false false RUN_SPEED_BASE.

(** The state of the jump. *)
Definition jumpInv (p : PlayerState) : Prop :=
  (0 <= posY p)%Q /\
  0 <= jumpsPerformed p <= 2 /\
  (isJumping p = false ->
   posY p = 0%Q /\ jumpsPerformed p = 0 /\ velocityY p = 0%Q) /\
  (isJumping p = true -> 1 <= jumpsPerformed p).

End Player.

(** * The shop screen (HUD part of src/i18n.ts)

    The offer is drawn by sorting the pool with a random comparator;
    the result of the sort is the parameter [sorted]. *)

Module Shop.

Record ShopItem := mkItem {
  id : ItemType;
  cost : Z;
  oneTime : bool
}.

Definition SHOP_ITEMS : list ShopItem :=
  [ mkItem DOUBLE_JUMP 1000 true;
    mkItem MAX_LIFE 1500 false;
    mkItem HEAL 1000 false;
    mkItem IMMORTAL 3000 true ].

Definition ItemType_eqb (a b : ItemType) : bool :=
  match a, b with
  | DOUBLE_JUMP, DOUBLE_JUMP | MAX_LIFE, MAX_LIFE
  | HEAL, HEAL | IMMORTAL, IMMORTAL => true
  | _, _ => false
  end.

(** The filter of the effect. *)
Definition inPool (s : Store.GameState) (item : ShopItem) : bool :=
  if ItemType_eqb (id item) DOUBLE_JUMP && Store.hasDoubleJump s then false
  else if ItemType_eqb (id item) IMMORTAL && Store.hasImmortality s then false
  else if ItemType_eqb (id item) MAX_LIFE && (6 <=? Store.maxLives s) then false
  else true.

Definition pool (s : Store.GameState) : list ShopItem :=
  filter (inPool s) SHOP_ITEMS.

(** [pool.sort(...)] then [slice(0, 3)]. *)
Definition items (sorted : list ShopItem -> list ShopItem)
           (s : Store.GameState) : list ShopItem :=
  firstn 3 (sorted (pool s)).

Definition isDisabled (s : Store.GameState) (item : ShopItem) : bool :=
  let canAfford := cost item <=? Store.score s in
  let isMaxed := ItemType_eqb (id item) MAX_LIFE && (6 <=? Store.maxLives s) in
  negb canAfford || isMaxed.

(** A press on the button of an item: a disabled button does nothing. *)
Definition press (s : Store.GameState) (item : ShopItem) : Store.GameState :=
  if isDisabled s item then s
  else snd (Store.buyItem (id item) (cost item) s).

(** A sort that reverses its input. *)
Definition reversed (l : list ShopItem) : list ShopItem := rev l.

End Shop.

(** * Facts *)

(** ** Comparisons, membership *)

Ltac split_ifs :=
  repeat match goal with
         | |- context [if ?b then _ else _] => destruct b eqn:?
         end.

Lemma Qltb_lt (x y : Q) : Qltb x y = true <-> (x < y)%Q.
Proof.
  unfold Qltb. rewrite negb_true_iff.
  split; intro H.
  - apply Qnot_le_lt. intro L. apply Qle_bool_iff in L. congruence.
  - destruct (Qle_bool y x) eqn:E; [|reflexivity].
    apply Qle_bool_iff in E. exfalso. apply (Qlt_not_le _ _ H E).
Qed.

Lemma Qltb_ge (x y : Q) : Qltb x y = false <-> (y <= x)%Q.
Proof.
  unfold Qltb. rewrite negb_false_iff. apply Qle_bool_iff.
Qed.

Lemma Qgtb_gt (x y : Q) : Qgtb x y = true <-> (y < x)%Q.
Proof. apply Qltb_lt. Qed.

Lemma Qgtb_le (x y : Q) : Qgtb x y = false <-> (x <= y)%Q.
Proof. apply Qltb_ge. Qed.

Lemma includes_In (l : list Z) (x : Z) : includes l x = true <-> In x l.
Proof.
  unfold includes. rewrite existsb_exists. split.
  - intros [y [Hy E]]. apply Z.eqb_eq in E. now subst.
  - intro H. exists x. split; [assumption | apply Z.eqb_refl].
Qed.

Lemma includes_app (l1 l2 : list Z) (x : Z) :
  includes (l1 ++ l2) x = includes l1 x || includes l2 x.
Proof. unfold includes. apply existsb_app. Qed.

(** ** The store: collecting letters *)

Module StoreFacts.
Import Store.

Lemma collectLetter_endless (i : Z) (s : GameState) :
  mode s = ENDLESS -> collectLetter i s = (addScore 250 s, []).
Proof. intro H. unfold collectLetter. now rewrite H. Qed.

Lemma collectLetter_member (i : Z) (s : GameState) :
  mode s = STORY -> includes (collectedLetters s) i = true ->
  collectLetter i s = (s, []).
Proof. intros Hm Hi. unfold collectLetter. now rewrite Hm, Hi. Qed.

Lemma collectLetter_new_short (i : Z) (s : GameState) :
  mode s = STORY -> includes (collectedLetters s) i = false ->
  S (List.length (collectedLetters s)) <> 6%nat ->
  collectLetter i s = (appended i s, []).
Proof.
  intros Hm Hi Hlen. unfold collectLetter. rewrite Hm, Hi. simpl negb. cbv iota.
  rewrite length_app. simpl List.length.
  destruct (Z.eqb_spec (Z.of_nat (List.length (collectedLetters s) + 1)) (Z.of_nat 6)) as [E|E].
  - exfalso. apply Hlen. lia.
  - reflexivity.
Qed.

Lemma collectLetter_new_full (i : Z) (s : GameState) :
  mode s = STORY -> includes (collectedLetters s) i = false ->
  S (List.length (collectedLetters s)) = 6%nat ->
  collectLetter i s =
    (if level s <? MAX_LEVEL then advanceLevel (appended i s)
     else set [ Mode ENDLESS; Status PLAYING;
                Score (score (appended i s) + 5000);
                CollectedLetters [] ] (appended i s),
     [completion s]).
Proof.
  intros Hm Hi Hlen. unfold collectLetter, completion.
  rewrite Hm, Hi. simpl negb. cbv iota.
  rewrite length_app. simpl List.length.
  destruct (Z.eqb_spec (Z.of_nat (List.length (collectedLetters s) + 1)) (Z.of_nat 6)) as [E|E];
    [| exfalso; apply E; lia].
  now destruct (level s <? MAX_LEVEL).
Qed.

Lemma appended_fields (i : Z) (s : GameState) :
  mode (appended i s) = mode s /\ level (appended i s) = level s /\
  status (appended i s) = status s /\ score (appended i s) = score s /\
  collectedLetters (appended i s) = collectedLetters s ++ [i] /\
  speed (appended i s) = (speed s + RUN_SPEED_BASE * (6 # 100))%Q.
Proof. destruct s; cbn. repeat split. Qed.

Lemma advanceLevel_fields (s : GameState) :
  mode (advanceLevel s) = mode s /\ level (advanceLevel s) = level s + 1 /\
  collectedLetters (advanceLevel s) = [] /\ status (advanceLevel s) = PLAYING.
Proof. destruct s; cbn. repeat split. Qed.

(** In the endless mode no call starts a transition, and mode and level
    stay as they are. *)
Lemma collectLetters_endless (l : list Z) : forall s,
  mode s = ENDLESS ->
  snd (collectLetters l s) = [] /\
  mode (fst (collectLetters l s)) = ENDLESS /\
  level (fst (collectLetters l s)) = level s.
Proof.
  induction l as [|i l IH]; intros s Hm; simpl.
  - auto.
  - rewrite (collectLetter_endless i s Hm).
    assert (Hm' : mode (addScore 250 s) = ENDLESS) by (destruct s; exact Hm).
    assert (Hl' : level (addScore 250 s) = level s) by (destruct s; reflexivity).
    destruct (IH _ Hm') as (Ht & Hmo & Hlv).
    destruct (collectLetters l (addScore 250 s)) as [s2 t2]. simpl in *.
    rewrite Ht. repeat split; congruence.
Qed.

(** Fewer calls than free slots: no transition. *)
Lemma collectLetters_short (l : list Z) : forall s,
  mode s = STORY ->
  (List.length (collectedLetters s) + List.length l < 6)%nat ->
  snd (collectLetters l s) = [] /\
  mode (fst (collectLetters l s)) = STORY /\
  level (fst (collectLetters l s)) = level s.
Proof.
  induction l as [|i l IH]; intros s Hm Hlen; simpl.
  - auto.
  - simpl in Hlen.
    destruct (includes (collectedLetters s) i) eqn:Hi.
    + rewrite (collectLetter_member i s Hm Hi).
      destruct (IH s Hm ltac:(lia)) as (Ht & Hmo & Hlv).
      destruct (collectLetters l s) as [s2 t2]. simpl in *.
      rewrite Ht. auto.
    + rewrite (collectLetter_new_short i s Hm Hi ltac:(lia)).
      destruct (appended_fields i s) as (Am & Al & _ & _ & Ac & _).
      destruct (IH (appended i s)) as (Ht & Hmo & Hlv).
      * congruence.
      * rewrite Ac, length_app. simpl. lia.
      * destruct (collectLetters l (appended i s)) as [s2 t2]. simpl in *.
        rewrite Ht. repeat split; congruence.
Qed.

Lemma missing_cons_in (c l : list Z) (x : Z) :
  includes c x = true -> missing c (x :: l) = missing c l.
Proof. intro H. unfold missing. simpl. now rewrite H. Qed.

Lemma missing_cons_out (c l : list Z) (x : Z) :
  includes c x = false -> missing c (x :: l) = S (missing c l).
Proof. intro H. unfold missing. simpl. now rewrite H. Qed.

Lemma missing_snoc (c l : list Z) (x : Z) :
  ~ In x l -> missing (c ++ [x]) l = missing c l.
Proof.
  intro H. unfold missing. f_equal. apply filter_ext_in.
  intros a Ha. rewrite includes_app. simpl.
  destruct (Z.eqb_spec a x) as [->|_]; [contradiction|].
  now rewrite !orb_false_r.
Qed.

(** A duplicate-free list holds at most [length c] collected entries. *)
Lemma missing_bound (c l : list Z) :
  NoDup l -> (List.length l <= List.length c + missing c l)%nat.
Proof.
  intro Hnd. unfold missing.
  rewrite <- (filter_length (includes c) l) at 1.
  apply Nat.add_le_mono_r.
  apply NoDup_incl_length.
  - now apply NoDup_filter.
  - intros a Ha. apply filter_In in Ha. now apply includes_In.
Qed.

(** Enough missing letters among duplicate-free calls: exactly one
    transition, the one of the level. *)
Lemma collectLetters_completes (l : list Z) : forall s,
  mode s = STORY ->
  (List.length (collectedLetters s) < 6)%nat ->
  NoDup l -> (List.length l <= 6)%nat ->
  (6 <= List.length (collectedLetters s) + missing (collectedLetters s) l)%nat ->
  snd (collectLetters l s) = [completion s] /\
  completed s (fst (collectLetters l s)).
Proof.
  induction l as [|i l IH]; intros s Hm Hc Hnd Hl Hmiss.
  - unfold missing in Hmiss. simpl in Hmiss. lia.
  - inversion Hnd as [|? ? Hni Hnd']; subst. simpl in Hl. simpl.
    destruct (includes (collectedLetters s) i) eqn:Hi.
    + rewrite (collectLetter_member i s Hm Hi).
      rewrite (missing_cons_in _ _ _ Hi) in Hmiss.
      destruct (IH s Hm Hc Hnd' ltac:(lia) Hmiss) as [Ht Hs].
      destruct (collectLetters l s) as [s2 t2]. simpl in *. now rewrite Ht.
    + rewrite (missing_cons_out _ _ _ Hi) in Hmiss.
      destruct (appended_fields i s) as (Am & Al & _ & _ & Ac & _).
      destruct (Nat.eq_dec (S (List.length (collectedLetters s))) 6) as [E|E].
      * rewrite (collectLetter_new_full i s Hm Hi E).
        unfold completed, completion.
        destruct (level s <? MAX_LEVEL) eqn:Hlv.
        -- destruct (advanceLevel_fields (appended i s)) as (Bm & Bl & Bc & _).
           destruct (collectLetters_short l (advanceLevel (appended i s)))
             as (Ht & Hmo & Hle).
           ++ congruence.
           ++ rewrite Bc. simpl. lia.
           ++ destruct (collectLetters l (advanceLevel (appended i s))) as [s2 t2].
              simpl in *. rewrite Ht. repeat split; congruence.
        -- match goal with
           | |- context [collectLetters l ?st] =>
             destruct (collectLetters_endless l st) as (Ht & Hmo & Hle);
               [ destruct s; reflexivity | ];
             assert (Hst : level st = level s) by (destruct s; reflexivity);
             destruct (collectLetters l st) as [s2 t2]
           end.
           simpl in *. rewrite Ht. repeat split; congruence.
      * rewrite (collectLetter_new_short i s Hm Hi E).
        destruct (IH (appended i s)) as [Ht Hs].
        -- congruence.
        -- rewrite Ac, length_app. simpl. lia.
        -- assumption.
        -- lia.
        -- rewrite Ac, length_app, (missing_snoc _ _ _ Hni). simpl. lia.
        -- unfold completion, completed in *. rewrite Al in *.
           destruct (collectLetters l (appended i s)) as [s2 t2].
           simpl in *. now rewrite Ht.
Qed.

(** C2.  In Story mode, from any state with fewer than six collected
    letters, collecting the six letter indices 0..5 in any order starts
    exactly one transition: one [advanceLevel] when the level is below 3
    (the level goes up by one and the mode stays Story), and one switch
    to the endless mode when the level is 3 (and no [advanceLevel]). *)
Theorem word_completion_exactly_once (s : GameState) (indices : list Z) :
  mode s = STORY ->
  (List.length (collectedLetters s) < 6)%nat ->
  Permutation indices [0; 1; 2; 3; 4; 5] ->
  let s' := fst (collectLetters indices s) in
  let trace := snd (collectLetters indices s) in
  (level s < 3 ->
     trace = [AdvanceLevel] /\ level s' = level s + 1 /\ mode s' = STORY) /\
  (level s = 3 ->
     trace = [StoryComplete] /\ level s' = 3 /\ mode s' = ENDLESS).
Proof.
  intros Hm Hc Hp s' trace.
  assert (Hnd : NoDup indices).
  { apply (Permutation_NoDup (Permutation_sym Hp)).
    repeat constructor; simpl; intuition lia. }
  assert (Hlen : List.length indices = 6%nat)
    by (rewrite (Permutation_length Hp); reflexivity).
  destruct (collectLetters_completes indices s Hm Hc Hnd ltac:(lia)) as [Ht Hs].
  { pose proof (missing_bound (collectedLetters s) indices Hnd). lia. }
  subst s' trace. unfold completion, completed, MAX_LEVEL in *.
  split; intro Hlv.
  - destruct (Z.ltb_spec (level s) 3); [|lia]. intuition.
  - destruct (Z.ltb_spec (level s) 3); [lia|]. intuition congruence.
Qed.

Lemma word_completion_exactly_once_witness :
  let s := startGame initial in
  let s' := fst (collectLetters [3; 0; 5; 1; 4; 2] s) in
  let trace := snd (collectLetters [3; 0; 5; 1; 4; 2] s) in
  (level s < 3 ->
     trace = [AdvanceLevel] /\ level s' = level s + 1 /\ mode s' = STORY) /\
  (level s = 3 ->
     trace = [StoryComplete] /\ level s' = 3 /\ mode s' = ENDLESS).
Proof.
  apply (word_completion_exactly_once (startGame initial) [3; 0; 5; 1; 4; 2]).
  - reflexivity.
  - simpl. lia.
  - apply NoDup_Permutation.
    + repeat constructor; simpl; intuition lia.
    + repeat constructor; simpl; intuition lia.
    + intro x. simpl. intuition lia.
Defined.

(** ** The store: lives, damage and the shop *)

Lemma takeDamage_livesInv (s : GameState) :
  livesInv s -> livesInv (takeDamage s).
Proof.
  unfold livesInv, takeDamage. destruct s; cbn. intros (H0 & H1 & H2).
  split_ifs; cbn; lia.
Qed.

Lemma buyItem_livesInv (type : ItemType) (cost : Z) (s : GameState) :
  livesInv s -> livesInv (snd (buyItem type cost s)).
Proof.
  unfold livesInv, buyItem. destruct s, type; cbn; intros (H0 & H1 & H2);
    split_ifs; cbn; lia.
Qed.

Lemma collectLetter_livesInv (i : Z) (s : GameState) :
  livesInv s -> livesInv (fst (collectLetter i s)).
Proof.
  unfold livesInv, collectLetter. destruct s as [st mo sc li ml sp sm scm cl lv lc gc di dj im ia ci ma sh su bu].
  cbn [mode lives maxLives collectedLetters level speed score].
  intros H. destruct mo; [|exact H].
  split_ifs; exact H.
Qed.

Lemma act_livesInv (a : Action) (s : GameState) :
  livesInv s -> livesInv (act a s).
Proof.
  destruct a; cbn [act].
  - intros _. unfold livesInv. destruct s; cbn. lia.
  - intros _. unfold livesInv. destruct s; cbn. lia.
  - apply takeDamage_livesInv.
  - destruct s; exact (fun H => H).
  - destruct s; exact (fun H => H).
  - destruct s; exact (fun H => H).
  - destruct s; exact (fun H => H).
  - apply collectLetter_livesInv.
  - destruct s; exact (fun H => H).
  - destruct s; exact (fun H => H).
  - destruct s; exact (fun H => H).
  - apply buyItem_livesInv.
  - unfold activateImmortality. destruct s; cbn. split_ifs; exact (fun H => H).
  - destruct type, s; exact (fun H => H).
  - destruct s; exact (fun H => H).
  - destruct s; exact (fun H => H).
  - destruct s; exact (fun H => H).
  - destruct s; exact (fun H => H).
  - destruct s; exact (fun H => H).
  - destruct s; exact (fun H => H).
  - destruct s; exact (fun H => H).
Qed.

Lemma reachable_livesInv (s : GameState) : reachable s -> livesInv s.
Proof.
  induction 1 as [|a s _ IH].
  - unfold livesInv. cbn. lia.
  - now apply act_livesInv.
Qed.

(** C3.  With one life left, no immortality and no shield charge,
    [takeDamage] sets lives to 0, speed to 0 and the status to GameOver;
    and [takeDamage] never makes a non-negative life count negative. *)
Theorem takeDamage_last_life (s : GameState) :
  lives s = 1 ->
  isImmortalityActive s = false ->
  shieldCharges s <= 0 ->
  lives (takeDamage s) = 0 /\
  speed (takeDamage s) = 0%Q /\
  status (takeDamage s) = GAME_OVER /\
  (forall s0, 0 <= lives s0 -> 0 <= lives (takeDamage s0)).
Proof.
  intros Hl Hi Hs.
  assert (G : forall s0, 0 <= lives s0 -> 0 <= lives (takeDamage s0)).
  { intros s0 H0. unfold takeDamage. destruct s0; cbn in *.
    split_ifs; cbn; lia. }
  unfold takeDamage. rewrite Hi.
  destruct (Z.ltb_spec 0 (shieldCharges s)); [lia|].
  destruct (Z.ltb_spec 1 (lives s)); [lia|].
  destruct s; cbn. auto.
Qed.

Lemma takeDamage_last_life_witness :
  let s := set [ Lives 1 ] (startGame initial) in
  lives (takeDamage s) = 0 /\
  speed (takeDamage s) = 0%Q /\
  status (takeDamage s) = GAME_OVER /\
  (forall s0, 0 <= lives s0 -> 0 <= lives (takeDamage s0)).
Proof.
  apply (takeDamage_last_life (set [ Lives 1 ] (startGame initial)));
    [reflexivity | reflexivity | cbn; lia].
Defined.

(** C7.  In every state the store can reach, after [buyItem] of any
    kind (MAX_LIFE and HEAL in particular) lives is at most maxLives and
    maxLives is at most 6; MAX_LIFE with maxLives at 6 returns false and
    leaves the state as it was; and in any state whatever a MAX_LIFE or
    HEAL purchase that goes through leaves lives at most maxLives (and,
    for MAX_LIFE, maxLives at most 6). *)
Theorem buyItem_keeps_life_bounds
        (s : GameState) (type : ItemType) (cost : Z) :
  reachable s ->
  lives (snd (buyItem type cost s)) <= maxLives (snd (buyItem type cost s)) /\
  maxLives (snd (buyItem type cost s)) <= 6 /\
  (maxLives s = 6 -> buyItem MAX_LIFE cost s = (false, s)) /\
  (forall s0 t c,
      t = MAX_LIFE \/ t = HEAL ->
      fst (buyItem t c s0) = true ->
      lives (snd (buyItem t c s0)) <= maxLives (snd (buyItem t c s0)) /\
      (t = MAX_LIFE -> maxLives (snd (buyItem t c s0)) <= 6)).
Proof.
  intro Hr.
  destruct (buyItem_livesInv type cost s (reachable_livesInv s Hr))
    as (_ & H1 & H2).
  repeat split; try assumption.
  - intro Hmax. unfold buyItem. rewrite Hmax. reflexivity.
  - destruct H as [-> | ->]; revert H0; unfold buyItem; destruct s0; cbn;
      split_ifs; cbn; intros; try discriminate; lia.
  - intros ->. revert H0. unfold buyItem. destruct s0; cbn.
    split_ifs; cbn; intros; try discriminate; lia.
Qed.

Lemma buyItem_keeps_life_bounds_witness :
  let s := addScore 2000 (takeDamage (startGame initial)) in
  lives s = 5 /\ lives (snd (buyItem HEAL 1000 s)) = 6 /\
  lives (snd (buyItem HEAL 1000 s)) <= maxLives (snd (buyItem HEAL 1000 s)) /\
  maxLives (snd (buyItem HEAL 1000 s)) <= 6 /\
  (maxLives s = 6 -> buyItem MAX_LIFE 1000 s = (false, s)).
Proof.
  split; [reflexivity|]. split; [reflexivity|].
  assert (Hr : reachable (addScore 2000 (takeDamage (startGame initial)))).
  { apply (reach_act (AAddScore 2000)).
    apply (reach_act ATakeDamage).
    apply (reach_act AStartGame).
    apply reach_initial. }
  destruct (buyItem_keeps_life_bounds
              (addScore 2000 (takeDamage (startGame initial))) HEAL 1000 Hr)
    as (A & B & C & _).
  repeat split; assumption.
Defined.

(** C4, as the code has it.  In Story mode a call of [collectLetter]
    with an index that is already collected changes nothing and starts
    no transition; so of two calls with the same index the second is a
    no-op whenever the first did not complete the six-letter word, and
    the first one, if the index is new, appends it and adds 6% of the
    base speed. *)
Theorem collectLetter_twice (s : GameState) (i : Z) :
  mode s = STORY ->
  (In i (collectedLetters s) \/ List.length (collectedLetters s) <> 5%nat) ->
  let s1 := fst (collectLetter i s) in
  collectLetter i s1 = (s1, []) /\
  (In i (collectedLetters s) -> s1 = s) /\
  (~ In i (collectedLetters s) ->
     collectedLetters s1 = collectedLetters s ++ [i] /\
     speed s1 = (speed s + RUN_SPEED_BASE * (6 # 100))%Q /\
     score s1 = score s).
Proof.
  intros Hm Hcase s1. subst s1.
  destruct (includes (collectedLetters s) i) eqn:Hi.
  - rewrite (collectLetter_member i s Hm Hi). simpl fst.
    split; [exact (collectLetter_member i s Hm Hi)|].
    split; [reflexivity|].
    intro Hn. exfalso. apply Hn. now apply includes_In.
  - assert (Hn : ~ In i (collectedLetters s)).
    { intro H. apply includes_In in H. congruence. }
    destruct Hcase as [H|Hlen]; [contradiction|].
    rewrite (collectLetter_new_short i s Hm Hi ltac:(lia)). simpl fst.
    destruct (appended_fields i s) as (Am & _ & _ & As & Ac & Asp).
    split.
    + apply collectLetter_member; [congruence|].
      rewrite Ac, includes_app. simpl. rewrite Z.eqb_refl.
      now rewrite orb_true_r.
    + split; [contradiction|]. auto.
Qed.

Lemma collectLetter_twice_witness :
  let s := startGame initial in
  let s1 := fst (collectLetter 3 s) in
  collectLetter 3 s1 = (s1, []) /\
  (In 3 (collectedLetters s) -> s1 = s) /\
  (~ In 3 (collectedLetters s) ->
     collectedLetters s1 = collectedLetters s ++ [3] /\
     speed s1 = (speed s + RUN_SPEED_BASE * (6 # 100))%Q /\
     score s1 = score s).
Proof.
  apply (collectLetter_twice (startGame initial) 3).
  - reflexivity.
  - right. simpl. lia.
Defined.

(** C4 as stated fails: when the first call completes the word, the
    letters are cleared, and the second call with the same index
    collects it again and raises the speed again. *)
Lemma collectLetter_twice_after_completion :
  let s1 := fst (collectLetter 5 fiveLetters) in
  let s2 := fst (collectLetter 5 s1) in
  mode fiveLetters = STORY /\
  collectedLetters fiveLetters = [0; 1; 2; 3; 4] /\
  collectedLetters s1 = [] /\
  collectedLetters s2 = [5] /\
  collectedLetters s2 <> collectedLetters s1 /\
  ~ (speed s2 == speed s1)%Q.
Proof.
  cbn. repeat split; try discriminate.
Qed.

(** C5, as the code has it.  In a fresh run (Playing, Story, speed 22.5,
    no letters), collecting letter 3 once gives the letters [3], the
    speed 22.5 + 1.35 = 23.85 and leaves the status Playing. *)
Theorem collectLetter_first_letter (s : GameState) :
  status s = PLAYING -> mode s = STORY ->
  (speed s == 225 # 10)%Q -> collectedLetters s = [] ->
  let s1 := fst (collectLetter 3 s) in
  collectedLetters s1 = [3] /\
  (speed s1 == 2385 # 100)%Q /\
  status s1 = PLAYING.
Proof.
  intros Hst Hm Hsp Hc s1. subst s1.
  rewrite (collectLetter_new_short 3 s Hm); [| now rewrite Hc | rewrite Hc; simpl; lia].
  simpl fst.
  destruct (appended_fields 3 s) as (_ & _ & Ast & _ & Ac & Asp).
  rewrite Ac, Asp, Hc, Ast, Hsp. repeat split; try assumption.
Qed.

Lemma collectLetter_first_letter_witness :
  let s1 := fst (collectLetter 3 (startGame initial)) in
  collectedLetters s1 = [3] /\
  (speed s1 == 2385 # 100)%Q /\
  status s1 = PLAYING.
Proof.
  apply (collectLetter_first_letter (startGame initial));
    reflexivity.
Defined.

(** C5 as stated fails: the speed after the first letter of a fresh run
    is not 24.75. *)
Lemma collectLetter_first_letter_not_2475 :
  let s := startGame initial in
  let s1 := fst (collectLetter 3 s) in
  status s = PLAYING /\ mode s = STORY /\ (speed s == 225 # 10)%Q /\
  lives s = 6 /\ level s = 1 /\ laneCount s = 3 /\
  ~ (collectedLetters s1 = [3] /\
     (speed s1 == 2475 # 100)%Q /\
     status s1 = PLAYING).
Proof.
  cbn. repeat split. intros (_ & H & _). discriminate H.
Qed.

End StoreFacts.

(** ** The shop in both stores *)

Module ShopFacts.

Lemma buyItem_result (type : ItemType) (cost : Z) (s : Store.GameState) :
  fst (Store.buyItem type cost s) =
    negb (match type with MAX_LIFE => 6 <=? Store.maxLives s | _ => false end)
    && (cost <=? Store.score s).
Proof. unfold Store.buyItem. split_ifs; reflexivity. Qed.

Lemma buyItem_flags_result (type : ItemType) (cost : Z)
      (t : StoreFlags.GameState) :
  fst (StoreFlags.buyItem type cost t) =
    negb (match type with MAX_LIFE => 6 <=? StoreFlags.maxLives t | _ => false end)
    && (cost <=? StoreFlags.score t).
Proof. unfold StoreFlags.buyItem. split_ifs; reflexivity. Qed.

(** C10.  In both stores, when the score covers the cost, buying
    DOUBLE_JUMP or IMMORTAL returns true and takes the cost off the
    score whether or not the ability is owned already; with the score
    covering the cost the only purchase that returns false is MAX_LIFE
    with maxLives at 6, and that one leaves the state (the score too) as
    it was. *)
Theorem buyItem_fails_only_at_life_cap
        (type : ItemType) (cost : Z)
        (s : Store.GameState) (t : StoreFlags.GameState) :
  cost <= Store.score s ->
  cost <= StoreFlags.score t ->
  (type = DOUBLE_JUMP \/ type = IMMORTAL ->
     fst (Store.buyItem type cost s) = true /\
     Store.score (snd (Store.buyItem type cost s)) = Store.score s - cost /\
     fst (StoreFlags.buyItem type cost t) = true /\
     StoreFlags.score (snd (StoreFlags.buyItem type cost t))
       = StoreFlags.score t - cost) /\
  (fst (Store.buyItem type cost s) = false <->
     type = MAX_LIFE /\ 6 <= Store.maxLives s) /\
  (fst (StoreFlags.buyItem type cost t) = false <->
     type = MAX_LIFE /\ 6 <= StoreFlags.maxLives t) /\
  (forall s0 c, 6 <= Store.maxLives s0 ->
                Store.buyItem MAX_LIFE c s0 = (false, s0)) /\
  (forall t0 c, 6 <= StoreFlags.maxLives t0 ->
                StoreFlags.buyItem MAX_LIFE c t0 = (false, t0)).
Proof.
  intros Hs Ht.
  apply Z.leb_le in Hs. apply Z.leb_le in Ht.
  split; [|split; [|split; [|split]]].
  - intros [-> | ->].
    + rewrite buyItem_result, buyItem_flags_result, Hs, Ht.
      unfold Store.buyItem, StoreFlags.buyItem. rewrite Hs, Ht.
      destruct s, t; cbn. auto.
    + rewrite buyItem_result, buyItem_flags_result, Hs, Ht.
      unfold Store.buyItem, StoreFlags.buyItem. rewrite Hs, Ht.
      destruct s, t; cbn. auto.
  - rewrite buyItem_result, Hs, andb_true_r, negb_false_iff.
    destruct type; try (split; [discriminate | intros [? _]; discriminate]).
    rewrite Z.leb_le. intuition.
  - rewrite buyItem_flags_result, Ht, andb_true_r, negb_false_iff.
    destruct type; try (split; [discriminate | intros [? _]; discriminate]).
    rewrite Z.leb_le. intuition.
  - intros s0 c H. apply Z.leb_le in H. unfold Store.buyItem. now rewrite H.
  - intros t0 c H. apply Z.leb_le in H. unfold StoreFlags.buyItem. now rewrite H.
Qed.

Lemma buyItem_fails_only_at_life_cap_witness :
  Store.hasDoubleJump Store.ownsDoubleJump = true /\
  StoreFlags.hasDoubleJump StoreFlags.ownsDoubleJump = true /\
  fst (Store.buyItem DOUBLE_JUMP 300 Store.ownsDoubleJump) = true /\
  Store.score (snd (Store.buyItem DOUBLE_JUMP 300 Store.ownsDoubleJump)) = 100 /\
  fst (StoreFlags.buyItem DOUBLE_JUMP 300 StoreFlags.ownsDoubleJump) = true /\
  StoreFlags.score (snd (StoreFlags.buyItem DOUBLE_JUMP 300 StoreFlags.ownsDoubleJump)) = 100.
Proof.
  split; [reflexivity|]. split; [reflexivity|].
  assert (Hs : 300 <= Store.score Store.ownsDoubleJump) by (cbn; lia).
  assert (Ht : 300 <= StoreFlags.score StoreFlags.ownsDoubleJump) by (cbn; lia).
  destruct (buyItem_fails_only_at_life_cap
              DOUBLE_JUMP 300 Store.ownsDoubleJump StoreFlags.ownsDoubleJump Hs Ht)
    as (H & _).
  destruct (H (or_introl eq_refl)) as (A & B & C & D).
  repeat split; assumption.
Defined.

End ShopFacts.

(** ** The level manager: the loop body *)

Module LevelFacts.
Import LevelManager.

Lemma playerHits_app (a b : list Event) :
  playerHits (a ++ b) = (playerHits a + playerHits b)%nat.
Proof. unfold playerHits. now rewrite filter_app, length_app. Qed.

Lemma loopEvents_cons (f : Frame) (o : GameObject) (objs : list GameObject) :
  loopEvents f (o :: objs) = events (stepObject f o) ++ loopEvents f objs.
Proof.
  unfold loopEvents. simpl.
  now destruct (moveLoop f objs) as [[[k n] e] c].
Qed.

Lemma loopEvents_app (f : Frame) (pre post : list GameObject) :
  loopEvents f (pre ++ post) = loopEvents f pre ++ loopEvents f post.
Proof.
  induction pre as [|o pre IH]; [reflexivity|].
  simpl app. now rewrite !loopEvents_cons, IH, app_assoc.
Qed.

Lemma magnetPull_not_pickup (f : Frame) (o : GameObject) :
  isPickup (type o) = false -> magnetPull f o = o.
Proof.
  intro H. unfold magnetPull. rewrite H.
  now rewrite andb_false_r.
Qed.

(** Firing changes the has-fired flag only, and emits no player hit. *)
Lemma alienFire_keeps (o : GameObject) :
  let '(o', _, ev) := alienFire o in
  type o' = type o /\ posX o' = posX o /\ posY o' = posY o /\
  posZ o' = posZ o /\ active o' = active o /\ playerHits ev = 0%nat.
Proof.
  unfold alienFire.
  destruct (type o) eqn:E; try (repeat split; auto).
  destruct (active o && negb (hasFired o)); [|repeat split; auto].
  destruct (Qgtb (posZ o) (-90)); repeat split; auto.
Qed.

(** The collision block on a damage source that meets the three
    tests. *)
Lemma collide_hit (f : Frame) (prevZ : Q) (o : GameObject) :
  isDamageSource (type o) = true ->
  (prevZ < playerZ f + 2)%Q ->
  (posZ o > playerZ f - 2)%Q ->
  (Qabs (posX o - playerX f) < 9 # 10)%Q ->
  (playerY f < objTop o)%Q ->
  (playerY f + (18 # 10) > objBottom o)%Q ->
  exists burst,
    collide f prevZ o = (setActive false o, true, PlayerHit :: burst, true) /\
    playerHits burst = 0%nat.
Proof.
  intros Hd Hz1 Hz2 Hx Hy1 Hy2.
  assert (Hzone : inZZone f prevZ o = true).
  { unfold inZZone. apply andb_true_iff. split.
    - now apply Qltb_lt.
    - now apply Qgtb_gt. }
  assert (Hdx : Qltb (Qabs (posX o - playerX f)) (dxThreshold f o) = true).
  { unfold dxThreshold. rewrite Hd. now apply Qltb_lt. }
  assert (Hhit : isHit f o = true).
  { unfold isHit. apply andb_true_iff. split.
    - now apply Qltb_lt.
    - now apply Qgtb_gt. }
  unfold collide. rewrite Hzone, Hdx, Hd, Hhit.
  destruct (type o); try discriminate; eexists; split; reflexivity.
Qed.

Lemma rampEvents_no_hit (s : Store.GameState) (due : bool) :
  playerHits (rampEvents s due) = 0%nat.
Proof. now destruct due. Qed.

(** The events of a frame while playing: the ramp call, then the events
    of the loop. *)
Lemma useFrame_events s delta player rnd refs objs :
  Store.status s = PLAYING ->
  snd (useFrame s delta player rnd refs objs) =
    rampEvents s (rampDue s (distanceTraveled refs + dist (frameOf s delta player))
                          refs)
    ++ loopEvents (frameOf s delta player) objs.
Proof.
  intro Hst. unfold useFrame, loopEvents. rewrite Hst.
  destruct (moveLoop (frameOf s delta player) objs) as [[[kept news] evs] ch].
  match goal with
  | |- context [spawnPlan ?a ?b ?c ?d] => destruct (spawnPlan a b c d)
  end.
  reflexivity.
Qed.

(** The loop, object by object. *)
Lemma loopKept_cons (f : Frame) (o : GameObject) (objs : list GameObject) :
  loopKept f (o :: objs) =
    (if keep (stepObject f o) then [object (stepObject f o)] else [])
    ++ loopKept f objs.
Proof.
  unfold loopKept. simpl.
  destruct (moveLoop f objs) as [[[k n] e] c].
  now destruct (keep (stepObject f o)).
Qed.

Lemma loopKept_app (f : Frame) (pre post : list GameObject) :
  loopKept f (pre ++ post) = loopKept f pre ++ loopKept f post.
Proof.
  induction pre as [|o pre IH]; [reflexivity|].
  simpl app. now rewrite !loopKept_cons, IH, app_assoc.
Qed.

Lemma loopSpawns_cons (f : Frame) (o : GameObject) (objs : list GameObject) :
  loopSpawns f (o :: objs) = newSpawns (stepObject f o) ++ loopSpawns f objs.
Proof.
  unfold loopSpawns. simpl.
  now destruct (moveLoop f objs) as [[[k n] e] c].
Qed.

Lemma loopSpawns_app (f : Frame) (pre post : list GameObject) :
  loopSpawns f (pre ++ post) = loopSpawns f pre ++ loopSpawns f post.
Proof.
  induction pre as [|o pre IH]; [reflexivity|].
  simpl app. now rewrite !loopSpawns_cons, IH, app_assoc.
Qed.

(** The registry of a frame while playing: the objects the loop kept,
    the missiles it spawned, and what the spawn block pushed. *)
Lemma useFrame_registry s delta player rnd refs objs :
  Store.status s = PLAYING ->
  let f := frameOf s delta player in
  let kept := loopKept f objs ++ loopSpawns f objs in
  fst (fst (useFrame s delta player rnd refs objs)) =
    kept ++ fst (spawnPlan s rnd (movedRefs s delta player refs) kept).
Proof.
  intro Hst. unfold useFrame, loopKept, loopSpawns, movedRefs. rewrite Hst.
  destruct (moveLoop (frameOf s delta player) objs) as [[[kept news] evs] ch].
  cbn zeta.
  match goal with
  | |- context [spawnPlan ?a ?b ?c ?d] => destruct (spawnPlan a b c d)
  end.
  reflexivity.
Qed.

(** The loop body on a damage source that is hit: the object is moved
    and deactivated, and nothing else of it but the has-fired flag can
    change. *)
Lemma stepObject_hit (f : Frame) (o : GameObject) :
  active o = true ->
  isDamageSource (type o) = true ->
  (posZ o < playerZ f + 2)%Q ->
  (posZ o + moveAmount f o > playerZ f - 2)%Q ->
  (Qabs (posX o - playerX f) < 9 # 10)%Q ->
  (playerY f < objTop o)%Q ->
  (playerY f + (18 # 10) > objBottom o)%Q ->
  playerHits (events (stepObject f o)) = 1%nat /\
  active (object (stepObject f o)) = false /\
  type (object (stepObject f o)) = type o /\
  posX (object (stepObject f o)) = posX o /\
  posY (object (stepObject f o)) = posY o /\
  posZ (object (stepObject f o)) = (posZ o + moveAmount f o)%Q /\
  keep (stepObject f o) = negb (Qgtb (posZ o + moveAmount f o) REMOVE_DISTANCE).
Proof.
  intros Ha Hd Hz1 Hz2 Hx Hy1 Hy2.
  assert (Hnp : isPickup (type o) = false)
    by (destruct (type o); try discriminate; reflexivity).
  unfold stepObject.
  rewrite (magnetPull_not_pickup f (setPosZ (posZ o + moveAmount f o) o) Hnp).
  pose proof (alienFire_keeps (setPosZ (posZ o + moveAmount f o) o)) as K.
  destruct (alienFire (setPosZ (posZ o + moveAmount f o) o)) as [[o3 ms] ev1].
  cbn [type posX posY posZ active setPosZ] in K.
  destruct K as (Kt & Kx & Ky & Kz & Ka & Kev).
  rewrite Ka, Ha.
  destruct (collide_hit f (posZ o) o3) as (burst & Hc & Hb).
  - now rewrite Kt.
  - assumption.
  - now rewrite Kz.
  - now rewrite Kx.
  - unfold objTop in *. now rewrite Kt, Ky.
  - unfold objBottom in *. now rewrite Kt, Ky.
  - rewrite Hc. cbn [events object keep].
    split.
    + rewrite playerHits_app, Kev. unfold playerHits in *. simpl.
      now rewrite Hb.
    + destruct o3; cbn in *. subst. repeat split; reflexivity.
Qed.

(** C1.  An active obstacle, alien or missile whose position before the
    move is below the player's z + 2 and after the move above the
    player's z - 2, whose lateral distance is below 0.9 and whose
    vertical extent overlaps the player's, yields exactly one player-hit
    signal in the frame and becomes inactive: it is the same object,
    moved, with the active flag off.  Within the loop over all objects,
    and so among the events of the frame callback, its signal is counted
    once between those of the objects before and after it; and the
    registry the frame callback leaves holds the deactivated object in
    its place (unless it moved past the removal distance 20, when it is
    dropped), between the kept objects before and after it, followed by
    the missiles of the loop and the objects of the spawn block. *)
Theorem swept_collision_hits_once (f : Frame) (o : GameObject) :
  active o = true ->
  isDamageSource (type o) = true ->
  (posZ o < playerZ f + 2)%Q ->
  (posZ o + moveAmount f o > playerZ f - 2)%Q ->
  (Qabs (posX o - playerX f) < 9 # 10)%Q ->
  (playerY f < objTop o)%Q ->
  (playerY f + (18 # 10) > objBottom o)%Q ->
  playerHits (events (stepObject f o)) = 1%nat /\
  active (object (stepObject f o)) = false /\
  (type (object (stepObject f o)) = type o /\
   posX (object (stepObject f o)) = posX o /\
   posY (object (stepObject f o)) = posY o /\
   posZ (object (stepObject f o)) = (posZ o + moveAmount f o)%Q) /\
  (forall pre post,
      playerHits (loopEvents f (pre ++ o :: post)) =
        (playerHits (loopEvents f pre) + 1 + playerHits (loopEvents f post))%nat) /\
  (forall s delta player rnd refs pre post,
      Store.status s = PLAYING ->
      frameOf s delta player = f ->
      playerHits (snd (useFrame s delta player rnd refs (pre ++ o :: post))) =
        (playerHits (loopEvents f pre) + 1 + playerHits (loopEvents f post))%nat) /\
  (forall s delta player rnd refs pre post,
      Store.status s = PLAYING ->
      frameOf s delta player = f ->
      let kept :=
        loopKept f pre
        ++ (if Qgtb (posZ o + moveAmount f o) REMOVE_DISTANCE then []
            else [object (stepObject f o)])
        ++ loopKept f post
        ++ loopSpawns f (pre ++ o :: post) in
      fst (fst (useFrame s delta player rnd refs (pre ++ o :: post))) =
        kept ++ fst (spawnPlan s rnd (movedRefs s delta player refs) kept)).
Proof.
  intros Ha Hd Hz1 Hz2 Hx Hy1 Hy2.
  destruct (stepObject_hit f o Ha Hd Hz1 Hz2 Hx Hy1 Hy2)
    as (H1 & H2 & Ht & Hpx & Hpy & Hpz & Hk).
  assert (Hloop : forall pre post,
             playerHits (loopEvents f (pre ++ o :: post)) =
               (playerHits (loopEvents f pre) + 1
                + playerHits (loopEvents f post))%nat).
  { intros pre post.
    rewrite loopEvents_app, loopEvents_cons, !playerHits_app, H1. lia. }
  split; [exact H1|]. split; [exact H2|].
  split; [auto|]. split; [exact Hloop|]. split.
  - intros s delta player rnd refs pre post Hst Hf.
    rewrite (useFrame_events s delta player rnd refs _ Hst), Hf.
    rewrite playerHits_app, rampEvents_no_hit. apply Hloop.
  - intros s delta player rnd refs pre post Hst Hf kept.
    pose proof (useFrame_registry s delta player rnd refs (pre ++ o :: post) Hst)
      as R.
    cbn zeta in R. rewrite Hf in R.
    assert (E : loopKept f (pre ++ o :: post) ++ loopSpawns f (pre ++ o :: post)
                = kept).
    { subst kept. rewrite loopKept_app, loopKept_cons, Hk.
      destruct (Qgtb (posZ o + moveAmount f o) REMOVE_DISTANCE);
        cbn [negb]; now rewrite <- !app_assoc. }
    rewrite E in R. exact R.
Qed.

(** The obstacle of the scenario, from -2 to +0.5 past a player at the
    origin at speed 50: one hit, and the registry of the frame holds the
    obstacle at 0.5 with the active flag off. *)
Lemma swept_collision_hits_once_witness :
  (posZ (object (stepObject frame25 obstacleAtMinus2)) == 5 # 10)%Q /\
  playerHits (snd (useFrame fastStore (5 # 100) None gemDraws portalDue
                            [obstacleAtMinus2])) = 1%nat /\
  active (object (stepObject frame25 obstacleAtMinus2)) = false /\
  (exists created,
      fst (fst (useFrame fastStore (5 # 100) None gemDraws portalDue
                         [obstacleAtMinus2])) =
        setActive false
          (setPosZ (-2 + dist frame25)%Q obstacleAtMinus2) :: created).
Proof.
  destruct (swept_collision_hits_once frame25 obstacleAtMinus2)
    as (_ & A & _ & _ & B & C); try reflexivity.
  split; [reflexivity|].
  split; [exact (B fastStore (5 # 100) None gemDraws portalDue [] []
                   eq_refl eq_refl)|].
  split; [exact A|].
  pose proof (C fastStore (5 # 100) None gemDraws portalDue [] []
                eq_refl eq_refl) as R.
  cbn [app] in R. eexists. rewrite R. reflexivity.
Defined.

(** ** The level manager: alien fire *)

Lemma magnetPull_hasFired (f : Frame) (o : GameObject) :
  hasFired (magnetPull f o) = hasFired o /\ type (magnetPull f o) = type o.
Proof.
  unfold magnetPull.
  destruct (isMagnetActive f && active o && isPickup (type o)); [|auto].
  destruct (Qltb _ 28); auto.
Qed.

Lemma collide_hasFired (f : Frame) (prevZ : Q) (o : GameObject) :
  hasFired (fst (fst (fst (collide f prevZ o)))) = hasFired o.
Proof.
  unfold collide.
  destruct (type o);
    repeat match goal with
           | |- context [if ?b then _ else _] => destruct b
           end; reflexivity.
Qed.

(** One step: at most one missile; a missile only from an alien that
    had not fired, and the flag is set afterwards; a set flag stays. *)
Lemma stepObject_fire (f : Frame) (o : GameObject) :
  (List.length (newSpawns (stepObject f o)) <= 1)%nat /\
  (hasFired o = true ->
     newSpawns (stepObject f o) = [] /\
     hasFired (object (stepObject f o)) = true) /\
  (newSpawns (stepObject f o) <> [] ->
     hasFired (object (stepObject f o)) = true).
Proof.
  unfold stepObject.
  set (o1 := setPosZ (posZ o + moveAmount f o) o).
  destruct (magnetPull_hasFired f o1) as [Hf Ht].
  assert (Hf1 : hasFired o1 = hasFired o) by reflexivity.
  set (o2 := magnetPull f o1) in *.
  assert (A : let '(o3, ms, _) := alienFire o2 in
              (List.length ms <= 1)%nat /\
              (hasFired o2 = true -> ms = [] /\ hasFired o3 = true) /\
              (ms <> [] -> hasFired o3 = true)).
  { unfold alienFire.
    destruct (type o2); try (simpl; repeat split; auto; congruence).
    destruct (active o2) eqn:Ea, (hasFired o2) eqn:Eh; simpl;
      try (repeat split; auto; congruence).
    destruct (Qgtb (posZ o2) (-90)); simpl; repeat split; auto; congruence. }
  destruct (alienFire o2) as [[o3 ms] ev1].
  destruct A as (A1 & A2 & A3).
  assert (C : hasFired
                (fst (fst (fst (if active o3 then collide f (posZ o) o3
                                else (o3, true, [], false))))) = hasFired o3).
  { destruct (active o3); [apply collide_hasFired | reflexivity]. }
  destruct (if active o3 then collide f (posZ o) o3 else (o3, true, [], false))
    as [[[o4 k] ev2] ch].
  cbn [fst] in C. cbn [newSpawns object].
  split; [assumption|]. split.
  - intro H. rewrite C. apply A2. congruence.
  - intro H. rewrite C. now apply A3.
Qed.

Lemma missilesOver_fired (fs : list Frame) : forall o,
  hasFired o = true -> missilesOver fs o = [].
Proof.
  induction fs as [|f fs IH]; intros o H; [reflexivity|].
  simpl. destruct (stepObject_fire f o) as (_ & K & _).
  destruct (K H) as [K1 K2]. rewrite K1. simpl.
  destruct (keep (stepObject f o)); [now apply IH | reflexivity].
Qed.

Lemma missilesOver_length (fs : list Frame) : forall o,
  (List.length (missilesOver fs o) <= 1)%nat.
Proof.
  induction fs as [|f fs IH]; intros o; [simpl; lia|].
  simpl. destruct (stepObject_fire f o) as (L & _ & K).
  destruct (newSpawns (stepObject f o)) as [|m ms] eqn:E.
  - simpl. destruct (keep (stepObject f o)); [apply IH | simpl; lia].
  - rewrite length_app.
    destruct (keep (stepObject f o)).
    + rewrite (missilesOver_fired fs _ (K ltac:(discriminate))).
      simpl in *. lia.
    + simpl in *. lia.
Qed.

(** ** The level manager: the letter schedule *)

Lemma getLetterInterval_value (N : Z) :
  1 <= N -> (getLetterInterval N == 150 * (3 # 2) ^ (N - 1))%Q.
Proof.
  intro H. unfold getLetterInterval, BASE_LETTER_INTERVAL.
  rewrite Z.max_r by lia. reflexivity.
Qed.

(** C6.  For every level N >= 1 the letter interval is 150 * 1.5^(N-1):
    150 at level 1, 1.5 times the interval of the level before, and it
    is the amount by which a letter spawn at level N moves the next
    letter distance. *)
Theorem letter_interval_scaling (N : Z) :
  1 <= N ->
  (getLetterInterval N == 150 * (3 # 2) ^ (N - 1))%Q /\
  (getLetterInterval 1 == 150)%Q /\
  (getLetterInterval (N + 1) == (3 # 2) * getLetterInterval N)%Q /\
  (forall rnd collected laneCount z refs d,
      availableIndices collected <> [] ->
      nextLetterDistance refs = Some d ->
      snd (letterSpawn rnd collected laneCount N z refs)
        = Some (d + getLetterInterval N)%Q).
Proof.
  intro H.
  split; [now apply getLetterInterval_value|].
  split; [reflexivity|].
  split.
  - rewrite !getLetterInterval_value by lia.
    replace (N + 1 - 1) with (1 + (N - 1)) by lia.
    rewrite Qpower_plus by discriminate.
    change ((3 # 2) ^ 1)%Q with (3 # 2)%Q. ring.
  - intros rnd collected laneCount z refs d Ha Hd.
    unfold letterSpawn.
    destruct (availableIndices collected); [congruence|].
    cbn [snd]. now rewrite Hd.
Qed.

Lemma letter_interval_scaling_witness :
  (getLetterInterval 3 == 150 * (3 # 2) ^ (3 - 1))%Q /\
  (getLetterInterval 1 == 150)%Q /\
  (getLetterInterval (3 + 1) == (3 # 2) * getLetterInterval 3)%Q /\
  (forall rnd collected laneCount z refs d,
      availableIndices collected <> [] ->
      nextLetterDistance refs = Some d ->
      snd (letterSpawn rnd collected laneCount 3 z refs)
        = Some (d + getLetterInterval 3)%Q).
Proof.
  apply (letter_interval_scaling 3). lia.
Defined.

(** ** The level manager: the spawn planner *)

(** [furthestZ] is a lower bound of the positions of the kept objects
    that are not missiles. *)
Lemma fold_Qmin_le (l : list Q) : forall a,
  (fold_left Qmin l a <= a)%Q /\
  (forall x, In x l -> fold_left Qmin l a <= x)%Q.
Proof.
  induction l as [|y l IH]; intro a; simpl.
  - split; [apply Qle_refl | intros x []].
  - destruct (IH (Qmin a y)) as [H1 H2]. split.
    + eapply Qle_trans; [exact H1 | apply Q.le_min_l].
    + intros x [<- | Hx].
      * eapply Qle_trans; [exact H1 | apply Q.le_min_r].
      * now apply H2.
Qed.

Lemma furthestZ_le (kept : list GameObject) (o : GameObject) :
  In o kept -> isMissile (type o) = false -> (furthestZ kept <= posZ o)%Q.
Proof.
  intros Hin Hm. unfold furthestZ.
  assert (Hf : In o (filter (fun o => negb (isMissile (type o))) kept)).
  { apply filter_In. split; [assumption | now rewrite Hm]. }
  destruct (filter (fun o => negb (isMissile (type o))) kept) as [|o0 rest];
    [destruct Hf|].
  destruct (fold_Qmin_le (map posZ rest) (posZ o0)) as [H1 H2].
  destruct Hf as [<- | Hr]; [assumption|].
  apply H2. now apply in_map.
Qed.

Lemma fold_Qmin_in (l : list Q) : forall a,
  fold_left Qmin l a = a \/ In (fold_left Qmin l a) l.
Proof.
  induction l as [|y l IH]; intro a; simpl; [now left|].
  destruct (IH (Qmin a y)) as [H | H]; [|now right; right].
  rewrite H. unfold Qmin, GenericMinMax.gmin.
  destruct (a ?= y)%Q; auto.
Qed.

(** [furthestZ] is -20 when no kept object other than missiles exists,
    and otherwise the least z among the kept objects that are not
    missiles. *)
Lemma furthestZ_spec (kept : list GameObject) :
  ((forall o, In o kept -> isMissile (type o) = true) /\
   furthestZ kept = (-20)%Q) \/
  (exists o, In o kept /\ isMissile (type o) = false /\
             furthestZ kept = posZ o /\
             forall o', In o' kept -> isMissile (type o') = false ->
                        (furthestZ kept <= posZ o')%Q).
Proof.
  destruct (filter (fun o => negb (isMissile (type o))) kept) as [|o0 rest] eqn:E.
  - left. split.
    + intros o Hin. destruct (isMissile (type o)) eqn:Hm; [reflexivity|].
      assert (H : In o (filter (fun o => negb (isMissile (type o))) kept))
        by (apply filter_In; now rewrite Hm).
      rewrite E in H. destruct H.
    + unfold furthestZ. now rewrite E.
  - right.
    assert (Hsub : forall o, In o (o0 :: rest) ->
                             In o kept /\ isMissile (type o) = false).
    { intros o H. rewrite <- E in H. apply filter_In in H.
      destruct H as [H1 H2]. split; [assumption|].
      now apply negb_true_iff in H2. }
    assert (Hf : furthestZ kept = fold_left Qmin (map posZ rest) (posZ o0))
      by (unfold furthestZ; now rewrite E).
    destruct (fold_Qmin_in (map posZ rest) (posZ o0)) as [H | H].
    + exists o0. destruct (Hsub o0 (or_introl eq_refl)) as [A B].
      repeat split; try assumption; [congruence|].
      intros o' Hin Hm. now apply furthestZ_le.
    + apply in_map_iff in H. destruct H as (o1 & Hz & Hin1).
      exists o1. destruct (Hsub o1 (or_intror Hin1)) as [A B].
      repeat split; try assumption; [congruence|].
      intros o' Hin Hm. now apply furthestZ_le.
Qed.

Lemma spawnZ_le (mode : GameMode) (v : Q) (kept : list GameObject) :
  (spawnZ mode v kept <= - SPAWN_DISTANCE)%Q.
Proof. unfold spawnZ. apply Q.le_min_r. Qed.

Lemma portalOffer_shape (mode : GameMode) (z : Q) (refs : Refs)
      (kept : list GameObject) :
  fst (portalOffer mode z refs kept) = [] \/
  (mode = ENDLESS /\
   fst (portalOffer mode z refs kept) =
     [ mkObject SHOP_PORTAL 0 0 (z - 35)%Q true
                None None None None false None ]).
Proof.
  unfold portalOffer. destruct mode; [now left|].
  destruct (Qgeb _ _); [|now left].
  destruct (negb _); [right; auto | now left].
Qed.

Lemma letterSpawn_z rnd collected laneCount level z refs :
  Forall (fun o => posZ o = z /\ type o <> SHOP_PORTAL)
         (fst (letterSpawn rnd collected laneCount level z refs)).
Proof.
  unfold letterSpawn. destruct (availableIndices collected);
    cbn [fst]; repeat constructor; discriminate.
Qed.

Lemma alienSquad_z rnd laneCount z :
  Forall (fun o => posZ o = z /\ type o <> SHOP_PORTAL)
         (alienSquad rnd laneCount z).
Proof.
  unfold alienSquad. apply Forall_map, Forall_forall.
  intros k _. split; [reflexivity | discriminate].
Qed.

Lemma spikeCluster_z rnd mode laneCount z :
  Forall (fun o => posZ o = z /\ type o <> SHOP_PORTAL)
         (spikeCluster rnd mode laneCount z).
Proof.
  unfold spikeCluster. apply Forall_flat_map, Forall_forall.
  intros i _. destruct (Qltb _ _); repeat constructor; discriminate.
Qed.

Lemma randomSpawn_z rnd mode laneCount level z :
  Forall (fun o => posZ o = z /\ type o <> SHOP_PORTAL)
         (randomSpawn rnd mode laneCount level z).
Proof.
  unfold randomSpawn.
  destruct (Qgtb _ _); [|constructor].
  destruct (Qltb (rndPowerup rnd) _); [repeat constructor; discriminate|].
  destruct (Qltb (rndObstacle rnd) _); [|repeat constructor; discriminate].
  destruct (_ && _); [apply alienSquad_z | apply spikeCluster_z].
Qed.

(** C8, as the code has it.  Write [furthestZ] for the least z among
    the kept objects that are not missiles, or -20 when there are none;
    the gap is min(30, 14 + 0.26 * effective speed) in Story and
    min(30, 13 + 0.22 * effective speed) in the endless mode, and the
    spawn position z is min([furthestZ] - gap, -120).  Nothing is
    created unless [furthestZ] is above -120; every object created is
    at z, except the shop portal of the endless mode, which is at
    z - 35; so every object created is at -120 or farther. *)
Theorem spawnPlan_positions
        (s : Store.GameState) (rnd : Random) (refs : Refs)
        (kept : list GameObject) (o : GameObject) :
  In o (fst (spawnPlan s rnd refs kept)) ->
  let effectiveSpeed := (Store.speed s * Store.speedMultiplier s)%Q in
  let gap :=
    Qmin 30 (match Store.mode s with
             | STORY => 14 + effectiveSpeed * (26 # 100)
             | ENDLESS => 13 + effectiveSpeed * (22 # 100)
             end)%Q in
  let z := Qmin (furthestZ kept - gap) (-120) in
  (furthestZ kept > -120)%Q /\
  (((forall k, In k kept -> isMissile (type k) = true) /\
    furthestZ kept = (-20)%Q) \/
   (exists m, In m kept /\ isMissile (type m) = false /\
              furthestZ kept = posZ m /\
              forall k, In k kept -> isMissile (type k) = false ->
                        (furthestZ kept <= posZ k)%Q)) /\
  (posZ o = z \/
   (type o = SHOP_PORTAL /\ Store.mode s = ENDLESS /\ posZ o = (z - 35)%Q)) /\
  (type o <> SHOP_PORTAL -> posZ o = z) /\
  (posZ o <= -120)%Q.
Proof.
  intros Hin effectiveSpeed gap z.
  assert (Ez : z = spawnZ (Store.mode s) effectiveSpeed kept).
  { subst z gap. unfold spawnZ, minGap, SPAWN_DISTANCE.
    destruct (Store.mode s); reflexivity. }
  rewrite Ez. clear Ez z gap. subst effectiveSpeed.
  set (z := spawnZ (Store.mode s)
                   (Store.speed s * Store.speedMultiplier s) kept).
  unfold spawnPlan in Hin.
  destruct (Qgtb (furthestZ kept) (- SPAWN_DISTANCE)) eqn:Hf;
    [|destruct Hin].
  apply Qgtb_gt in Hf. split; [exact Hf|].
  split; [apply furthestZ_spec|].
  fold z in Hin.
  pose proof (portalOffer_shape (Store.mode s) z refs kept) as P.
  destruct (portalOffer (Store.mode s) z refs kept) as [portal nextPortal].
  cbn [fst] in P.
  assert (Hz : (z <= - SPAWN_DISTANCE)%Q) by apply spawnZ_le.
  assert (Hcases :
            In o portal \/ (posZ o = z /\ type o <> SHOP_PORTAL)).
  { destruct (isLetterDue (Store.mode s) refs).
    - pose proof (letterSpawn_z rnd (Store.collectedLetters s)
                    (Store.laneCount s) (Store.level s) z refs) as L.
      destruct (letterSpawn rnd (Store.collectedLetters s)
                  (Store.laneCount s) (Store.level s) z refs) as [objs nl].
      cbn [fst] in *. apply in_app_or in Hin. destruct Hin as [H|H]; [now left|].
      right. exact (proj1 (Forall_forall _ _) L o H).
    - cbn [fst] in Hin. apply in_app_or in Hin. destruct Hin as [H|H]; [now left|].
      right. exact (proj1 (Forall_forall _ _)
                      (randomSpawn_z rnd (Store.mode s) (Store.laneCount s)
                         (Store.level s) z) o H). }
  destruct Hcases as [Hp | [Hoz Hot]].
  - destruct P as [P | [Pm P]]; rewrite P in Hp; [destruct Hp|].
    destruct Hp as [<- | []]. cbn [posZ type].
    split; [right; auto|]. split; [intro H; now contradiction H|].
    unfold SPAWN_DISTANCE in *. lra.
  - split; [now left|]. split; [auto|]. rewrite Hoz. exact Hz.
Qed.

(** With an obstacle 110 ahead in Story mode.  At base speed 22.5 the
    gap is 14 + 5.85 and the gem is created at -129.85; at speed 100
    the gap is capped at 30 and the gem is created at -140. *)
Lemma spawnPlan_positions_witness :
  let gem z := mkObject GEM (laneX 0) (12 # 10) z true
                        None None (Some "#00ffff"%string) (Some 50)
                        false None in
  let atBase := Store.startGame Store.initial in
  let atHundred := Store.setSpeed 100 (Store.startGame Store.initial) in
  (furthestZ [obstacleAtMinus110] == -110)%Q /\
  (exists z, In (gem z) (fst (spawnPlan atBase gemDraws startRefs
                                        [obstacleAtMinus110])) /\
             z = Qmin (furthestZ [obstacleAtMinus110]
                       - Qmin 30 (14 + (225 # 10) * 1 * (26 # 100)))
                      (-120) /\
             (z == -12985 # 100)%Q) /\
  (exists z, In (gem z) (fst (spawnPlan atHundred gemDraws startRefs
                                        [obstacleAtMinus110])) /\
             z = Qmin (furthestZ [obstacleAtMinus110]
                       - Qmin 30 (14 + 100 * 1 * (26 # 100)))
                      (-120) /\
             (z == -140)%Q).
Proof.
  split; [reflexivity|]. split.
  - eexists.
    assert (Hin : In (mkObject GEM (laneX 0) (12 # 10)
                               (Qmin (furthestZ [obstacleAtMinus110]
                                      - Qmin 30 (14 + (225 # 10) * 1 * (26 # 100)))
                                     (-120))
                               true None None (Some "#00ffff"%string)
                               (Some 50) false None)
                     (fst (spawnPlan (Store.startGame Store.initial) gemDraws
                                     startRefs [obstacleAtMinus110])))
      by (left; reflexivity).
    destruct (spawnPlan_positions _ _ _ _ _ Hin) as (_ & _ & _ & C & _).
    split; [exact Hin|]. split; [exact (C ltac:(discriminate))|].
    reflexivity.
  - eexists.
    assert (Hin : In (mkObject GEM (laneX 0) (12 # 10)
                               (Qmin (furthestZ [obstacleAtMinus110]
                                      - Qmin 30 (14 + 100 * 1 * (26 # 100)))
                                     (-120))
                               true None None (Some "#00ffff"%string)
                               (Some 50) false None)
                     (fst (spawnPlan
                             (Store.setSpeed 100 (Store.startGame Store.initial))
                             gemDraws startRefs [obstacleAtMinus110])))
      by (left; reflexivity).
    destruct (spawnPlan_positions _ _ _ _ _ Hin) as (_ & _ & _ & C & _).
    split; [exact Hin|]. split; [exact (C ltac:(discriminate))|].
    reflexivity.
Defined.

(** C8 as stated fails: in the endless mode, with a portal due and an
    empty registry, the planner creates the shop portal at -155, 35 units
    beyond the spawn position -120, so not every created object is at the
    spawn position. *)
Lemma spawnPlan_portal_not_at_spawnZ :
  let z := spawnZ (Store.mode endlessStore)
                  (Store.speed endlessStore * Store.speedMultiplier endlessStore)%Q
                  [] in
  (z == -120)%Q /\
  (exists o, In o (fst (spawnPlan endlessStore gemDraws portalDue [])) /\
             type o = SHOP_PORTAL /\ (posZ o == -155)%Q) /\
  ~ (forall o, In o (fst (spawnPlan endlessStore gemDraws portalDue [])) ->
               (posZ o == z)%Q).
Proof.
  split; [reflexivity|]. split.
  - eexists. split; [left; reflexivity|]. split; reflexivity.
  - intro H.
    assert (K := H _ (or_introl eq_refl)). discriminate K.
Qed.

(** ** The level manager: aliens over runs of frames *)

Lemma collide_type (f : Frame) (prevZ : Q) (o : GameObject) :
  type (fst (fst (fst (collide f prevZ o)))) = type o.
Proof.
  unfold collide.
  destruct (type o) eqn:E;
    repeat match goal with
           | |- context [if ?b then _ else _] => destruct b
           end; cbn; auto.
Qed.

Lemma stepObject_type (f : Frame) (o : GameObject) :
  type (object (stepObject f o)) = type o.
Proof.
  unfold stepObject.
  set (o1 := setPosZ (posZ o + moveAmount f o) o).
  pose proof (proj2 (magnetPull_hasFired f o1)) as T2.
  pose proof (alienFire_keeps (magnetPull f o1)) as K.
  destruct (alienFire (magnetPull f o1)) as [[o3 ms] ev1].
  destruct K as (K & _).
  pose proof (collide_type f (posZ o) o3) as C.
  destruct (active o3).
  - destruct (collide f (posZ o) o3) as [[[o4 k1] ev2] ch2].
    cbn [fst] in C. cbn [object]. rewrite C, K, T2. reflexivity.
  - cbn [object]. rewrite K, T2. reflexivity.
Qed.

Lemma magnetPull_active (f : Frame) (o : GameObject) :
  active (magnetPull f o) = active o.
Proof.
  unfold magnetPull.
  destruct (isMagnetActive f && active o && isPickup (type o)); [|auto].
  destruct (Qltb _ 28); auto.
Qed.

(** The collision block never switches an object on. *)
Lemma collide_active (f : Frame) (prevZ : Q) (o : GameObject) :
  active (fst (fst (fst (collide f prevZ o)))) = true -> active o = true.
Proof.
  unfold collide.
  destruct (type o);
    repeat match goal with
           | |- context [if ?b then _ else _] => destruct b
           end; cbn; auto; discriminate.
Qed.

Lemma missileCount_app (a b : list GameObject) :
  missileCount (a ++ b) = (missileCount a + missileCount b)%nat.
Proof. unfold missileCount, ofType. now rewrite filter_app, length_app. Qed.

Lemma armedCount_app (a b : list GameObject) :
  armedCount (a ++ b) = (armedCount a + armedCount b)%nat.
Proof. unfold armedCount. now rewrite filter_app, length_app. Qed.

(** The collision block changes nothing of an object but its active
    flag, and keeps everything but a portal. *)
Lemma collide_only_active (f : Frame) (prevZ : Q) (o : GameObject) :
  (fst (fst (fst (collide f prevZ o))) = o \/
   fst (fst (fst (collide f prevZ o))) = setActive false o) /\
  (type o <> SHOP_PORTAL -> snd (fst (fst (collide f prevZ o))) = true).
Proof.
  unfold collide.
  destruct (type o);
    repeat match goal with
           | |- context [if ?b then _ else _] => destruct b
           end; cbn; split; auto; intro H; now contradiction H.
Qed.

(** The loop body on an alien that fires: the alien afterwards, and
    whether it is kept. *)
Lemma stepObject_alien_fires (f : Frame) (o : GameObject) :
  type o = ALIEN -> active o = true -> hasFired o = false ->
  (posZ o + dist f > -90)%Q ->
  type (object (stepObject f o)) = ALIEN /\
  posX (object (stepObject f o)) = posX o /\
  posY (object (stepObject f o)) = posY o /\
  posZ (object (stepObject f o)) = (posZ o + dist f)%Q /\
  hasFired (object (stepObject f o)) = true /\
  keep (stepObject f o) = negb (Qgtb (posZ o + dist f) REMOVE_DISTANCE) /\
  newSpawns (stepObject f o) =
    [ mkObject MISSILE (posX o) 1 (posZ o + dist f + 2)%Q true
               None None (Some "#ff0000"%string) None false None ].
Proof.
  intros Ht Ha Hf Hz.
  unfold stepObject.
  rewrite magnetPull_not_pickup by (cbn; now rewrite Ht).
  unfold alienFire, moveAmount. cbn [type setPosZ posZ posX active hasFired].
  rewrite Ht, Ha, Hf. cbn [isMissile andb negb].
  rewrite (proj2 (Qgtb_gt _ _) Hz).
  set (o3 := setHasFired true (setPosZ (posZ o + dist f) o)).
  assert (T3 : type o3 <> SHOP_PORTAL) by (cbn; rewrite Ht; discriminate).
  destruct (collide_only_active f (posZ o) o3) as [C K].
  specialize (K T3).
  change (active o3) with (active o). rewrite Ha.
  destruct (collide f (posZ o) o3) as [[[o4 k] ev2] ch].
  cbn [fst snd] in C, K. subst k.
  cbn [object keep newSpawns andb].
  destruct C as [-> | ->]; cbn; rewrite ?Ht; repeat split; reflexivity.
Qed.

(** The loop body and the armed aliens: what it spawns are missiles, at
    most one, and only from an armed alien, which is not armed
    afterwards; nothing becomes armed. *)
Lemma stepObject_armed (f : Frame) (o : GameObject) :
  (newSpawns (stepObject f o) = [] /\
   (isArmed (object (stepObject f o)) = true -> isArmed o = true)) \/
  (isArmed o = true /\ isArmed (object (stepObject f o)) = false /\
   exists m, newSpawns (stepObject f o) = [m] /\ type m = MISSILE).
Proof.
  pose proof (stepObject_type f o) as T.
  unfold stepObject in *.
  set (o1 := setPosZ (posZ o + moveAmount f o) o) in *.
  destruct (magnetPull_hasFired f o1) as [Hf Ht].
  pose proof (magnetPull_active f o1) as Ha.
  set (o2 := magnetPull f o1) in *.
  assert (E2 : isArmed o2 = isArmed o).
  { unfold isArmed. now rewrite Ht, Hf, Ha. }
  assert (A : let '(o3, ms, _) := alienFire o2 in
              active o3 = active o2 /\
              ((ms = [] /\ hasFired o3 = hasFired o2) \/
               (isArmed o2 = true /\ hasFired o3 = true /\
                exists m, ms = [m] /\ type m = MISSILE))).
  { unfold alienFire, isArmed.
    destruct (type o2); cbn [ObjectType_eqb andb]; try (split; auto).
    destruct (active o2 && negb (hasFired o2)) eqn:E; [|split; auto].
    destruct (Qgtb (posZ o2) (-90)); [|split; auto].
    split; [reflexivity|]. right.
    split; [reflexivity|]. split; [reflexivity|].
    eexists. split; reflexivity. }
  destruct (alienFire o2) as [[o3 ms] ev1].
  destruct A as (A1 & A2).
  assert (C : hasFired
                (fst (fst (fst (if active o3 then collide f (posZ o) o3
                                else (o3, true, [], false))))) = hasFired o3 /\
              (active
                 (fst (fst (fst (if active o3 then collide f (posZ o) o3
                                 else (o3, true, [], false))))) = true ->
               active o3 = true)).
  { destruct (active o3) eqn:E3.
    - split; [apply collide_hasFired | auto].
    - cbn. split; [reflexivity | intro; congruence]. }
  destruct (if active o3 then collide f (posZ o) o3 else (o3, true, [], false))
    as [[[o4 k] ev2] ch].
  cbn [fst] in C. cbn [newSpawns object] in *.
  destruct C as [C1 C2].
  destruct A2 as [[-> Hh] | (Harm & Hh & m & -> & Hm)].
  - left. split; [reflexivity|].
    intro H4. rewrite <- E2. unfold isArmed in *.
    apply andb_true_iff in H4. destruct H4 as [H4 H5].
    apply andb_true_iff in H4. destruct H4 as [H4 H6].
    rewrite Ht. change (type o1) with (type o). rewrite <- T, H4.
    rewrite <- A1, (C2 H6), <- Hh, <- C1, H5. reflexivity.
  - right. split; [now rewrite <- E2|]. split.
    + unfold isArmed. rewrite C1, Hh. now rewrite andb_false_r.
    + exists m. auto.
Qed.

(** One object of the loop never adds to the missiles and armed aliens
    of the registry. *)
Lemma stepObject_potential (f : Frame) (o : GameObject) :
  let r := stepObject f o in
  let here := if keep r then [object r] else [] in
  (missileCount (here ++ newSpawns r) + armedCount (here ++ newSpawns r)
   <= missileCount [o] + armedCount [o])%nat.
Proof.
  cbn zeta.
  pose proof (stepObject_type f o) as T.
  assert (M : (missileCount (if keep (stepObject f o)
                             then [object (stepObject f o)] else [])
               <= missileCount [o])%nat).
  { destruct (keep (stepObject f o)); [|unfold missileCount; simpl; lia].
    unfold missileCount, ofType. cbn [filter]. rewrite T.
    destruct (ObjectType_eqb (type o) MISSILE); simpl; lia. }
  rewrite missileCount_app, armedCount_app.
  destruct (stepObject_armed f o) as [[N K] | (Ho & K & m & N & Hm)];
    rewrite N.
  - assert (A : (armedCount (if keep (stepObject f o)
                             then [object (stepObject f o)] else [])
                 <= armedCount [o])%nat).
    { destruct (keep (stepObject f o)); [|unfold armedCount; simpl; lia].
      unfold armedCount. cbn [filter].
      destruct (isArmed (object (stepObject f o))) eqn:E; [|simpl; lia].
      now rewrite (K eq_refl). }
    unfold missileCount at 2, armedCount at 2. simpl. lia.
  - assert (A : armedCount (if keep (stepObject f o)
                            then [object (stepObject f o)] else []) = 0%nat).
    { destruct (keep (stepObject f o)); [|reflexivity].
      unfold armedCount. cbn [filter]. now rewrite K. }
    assert (Mo : missileCount [o] = 0%nat).
    { unfold missileCount, ofType. cbn [filter].
      unfold isArmed in Ho.
      destruct (type o); try discriminate; reflexivity. }
    assert (Am : armedCount [m] = 0%nat).
    { unfold armedCount, isArmed. cbn [filter]. now rewrite Hm. }
    assert (Mm : missileCount [m] = 1%nat).
    { unfold missileCount, ofType. cbn [filter]. now rewrite Hm. }
    assert (Ao : armedCount [o] = 1%nat).
    { unfold armedCount. cbn [filter]. now rewrite Ho. }
    lia.
Qed.

Lemma moveLoop_potential (f : Frame) (objs : list GameObject) :
  (missileCount (loopKept f objs ++ loopSpawns f objs)
   + armedCount (loopKept f objs ++ loopSpawns f objs)
   <= missileCount objs + armedCount objs)%nat.
Proof.
  induction objs as [|o objs IH]; [cbn; lia|].
  rewrite loopKept_cons, loopSpawns_cons.
  pose proof (stepObject_potential f o) as P. cbn zeta in P.
  change (o :: objs) with ([o] ++ objs).
  rewrite !missileCount_app, !armedCount_app in *. lia.
Qed.

(** The spawn block pushes no missile. *)
Lemma spawnPlan_no_missile s rnd refs kept :
  Forall (fun c => type c <> MISSILE) (fst (spawnPlan s rnd refs kept)).
Proof.
  unfold spawnPlan.
  destruct (Qgtb (furthestZ kept) (- SPAWN_DISTANCE)); [|constructor].
  set (z := spawnZ (Store.mode s) (Store.speed s * Store.speedMultiplier s) kept).
  pose proof (portalOffer_shape (Store.mode s) z refs kept) as P.
  destruct (portalOffer (Store.mode s) z refs kept) as [portal nextPortal].
  cbn [fst] in P.
  assert (Hp : Forall (fun c => type c <> MISSILE) portal).
  { destruct P as [-> | [_ ->]]; repeat constructor. discriminate. }
  destruct (isLetterDue (Store.mode s) refs).
  - unfold letterSpawn.
    destruct (availableIndices (Store.collectedLetters s)); cbn [fst];
      apply Forall_app; (split; [exact Hp|]);
        repeat constructor; discriminate.
  - cbn [fst]. apply Forall_app. split; [exact Hp|].
    unfold randomSpawn.
    destruct (Qgtb _ _); [|constructor].
    destruct (Qltb (rndPowerup rnd) _); [repeat constructor; discriminate|].
    destruct (Qltb (rndObstacle rnd) _); [|repeat constructor; discriminate].
    destruct (_ && _).
    + unfold alienSquad. apply Forall_map, Forall_forall.
      intros k _. discriminate.
    + unfold spikeCluster. apply Forall_flat_map, Forall_forall.
      intros i _. destruct (Qltb _ _); repeat constructor; discriminate.
Qed.

Lemma missileCount_none (l : list GameObject) :
  Forall (fun c => type c <> MISSILE) l -> missileCount l = 0%nat.
Proof.
  intro N. unfold missileCount, ofType.
  induction N as [|c l Hc _ IH]; [reflexivity|].
  cbn [filter]. destruct (type c); try exact IH. now contradiction Hc.
Qed.

Lemma armedCount_aliens (l : list GameObject) :
  (armedCount l <= List.length (ofType ALIEN l))%nat.
Proof.
  unfold armedCount, ofType, isArmed.
  induction l as [|c l IH]; [simpl; lia|].
  cbn [filter].
  destruct (ObjectType_eqb (type c) ALIEN); cbn [andb];
    [destruct (active c && negb (hasFired c)); simpl; lia | exact IH].
Qed.

(** One call of the frame callback: the missiles and armed aliens of
    the registry grow by no more than the aliens the spawn block
    added. *)
Lemma tick_potential (t : Tick) (st : list GameObject * Refs) :
  (missileCount (fst (tick t st)) + armedCount (fst (tick t st))
   <= missileCount (fst st) + armedCount (fst st)
      + List.length (ofType ALIEN (planned t st)))%nat.
Proof.
  destruct st as [objs refs]. unfold planned.
  destruct (Store.status (tickStore t)) eqn:Hst;
    try (unfold tick, useFrame; rewrite Hst; cbn; lia).
  unfold tick at 1 2 3. cbn [fst snd].
  pose proof (useFrame_registry (tickStore t) (tickDelta t) (tickPlayer t)
                (tickRandom t) refs objs Hst) as R.
  cbn zeta in R.
  set (f := frameOf (tickStore t) (tickDelta t) (tickPlayer t)) in *.
  pose proof (spawnPlan_no_missile (tickStore t) (tickRandom t)
                (movedRefs (tickStore t) (tickDelta t) (tickPlayer t) refs)
                (loopKept f objs ++ loopSpawns f objs)) as N.
  set (created := fst (spawnPlan (tickStore t) (tickRandom t)
                         (movedRefs (tickStore t) (tickDelta t) (tickPlayer t) refs)
                         (loopKept f objs ++ loopSpawns f objs))) in *.
  rewrite R.
  assert (S : skipn (List.length (loopKept f objs)
                     + List.length (loopSpawns f objs))
                    ((loopKept f objs ++ loopSpawns f objs) ++ created)
              = created).
  { rewrite <- length_app, skipn_app, skipn_all, Nat.sub_diag. reflexivity. }
  rewrite S.
  pose proof (moveLoop_potential f objs) as P.
  rewrite missileCount_app, armedCount_app.
  pose proof (missileCount_none created N) as Mc.
  pose proof (armedCount_aliens created) as Ac.
  lia.
Qed.

Lemma runFrames_potential (ts : list Tick) : forall st,
  (missileCount (fst (runFrames ts st)) + armedCount (fst (runFrames ts st))
   <= missileCount (fst st) + armedCount (fst st) + aliensPlanned ts st)%nat.
Proof.
  unfold runFrames.
  induction ts as [|t ts IH]; intro st; cbn [fold_left aliensPlanned]; [lia|].
  specialize (IH (tick t st)).
  pose proof (tick_potential t st). lia.
Qed.

(** C9.  Every alien fires at most once.  In the loop body: over any run
    of frames an object spawns at most one missile; an active alien that
    has not fired and whose moved position is beyond -90 sets its
    has-fired flag and spawns exactly one missile, active, at its own x,
    height 1 and 2 units ahead of its moved z; once the flag is set, no
    later frame spawns a missile from it.  In the frame callback: the
    registry after the call holds, in order, the kept objects before the
    alien, the alien as the loop body left it (unless dropped), the kept
    objects after it, the missiles of the objects before it, its own
    missiles, those of the objects after it, and then what the spawn
    block pushed, which holds no missile; an alien with the flag set
    contributes no missile and keeps the flag; an alien that fires is
    in that registry at its moved z with the flag set (unless it has
    moved past 20), and its one missile with it.  Over any sequence of
    calls: the missiles in the registry plus the aliens that can still
    fire never exceed those at the start plus the aliens the spawn block
    added meanwhile, so each launch uses up an alien for good. *)
Theorem alien_fires_at_most_once (o : GameObject) :
  (forall fs, (List.length (missilesOver fs o) <= 1)%nat) /\
  (forall f,
      type o = ALIEN -> active o = true -> hasFired o = false ->
      (posZ o + dist f > -90)%Q ->
      hasFired (object (stepObject f o)) = true /\
      newSpawns (stepObject f o) =
        [ mkObject MISSILE (posX o) 1 (posZ o + dist f + 2)%Q true
                   None None (Some "#ff0000"%string) None false None ] /\
      (forall fs, missilesOver fs (object (stepObject f o)) = [])) /\
  (forall fs, hasFired o = true -> missilesOver fs o = []) /\
  (forall s delta player rnd refs pre post,
      Store.status s = PLAYING ->
      let f := frameOf s delta player in
      let r := stepObject f o in
      let kept :=
        loopKept f pre ++ (if keep r then [object r] else [])
        ++ loopKept f post
        ++ loopSpawns f pre ++ newSpawns r ++ loopSpawns f post in
      fst (fst (useFrame s delta player rnd refs (pre ++ o :: post))) =
        kept ++ fst (spawnPlan s rnd (movedRefs s delta player refs) kept) /\
      Forall (fun c => type c <> MISSILE)
             (fst (spawnPlan s rnd (movedRefs s delta player refs) kept)) /\
      (hasFired o = true ->
       newSpawns r = [] /\ hasFired (object r) = true)) /\
  (forall s delta player rnd refs pre post,
      Store.status s = PLAYING ->
      let f := frameOf s delta player in
      type o = ALIEN -> active o = true -> hasFired o = false ->
      (posZ o + dist f > -90)%Q ->
      exists o' created,
        fst (fst (useFrame s delta player rnd refs (pre ++ o :: post))) =
          loopKept f pre
          ++ (if Qgtb (posZ o + dist f) REMOVE_DISTANCE then [] else [o'])
          ++ loopKept f post
          ++ loopSpawns f pre
          ++ [ mkObject MISSILE (posX o) 1 (posZ o + dist f + 2)%Q true
                        None None (Some "#ff0000"%string) None false None ]
          ++ loopSpawns f post
          ++ created /\
        type o' = ALIEN /\ hasFired o' = true /\
        posX o' = posX o /\ posY o' = posY o /\
        posZ o' = (posZ o + dist f)%Q /\
        Forall (fun c => type c <> MISSILE) created) /\
  (forall ts st,
      (missileCount (fst (runFrames ts st)) + armedCount (fst (runFrames ts st))
       <= missileCount (fst st) + armedCount (fst st)
          + aliensPlanned ts st)%nat).
Proof.
  split; [intro fs; apply missilesOver_length|].
  split; [|split; [intros fs H; now apply missilesOver_fired|]].
  - intros f Ht Ha Hf Hz.
    assert (S1 : newSpawns (stepObject f o) =
                 [ mkObject MISSILE (posX o) 1 (posZ o + dist f + 2)%Q true
                            None None (Some "#ff0000"%string) None false None ]).
    { unfold stepObject.
      rewrite magnetPull_not_pickup by (cbn; now rewrite Ht).
      unfold alienFire, moveAmount. cbn [type setPosZ posZ posX active hasFired].
      rewrite Ht, Ha, Hf. cbn [isMissile andb negb].
      rewrite (proj2 (Qgtb_gt _ _) Hz).
      match goal with
      | |- context [if ?b then ?x else ?y] =>
        destruct (if b then x else y) as [[[? ?] ?] ?]
      end.
      reflexivity. }
    destruct (stepObject_fire f o) as (_ & _ & K).
    assert (Hfired : hasFired (object (stepObject f o)) = true)
      by (apply K; rewrite S1; discriminate).
    repeat split; try assumption.
    intro fs. now apply missilesOver_fired.
  - assert (Reg : forall s delta player rnd refs pre post,
               Store.status s = PLAYING ->
               let f := frameOf s delta player in
               let r := stepObject f o in
               let kept :=
                 loopKept f pre ++ (if keep r then [object r] else [])
                 ++ loopKept f post
                 ++ loopSpawns f pre ++ newSpawns r ++ loopSpawns f post in
               fst (fst (useFrame s delta player rnd refs (pre ++ o :: post))) =
                 kept ++ fst (spawnPlan s rnd (movedRefs s delta player refs)
                                        kept)).
    { intros s delta player rnd refs pre post Hst f r kept.
      pose proof (useFrame_registry s delta player rnd refs
                    (pre ++ o :: post) Hst) as R.
      cbn zeta in R. fold f in R.
      assert (E : loopKept f (pre ++ o :: post)
                  ++ loopSpawns f (pre ++ o :: post) = kept).
      { subst kept r.
        rewrite loopKept_app, loopKept_cons, loopSpawns_app, loopSpawns_cons.
        now rewrite <- !app_assoc. }
      rewrite E in R. exact R. }
    split; [|split; [|intros ts st; apply runFrames_potential]].
    + intros s delta player rnd refs pre post Hst f r kept.
      split; [exact (Reg s delta player rnd refs pre post Hst)|].
      split; [apply spawnPlan_no_missile|].
      intro H. destruct (stepObject_fire f o) as (_ & K & _). exact (K H).
    + intros s delta player rnd refs pre post Hst f Ht Ha Hf Hz.
      pose proof (Reg s delta player rnd refs pre post Hst) as R.
      cbn zeta in R. fold f in R.
      destruct (stepObject_alien_fires f o Ht Ha Hf Hz)
        as (T & Px & Py & Pz & Hh & Hk & Hn).
      rewrite Hk, Hn in R.
      match type of R with
      | _ = _ ++ ?c => exists (object (stepObject f o)), c
      end.
      split.
      * rewrite R.
        destruct (Qgtb (posZ o + dist f) REMOVE_DISTANCE); cbn [negb];
          rewrite <- !app_assoc; reflexivity.
      * split; [exact T|]. split; [exact Hh|]. split; [exact Px|].
        split; [exact Py|]. split; [exact Pz|].
        apply spawnPlan_no_missile.
Qed.

(** An alien at -91 in a frame that moves the world by 2.5: it fires,
    and the registry of the frame holds the alien at -88.5 with the flag
    set, then its missile at -86.5. *)
Lemma alien_fires_at_most_once_witness :
  (dist frame25 == 25 # 10)%Q /\
  hasFired (object (stepObject frame25 alienAtMinus91)) = true /\
  newSpawns (stepObject frame25 alienAtMinus91) =
    [ mkObject MISSILE (22 # 10) 1 (-91 + dist frame25 + 2)%Q true
               None None (Some "#ff0000"%string) None false None ] /\
  (exists created,
      fst (fst (useFrame fastStore (5 # 100) None gemDraws portalDue
                         [alienAtMinus91])) =
        setHasFired true (setPosZ (-91 + dist frame25)%Q alienAtMinus91)
        :: mkObject MISSILE (22 # 10) 1 (-91 + dist frame25 + 2)%Q true
                    None None (Some "#ff0000"%string) None false None
        :: created /\
      Forall (fun c => type c <> MISSILE) created).
Proof.
  destruct (alien_fires_at_most_once alienAtMinus91) as (_ & H & _ & R & _).
  destruct (H frame25 eq_refl eq_refl eq_refl eq_refl) as (A & B & _).
  destruct (R fastStore (5 # 100) None gemDraws portalDue [] [] eq_refl)
    as (R1 & R2 & _).
  split; [reflexivity|]. split; [exact A|]. split; [exact B|].
  cbn [app] in R1. eexists. split; [rewrite R1; reflexivity | exact R2].
Defined.

End LevelFacts.

(** * Further facts *)

(** ** The store with [speedMultiplier]: damage, buffs, invariants *)

Module StoreMore.
Import Store.

(** The fields [takeDamage] touches, when immortality is off. *)
Lemma takeDamage_fields (s : GameState) :
  isImmortalityActive s = false ->
  isImmortalityActive (takeDamage s) = false /\
  shieldCharges (takeDamage s) =
    (if 0 <? shieldCharges s then Z.max 0 (shieldCharges s - 1)
     else shieldCharges s) /\
  lives (takeDamage s) =
    (if 0 <? shieldCharges s then lives s
     else if 1 <? lives s then lives s - 1 else 0) /\
  status (takeDamage s) =
    (if 0 <? shieldCharges s then status s
     else if 1 <? lives s then status s else GAME_OVER).
Proof.
  intro H. unfold takeDamage. rewrite H.
  destruct s; cbn in *. split_ifs; cbn; auto.
Qed.

(** X1.  Hits drain the shield before the lives.  From a state without
    immortality, with c >= 0 shield charges and L >= 1 lives, after k
    calls of [takeDamage] the charges are max 0 (c - k), the lives are
    max 0 (L - max 0 (k - c)), and the status is GameOver exactly from
    the (c + L)-th hit on. *)
Theorem hits_drain_shield_then_lives (s : GameState) (k : nat) :
  isImmortalityActive s = false ->
  0 <= shieldCharges s ->
  1 <= lives s ->
  shieldCharges (hits k s) = Z.max 0 (shieldCharges s - Z.of_nat k) /\
  lives (hits k s) =
    Z.max 0 (lives s - Z.max 0 (Z.of_nat k - shieldCharges s)) /\
  status (hits k s) =
    (if shieldCharges s + lives s <=? Z.of_nat k then GAME_OVER else status s).
Proof.
  intros Hi Hc Hl.
  assert (G : isImmortalityActive (hits k s) = false /\
              shieldCharges (hits k s) = Z.max 0 (shieldCharges s - Z.of_nat k) /\
              lives (hits k s) =
                Z.max 0 (lives s - Z.max 0 (Z.of_nat k - shieldCharges s)) /\
              status (hits k s) =
                (if shieldCharges s + lives s <=? Z.of_nat k
                 then GAME_OVER else status s)).
  { induction k as [|k IH].
    - change (hits 0 s) with s. change (Z.of_nat 0) with 0.
      destruct (Z.leb_spec (shieldCharges s + lives s) 0); [lia|].
      repeat split; try assumption; lia.
    - destruct IH as (I1 & I2 & I3 & I4).
      change (hits (S k) s) with (takeDamage (hits k s)).
      destruct (takeDamage_fields (hits k s) I1) as (T1 & T2 & T3 & T4).
      rewrite T2, T3, T4, I2, I3, I4. clear T1 T2 T3 T4 I2 I3 I4.
      split; [apply takeDamage_fields; assumption|].
      rewrite Nat2Z.inj_succ.
      destruct (Z.ltb_spec 0 (Z.max 0 (shieldCharges s - Z.of_nat k)));
        destruct (Z.ltb_spec 1 (Z.max 0 (lives s - Z.max 0 (Z.of_nat k - shieldCharges s))));
        destruct (Z.leb_spec (shieldCharges s + lives s) (Z.of_nat k));
        destruct (Z.leb_spec (shieldCharges s + lives s) (Z.succ (Z.of_nat k)));
        repeat split; try reflexivity; try lia. }
  tauto.
Qed.

Lemma hits_drain_shield_then_lives_witness :
  let s := applyPowerUp SHIELD 0 (startGame initial) in
  shieldCharges (hits 3 s) = Z.max 0 (shieldCharges s - Z.of_nat 3) /\
  lives (hits 3 s) =
    Z.max 0 (lives s - Z.max 0 (Z.of_nat 3 - shieldCharges s)) /\
  status (hits 3 s) =
    (if shieldCharges s + lives s <=? Z.of_nat 3 then GAME_OVER else status s).
Proof.
  apply (hits_drain_shield_then_lives
           (applyPowerUp SHIELD 0 (startGame initial)) 3);
    [reflexivity | cbn; lia | cbn; lia].
Defined.

(** X2.  The immortality ability.  Once owned, activating it makes any
    number of hits leave the whole state untouched, and activating it
    again changes nothing; without the ability, activating is a
    no-op. *)
Theorem immortality_blocks_damage (s : GameState) (k : nat) :
  hasImmortality s = true ->
  isImmortalityActive (activateImmortality s) = true /\
  hits k (activateImmortality s) = activateImmortality s /\
  activateImmortality (activateImmortality s) = activateImmortality s /\
  (forall s0, hasImmortality s0 = false -> activateImmortality s0 = s0).
Proof.
  intro H.
  assert (A : isImmortalityActive (activateImmortality s) = true).
  { unfold activateImmortality. rewrite H.
    destruct (isImmortalityActive s) eqn:E; cbn; [assumption|].
    destruct s; reflexivity. }
  repeat split.
  - assumption.
  - induction k as [|k IH]; [reflexivity|].
    change (hits (S k) (activateImmortality s))
      with (takeDamage (hits k (activateImmortality s))).
    rewrite IH. unfold takeDamage. now rewrite A.
  - unfold activateImmortality at 1. rewrite A.
    now rewrite andb_false_r.
  - intros s0 H0. unfold activateImmortality. now rewrite H0.
Qed.

Lemma immortality_blocks_damage_witness :
  let s := snd (buyItem IMMORTAL 3000 (addScore 3000 (startGame initial))) in
  isImmortalityActive (activateImmortality s) = true /\
  lives (hits 10 (activateImmortality s)) = 6 /\
  hits 10 (activateImmortality s) = activateImmortality s.
Proof.
  destruct (immortality_blocks_damage
              (snd (buyItem IMMORTAL 3000 (addScore 3000 (startGame initial))))
              10 eq_refl) as (A & B & _).
  split; [exact A|]. split; [reflexivity | exact B].
Defined.

Lemma speedMultiplierValue_recompute (now : Z) (s : GameState) :
  speedMultiplierValue (speedMultiplier (recomputeSpeedMultiplier now s)).
Proof.
  unfold recomputeSpeedMultiplier, speedMultiplierValue.
  destruct s; cbn [slowUntil boostUntil set fold_left set1 speedMultiplier].
  destruct (now <? boostUntil0), (now <? slowUntil0); vm_compute; intuition congruence.
Qed.

Lemma collectLetter_storeInv (i : Z) (s : GameState) :
  storeInv s -> storeInv (fst (collectLetter i s)).
Proof.
  intros Hinv. pose proof Hinv as ((Hs1 & Hs2) & (Hnd & Hlen) & Hl & Hm).
  destruct (mode s) eqn:Emode.
  - destruct (includes (collectedLetters s) i) eqn:Hi.
    + rewrite (StoreFacts.collectLetter_member i s Emode Hi).
      exact Hinv.
    + assert (Hni : ~ In i (collectedLetters s)).
      { intro K. apply includes_In in K. congruence. }
      destruct (Nat.eq_dec (S (List.length (collectedLetters s))) 6) as [E|E].
      * rewrite (StoreFacts.collectLetter_new_full i s Emode Hi E).
        cbn [fst]. unfold storeInv.
        destruct s; cbn in *.
        destruct (level0 <? MAX_LEVEL); cbn;
          repeat split; try assumption; try lia; try constructor.
      * rewrite (StoreFacts.collectLetter_new_short i s Emode Hi E).
        cbn [fst]. unfold storeInv.
        destruct s; cbn in *.
        repeat split; try assumption; try lia.
        -- apply NoDup_app; [assumption | repeat constructor; intros [] | ].
           intros a Ha [<- | []]. contradiction.
        -- rewrite length_app. simpl. lia.
  - rewrite (StoreFacts.collectLetter_endless i s Emode).
    cbn [fst]. unfold storeInv. destruct s; cbn in *.
    repeat split; assumption.
Qed.

Lemma act_storeInv (a : Action) (s : GameState) :
  storeInv s -> storeInv (act a s).
Proof.
  destruct a; cbn [act];
    try (unfold storeInv; destruct s; cbn; intros ((Hs1 & Hs2) & (Hnd & Hlen) & Hl & Hm);
         repeat split; solve [assumption | lia | constructor | simpl; lia
                             | vm_compute; auto]).
  - (* takeDamage *)
    unfold storeInv, takeDamage. destruct s; cbn.
    intros ((Hs1 & Hs2) & (Hnd & Hlen) & Hl & Hm).
    split_ifs; cbn; repeat split; try assumption; lia.
  - (* collectLetter *) apply collectLetter_storeInv.
  - (* buyItem *)
    unfold storeInv, buyItem. destruct s, type; cbn;
      intros ((Hs1 & Hs2) & (Hnd & Hlen) & Hl & Hm);
      split_ifs; cbn; repeat split; assumption.
  - (* activateImmortality *)
    unfold storeInv, activateImmortality. destruct s; cbn.
    intros H. split_ifs; exact H.
  - (* applyPowerUp *)
    intros ((Hs1 & Hs2) & (Hnd & Hlen) & Hl & Hm). destruct type.
    + unfold storeInv. destruct s; cbn in *.
      repeat split; try assumption; lia.
    + unfold storeInv. destruct s; cbn in *. repeat split; assumption.
    + unfold storeInv. destruct s; cbn in *. repeat split; assumption.
    + unfold storeInv. destruct s; cbn in *. repeat split; assumption.
    + cbn [applyPowerUp].
      pose proof (speedMultiplierValue_recompute now
                    (setSlowUntil (Z.max (slowUntil s) (now + 5200)) s)) as R.
      revert R. unfold storeInv, recomputeSpeedMultiplier.
      destruct s; cbn in *. intro R. repeat split; assumption.
    + cbn [applyPowerUp].
      pose proof (speedMultiplierValue_recompute now
                    (setBoostUntil (Z.max (boostUntil s) (now + 4200)) s)) as R.
      revert R. unfold storeInv, recomputeSpeedMultiplier.
      destruct s; cbn in *. intro R. repeat split; assumption.
  - (* timer: recompute *)
    intros ((Hs1 & Hs2) & (Hnd & Hlen) & Hl & Hm).
    pose proof (speedMultiplierValue_recompute now s) as R.
    revert R. unfold storeInv, recomputeSpeedMultiplier.
    destruct s; cbn in *. intro R. repeat split; assumption.
Qed.

Lemma reachable_storeInv (s : GameState) : reachable s -> storeInv s.
Proof.
  induction 1 as [|a s _ IH].
  - unfold storeInv. cbn. repeat split; try lia; try constructor.
    vm_compute. auto.
  - now apply act_storeInv.
Qed.

(** X3.  In every state the store can reach the shield holds between 0
    and 2 charges. *)
Theorem reachable_shield_bounds (s : GameState) :
  reachable s -> 0 <= shieldCharges s <= 2.
Proof. intro H. apply (reachable_storeInv s H). Qed.

Lemma reachable_shield_bounds_witness :
  let s := applyPowerUp SHIELD 30
             (applyPowerUp SHIELD 20
                (applyPowerUp SHIELD 10 (startGame initial))) in
  shieldCharges s = 2 /\ 0 <= shieldCharges s <= 2.
Proof.
  split; [reflexivity|].
  apply (reachable_shield_bounds
           (applyPowerUp SHIELD 30
              (applyPowerUp SHIELD 20
                 (applyPowerUp SHIELD 10 (startGame initial))))).
  apply (reach_act (AApplyPowerUp SHIELD 30)).
  apply (reach_act (AApplyPowerUp SHIELD 20)).
  apply (reach_act (AApplyPowerUp SHIELD 10)).
  apply (reach_act AStartGame), reach_initial.
Defined.

Lemma reachable_collectLetters (l : list Z) : forall s,
  reachable s -> reachable (fst (collectLetters l s)).
Proof.
  induction l as [|i l IH]; intros s H; [exact H|].
  simpl. pose proof (reach_act (ACollectLetter i) s H) as H1. cbn [act] in H1.
  destruct (collectLetter i s) as [s1 t1]. cbn [fst] in H1.
  specialize (IH s1 H1).
  destruct (collectLetters l s1) as [s2 t2]. exact IH.
Qed.

(** X4.  In every state the store can reach the collected letters hold no
    index twice and at most five entries: the sixth letter of a word
    clears the list at once. *)
Theorem reachable_letters_wellformed (s : GameState) :
  reachable s ->
  NoDup (collectedLetters s) /\ (List.length (collectedLetters s) <= 5)%nat.
Proof. intro H. apply (reachable_storeInv s H). Qed.

Lemma reachable_letters_wellformed_witness :
  collectedLetters (fst (collectLetter 5 fiveLetters)) = [] /\
  NoDup (collectedLetters fiveLetters) /\
  (List.length (collectedLetters fiveLetters) <= 5)%nat.
Proof.
  split; [reflexivity|].
  apply (reachable_letters_wellformed fiveLetters).
  apply reachable_collectLetters.
  apply (reach_act AStartGame), reach_initial.
Defined.

Lemma set1_laneCount (s : GameState) (fld : Field) :
  laneCount (set1 s fld) =
    match fld with LaneCount v => v | _ => laneCount s end.
Proof. destruct s, fld; reflexivity. Qed.

Lemma collectLetter_laneCount (i : Z) (s : GameState) :
  laneCount (fst (collectLetter i s)) = laneCount s \/
  laneCount (fst (collectLetter i s)) = Z.min (laneCount s + 2) 9.
Proof.
  unfold collectLetter.
  repeat match goal with
         | |- context [match ?b with _ => _ end] => destruct b
         end; destruct s; first [left; reflexivity | right; reflexivity].
Qed.

(** X5.  The lane count.  In every state the store can reach it is 3, 5,
    7 or 9.  It starts at 3; starting or restarting a game sets it to 3;
    [advanceLevel] sets it to min(laneCount + 2, 9), so after k levels of
    a new game it is min(3 + 2k, 9); and every action either keeps it,
    resets it to 3, or adds two lanes up to nine. *)
Theorem reachable_laneCount (s : GameState) :
  reachable s ->
  (laneCount s = 3 \/ laneCount s = 5 \/ laneCount s = 7 \/ laneCount s = 9) /\
  laneCount initial = 3 /\
  laneCount (startGame s) = 3 /\
  laneCount (restartGame s) = 3 /\
  laneCount (advanceLevel s) = Z.min (laneCount s + 2) 9 /\
  (forall k : nat,
      laneCount (Nat.iter k advanceLevel (startGame s)) =
        Z.min (3 + 2 * Z.of_nat k) 9) /\
  (forall a,
      laneCount (act a s) = laneCount s \/
      laneCount (act a s) = 3 \/
      laneCount (act a s) = Z.min (laneCount s + 2) 9).
Proof.
  intro H.
  split; [apply (reachable_storeInv s H)|].
  split; [reflexivity|].
  assert (Hs : laneCount (startGame s) = 3) by (destruct s; reflexivity).
  assert (Ha : forall x, laneCount (advanceLevel x) = Z.min (laneCount x + 2) 9)
    by (intro x; destruct x; reflexivity).
  split; [exact Hs|].
  split; [destruct s; reflexivity|].
  split; [apply Ha|].
  split.
  - induction k as [|k IH]; [exact Hs|].
    change (Nat.iter (S k) advanceLevel (startGame s))
      with (advanceLevel (Nat.iter k advanceLevel (startGame s))).
    rewrite Ha, IH. lia.
  - intro a.
    destruct a as [ | | | n | v | d | v | i | | | | t c | | p now | v | |
                    | | | | now ];
      cbn [act];
      try solve [left; destruct s; reflexivity];
      try solve [right; left; destruct s; reflexivity];
      try solve [right; right; apply Ha];
      try solve [destruct (collectLetter_laneCount i s); auto];
      left;
      unfold takeDamage, buyItem, activateImmortality, applyPowerUp,
        recomputeSpeedMultiplier;
      try destruct t; try destruct p;
      repeat match goal with
             | |- context [if ?b then _ else _] => destruct b
             end; destruct s; reflexivity.
Qed.

(** From a new game: 3 lanes, then 5, 7, 9, and 9 from then on. *)
Lemma reachable_laneCount_witness :
  let s := startGame initial in
  map (fun k => laneCount (Nat.iter k advanceLevel s)) (seq 0 6)
    = [3; 5; 7; 9; 9; 9] /\
  laneCount (advanceLevel (advanceLevel s)) = Z.min (5 + 2) 9.
Proof.
  destruct (reachable_laneCount (advanceLevel (startGame initial)))
    as (_ & _ & _ & _ & A & _).
  - apply (reach_act AAdvanceLevel), (reach_act AStartGame), reach_initial.
  - split; [reflexivity | exact A].
Defined.

(** X6.  In every state the store can reach the speed multiplier is 1,
    0.75 (slow), 1.25 (boost) or 0.9375 (both), so it stays within
    [0.75, 1.25] and the clamp to [0.55, 1.45] never cuts it. *)
Theorem reachable_speedMultiplier (s : GameState) :
  reachable s ->
  speedMultiplierValue (speedMultiplier s) /\
  (3 # 4 <= speedMultiplier s <= 5 # 4)%Q.
Proof.
  intro H. destruct (reachable_storeInv s H) as (_ & _ & _ & Hm).
  split; [assumption|].
  destruct Hm as [E | [E | [E | E]]]; rewrite E; split; discriminate.
Qed.

Lemma reachable_speedMultiplier_witness :
  let s := applyPowerUp BOOST 1000 (applyPowerUp SLOW 0 (startGame initial)) in
  (speedMultiplier s == 15 # 16)%Q /\
  speedMultiplierValue (speedMultiplier s) /\
  (3 # 4 <= speedMultiplier s <= 5 # 4)%Q.
Proof.
  split; [reflexivity|].
  apply (reachable_speedMultiplier
           (applyPowerUp BOOST 1000 (applyPowerUp SLOW 0 (startGame initial)))).
  apply (reach_act (AApplyPowerUp BOOST 1000)),
        (reach_act (AApplyPowerUp SLOW 0)),
        (reach_act AStartGame), reach_initial.
Defined.

(** The multiplier computed at time [t], by the state of the two
    windows. *)
Lemma recompute_value (t : Z) (s : GameState) :
  (speedMultiplier (recomputeSpeedMultiplier t s) ==
   if t <? slowUntil s
   then (if t <? boostUntil s then 15 # 16 else 3 # 4)
   else (if t <? boostUntil s then 5 # 4 else 1))%Q.
Proof.
  unfold recomputeSpeedMultiplier.
  destruct s; cbn [slowUntil boostUntil set fold_left set1 speedMultiplier].
  destruct (t <? boostUntil0), (t <? slowUntil0); reflexivity.
Qed.

Lemma applyPowerUp_slow_fields (now : Z) (s : GameState) :
  slowUntil (applyPowerUp SLOW now s) = Z.max (slowUntil s) (now + 5200) /\
  boostUntil (applyPowerUp SLOW now s) = boostUntil s.
Proof. destruct s; cbn. auto. Qed.

Lemma recompute_keeps_windows (t : Z) (s : GameState) :
  slowUntil (recomputeSpeedMultiplier t s) = slowUntil s /\
  boostUntil (recomputeSpeedMultiplier t s) = boostUntil s.
Proof. destruct s; cbn. auto. Qed.

(** X7.  With the power-up kinds as [Types.PowerUpType] models them
    (SLOW a kind of its own, as [applyPowerUp] names it): a SLOW pickup
    at time [now] slows the run for at least 5200 ms and never shortens
    a slow window that is still open: the pickup sets the multiplier
    below 1, every recomputation at a time t in [now, now + 5200) gives
    a multiplier below 1, and a recomputation after both windows have
    closed gives 1 again. *)
Theorem slow_pickup_window (s : GameState) (now t : Z) :
  now <= t < now + 5200 ->
  slowUntil s <= slowUntil (applyPowerUp SLOW now s) /\
  (speedMultiplier (applyPowerUp SLOW now s) < 1)%Q /\
  (speedMultiplier (recomputeSpeedMultiplier t (applyPowerUp SLOW now s)) < 1)%Q /\
  (forall t', slowUntil (applyPowerUp SLOW now s) <= t' ->
              boostUntil s <= t' ->
              (speedMultiplier
                 (recomputeSpeedMultiplier t' (applyPowerUp SLOW now s)) == 1)%Q).
Proof.
  intros Ht.
  destruct (applyPowerUp_slow_fields now s) as [Es Eb].
  assert (R : forall u, u < now + 5200 ->
                        (speedMultiplier
                           (recomputeSpeedMultiplier u
                              (setSlowUntil (Z.max (slowUntil s) (now + 5200)) s))
                         < 1)%Q).
  { intros u Hu. rewrite recompute_value.
    assert (Es' : slowUntil (setSlowUntil (Z.max (slowUntil s) (now + 5200)) s)
                  = Z.max (slowUntil s) (now + 5200)) by (destruct s; reflexivity).
    rewrite Es'.
    destruct (Z.ltb_spec u (Z.max (slowUntil s) (now + 5200))); [|lia].
    destruct (u <? _); reflexivity. }
  repeat split.
  - rewrite Es. lia.
  - apply (R now). lia.
  - destruct (recompute_keeps_windows now
                (setSlowUntil (Z.max (slowUntil s) (now + 5200)) s)) as [Ks Kb].
    assert (Es' : slowUntil (setSlowUntil (Z.max (slowUntil s) (now + 5200)) s)
                  = Z.max (slowUntil s) (now + 5200)) by (destruct s; reflexivity).
    rewrite recompute_value. cbn [applyPowerUp]. rewrite Ks, Es'.
    destruct (Z.ltb_spec t (Z.max (slowUntil s) (now + 5200))); [|lia].
    destruct (t <? _); reflexivity.
  - intros t' H1 H2. rewrite recompute_value, Eb.
    destruct (Z.ltb_spec t' (slowUntil (applyPowerUp SLOW now s))); [lia|].
    destruct (Z.ltb_spec t' (boostUntil s)); [lia|]. reflexivity.
Qed.

Lemma slow_pickup_window_witness :
  let s := startGame initial in
  slowUntil s <= slowUntil (applyPowerUp SLOW 1000 s) /\
  (speedMultiplier (applyPowerUp SLOW 1000 s) < 1)%Q /\
  (speedMultiplier (recomputeSpeedMultiplier 6199 (applyPowerUp SLOW 1000 s)) < 1)%Q /\
  (forall t', slowUntil (applyPowerUp SLOW 1000 s) <= t' ->
              boostUntil s <= t' ->
              (speedMultiplier
                 (recomputeSpeedMultiplier t' (applyPowerUp SLOW 1000 s)) == 1)%Q).
Proof.
  apply (slow_pickup_window (startGame initial) 1000 6199). lia.
Defined.

(** X8.  With the power-up kinds as [Types.PowerUpType] models them
    (SLOW and BOOST kinds of their own, as [applyPowerUp] names them):
    starting a new game resets the multiplier to 1 but leaves the slow
    window of [speedEffect] open: a BOOST picked up in the new run
    before the old slow window has closed gives 0.9375, not 1.25. *)
Theorem startGame_keeps_slow_window (s : GameState) (now t : Z) :
  t < now + 5200 ->
  (speedMultiplier (startGame (applyPowerUp SLOW now s)) == 1)%Q /\
  slowUntil (startGame (applyPowerUp SLOW now s))
    = Z.max (slowUntil s) (now + 5200) /\
  (speedMultiplier
     (applyPowerUp BOOST t (startGame (applyPowerUp SLOW now s))) == 15 # 16)%Q.
Proof.
  intro Ht.
  assert (E : slowUntil (startGame (applyPowerUp SLOW now s))
              = Z.max (slowUntil s) (now + 5200)) by (destruct s; reflexivity).
  split; [destruct s; reflexivity|]. split; [exact E|].
  set (g := startGame (applyPowerUp SLOW now s)) in *.
  change (applyPowerUp BOOST t g)
    with (recomputeSpeedMultiplier t
            (setBoostUntil (Z.max (boostUntil g) (t + 4200)) g)).
  rewrite recompute_value.
  assert (E1 : slowUntil (setBoostUntil (Z.max (boostUntil g) (t + 4200)) g)
               = slowUntil g) by (destruct g; reflexivity).
  assert (E2 : boostUntil (setBoostUntil (Z.max (boostUntil g) (t + 4200)) g)
               = Z.max (boostUntil g) (t + 4200)) by (destruct g; reflexivity).
  rewrite E1, E2, E.
  destruct (Z.ltb_spec t (Z.max (slowUntil s) (now + 5200))); [|lia].
  destruct (Z.ltb_spec t (Z.max (boostUntil g) (t + 4200))); [|lia].
  reflexivity.
Qed.

Lemma startGame_keeps_slow_window_witness :
  let s := startGame initial in
  (speedMultiplier (startGame (applyPowerUp SLOW 1000 s)) == 1)%Q /\
  slowUntil (startGame (applyPowerUp SLOW 1000 s))
    = Z.max (slowUntil s) (1000 + 5200) /\
  (speedMultiplier
     (applyPowerUp BOOST 3000 (startGame (applyPowerUp SLOW 1000 s))) == 15 # 16)%Q.
Proof.
  apply (startGame_keeps_slow_window (startGame initial) 1000 3000). lia.
Defined.

(** X9.  The outcome of [buyItem].  A refused purchase leaves the state
    as it was; an accepted one takes exactly the cost and never
    overdraws the score; no purchase lowers lives or maxLives of a state
    with lives <= maxLives; and a HEAL at full health is accepted and
    paid for although it restores nothing. *)
Theorem buyItem_outcome (s : GameState) (type : ItemType) (cost : Z) :
  0 <= score s ->
  (fst (buyItem type cost s) = false -> snd (buyItem type cost s) = s) /\
  (fst (buyItem type cost s) = true ->
     cost <= score s /\
     score (snd (buyItem type cost s)) = score s - cost /\
     0 <= score (snd (buyItem type cost s))) /\
  (lives s <= maxLives s ->
     lives s <= lives (snd (buyItem type cost s)) /\
     maxLives s <= maxLives (snd (buyItem type cost s))) /\
  (lives s = maxLives s -> cost <= score s ->
     fst (buyItem HEAL cost s) = true /\
     lives (snd (buyItem HEAL cost s)) = lives s /\
     score (snd (buyItem HEAL cost s)) = score s - cost).
Proof.
  intro H0. unfold buyItem. destruct s; cbn in *.
  destruct type; cbn;
    repeat match goal with
           | |- context [?a <=? ?b] => destruct (Z.leb_spec a b)
           end; cbn;
    intuition (try discriminate; try reflexivity; try lia).
Qed.

Lemma buyItem_outcome_witness :
  let s := addScore 1200 (startGame initial) in
  fst (buyItem HEAL 1000 s) = true /\
  lives (snd (buyItem HEAL 1000 s)) = 6 /\
  score (snd (buyItem HEAL 1000 s)) = 200 /\
  snd (buyItem MAX_LIFE 1000 s) = s.
Proof.
  assert (H0 : 0 <= score (addScore 1200 (startGame initial))) by (cbn; lia).
  destruct (buyItem_outcome (addScore 1200 (startGame initial)) HEAL 1000 H0)
    as (_ & _ & _ & H).
  destruct (H eq_refl ltac:(cbn; lia)) as (A & B & C).
  destruct (buyItem_outcome (addScore 1200 (startGame initial)) MAX_LIFE 1000 H0)
    as (F & _).
  exact (conj A (conj B (conj C (F eq_refl)))).
Defined.

End StoreMore.

(** ** The store with timed buffs *)

Module BuffFacts.
Import StoreBuffs.

(** The duration [applyBuff] uses. *)
Lemma applyBuff_until (buff : BuffType) (d : option Z) (now : Z) (s : GameState) :
  let until := now + match d with Some v => v | None => BUFF_DEFAULTS buff end in
  match buff with
  | REVERSE => buffReverseUntil (applyBuff buff d now s) = until
  | MAGNET => buffMagnetUntil (applyBuff buff d now s) = until
  | SPEED => buffSpeedUntil (applyBuff buff d now s) = until
  | SCORE_X2 => buffScoreX2Until (applyBuff buff d now s) = until
  end.
Proof. destruct buff, s; reflexivity. Qed.

(** X10.  [applyBuff] and [isBuffActive] round trip.  After a buff is
    applied at time [now] with duration d (the default of its kind when
    none is given), it reads active at time t exactly when
    t < now + d, whatever its expiry was before (so a shorter duration
    shortens a running buff, and a duration of 0 or less switches it
    off); the other buffs read as before. *)
Theorem applyBuff_isBuffActive
        (buff other : BuffType) (d : option Z) (now t : Z) (s : GameState) :
  other <> buff ->
  isBuffActive t buff (applyBuff buff d now s) =
    (t <? now + match d with Some v => v | None => BUFF_DEFAULTS buff end) /\
  isBuffActive t other (applyBuff buff d now s) = isBuffActive t other s.
Proof.
  intro Hne. destruct s; destruct buff, other; try congruence; cbn; auto.
Qed.

Lemma applyBuff_isBuffActive_witness :
  let s := applyBuff MAGNET None 1000 (startGame initial) in
  isBuffActive 10999 MAGNET s = true /\
  isBuffActive 11000 MAGNET s = false /\
  isBuffActive 2000 MAGNET (applyBuff MAGNET (Some 500) 1200 s) = false /\
  isBuffActive 2000 REVERSE (applyBuff MAGNET (Some 500) 1200 s)
    = isBuffActive 2000 REVERSE s.
Proof.
  split; [reflexivity|]. split; [reflexivity|].
  assert (Hne : REVERSE <> MAGNET) by discriminate.
  destruct (applyBuff_isBuffActive MAGNET REVERSE (Some 500) 1200 2000
              (applyBuff MAGNET None 1000 (startGame initial)) Hne) as [A B].
  exact (conj A B).
Defined.

(** X11.  Victory and the endless mode.  In the campaign at level 3 or
    above with five letters collected, a sixth new letter gives the
    status Victory, offers the endless mode and adds 5000 points, with
    the speed raised by 2.25 and not stopped; [continueEndless] then
    resumes play in the endless mode with no letters and a speed of at
    least 45, and from then on [collectLetter] changes nothing. *)
Theorem victory_then_endless (s : GameState) (i j : Z) :
  isEndlessMode s = false ->
  MAX_LEVEL <= level s ->
  includes (collectedLetters s) i = false ->
  List.length (collectedLetters s) = 5%nat ->
  let v := collectLetter i s in
  let e := continueEndless v in
  status v = VICTORY /\ canContinueEndless v = true /\
  score v = score s + 5000 /\
  speed v = (speed s + RUN_SPEED_BASE * (1 # 10))%Q /\
  status e = PLAYING /\ isEndlessMode e = true /\
  canContinueEndless e = false /\ collectedLetters e = [] /\
  (45 <= speed e)%Q /\ (speed v <= speed e)%Q /\
  collectLetter j e = e.
Proof.
  intros He Hl Hi Hlen v e.
  assert (Hv : v = set [ Status VICTORY;
                         Score (score s + 5000);
                         CanContinueEndless true ]
                       (set [ CollectedLetters (collectedLetters s ++ [i]);
                              Speed (speed s + RUN_SPEED_BASE * (1 # 10))%Q ] s)).
  { subst v. unfold collectLetter. rewrite He, Hi. cbn [negb].
    rewrite length_app, Hlen. cbn [List.length Nat.add GEMINI_TARGET Z.eqb Z.of_nat
                                   Pos.of_succ_nat Pos.succ Pos.eqb].
    destruct (Z.ltb_spec (level s) MAX_LEVEL); [lia|].
    destruct s; reflexivity. }
  subst e. rewrite Hv. clear Hv v.
  destruct s; cbn in *. subst.
  repeat split; try reflexivity.
  - apply Qle_trans with (RUN_SPEED_BASE * 2)%Q;
      [discriminate | apply Q.le_max_r].
  - apply Q.le_max_l.
Qed.

Lemma victory_then_endless_witness :
  let v := collectLetter 5 lastLetterMissing in
  let e := continueEndless v in
  status v = VICTORY /\ canContinueEndless v = true /\
  score v = score lastLetterMissing + 5000 /\
  speed v = (speed lastLetterMissing + RUN_SPEED_BASE * (1 # 10))%Q /\
  status e = PLAYING /\ isEndlessMode e = true /\
  canContinueEndless e = false /\ collectedLetters e = [] /\
  (45 <= speed e)%Q /\ (speed v <= speed e)%Q /\
  collectLetter 2 e = e.
Proof.
  apply (victory_then_endless lastLetterMissing 5 2);
    [reflexivity | cbn; unfold MAX_LEVEL; lia | reflexivity | reflexivity].
Defined.

(** X12.  Gems under the double-score buff.  After SCORE_X2 is applied
    at time [now] with its default duration, a gem collected at a time
    before now + 12000 adds twice its value to the score, and a gem
    collected at now + 12000 or later adds its value once; either way
    the gem counter goes up by one. *)
Theorem collectGem_double_window
        (s : GameState) (value now t : Z) :
  let b := applyBuff SCORE_X2 None now s in
  score (collectGem value t b) =
    score s + (if t <? now + 12000 then 2 * value else value) /\
  gemsCollected (collectGem value t b) = gemsCollected s + 1.
Proof.
  intros b. subst b. unfold collectGem.
  destruct s; cbn -[Z.mul]. unfold isActive.
  destruct (t <? now + 12000); split; lia.
Qed.

Lemma collectGem_double_window_witness :
  let b := applyBuff SCORE_X2 None 1000 (startGame initial) in
  score (collectGem 50 12999 b) = 100 /\
  score (collectGem 50 13000 b) = 50 /\
  gemsCollected (collectGem 50 13000 b) = 1.
Proof.
  destruct (collectGem_double_window (startGame initial) 50 1000 12999)
    as [A _].
  destruct (collectGem_double_window (startGame initial) 50 1000 13000)
    as [B C].
  exact (conj A (conj B C)).
Defined.



End BuffFacts.

(** ** The level manager: what the loop body does to each kind *)

Module LevelMore.
Import LevelManager.

Lemma alienFire_inactive (o : GameObject) :
  active o = false -> alienFire o = (o, [], []).
Proof.
  intro H. unfold alienFire. rewrite H. now destruct (type o).
Qed.

(** X14.  Inactive objects are inert.  An object whose active flag is
    off is only moved: it emits no event, spawns nothing, stays
    inactive, and is kept in the registry until its moved position is
    beyond 20. *)
Theorem inactive_object_inert (f : Frame) (o : GameObject) :
  active o = false ->
  stepObject f o =
    mkOutcome (setPosZ (posZ o + moveAmount f o) o)
              (negb (Qgtb (posZ o + moveAmount f o) REMOVE_DISTANCE))
              [] []
              (Qgtb (posZ o + moveAmount f o) REMOVE_DISTANCE).
Proof.
  intro H. unfold stepObject.
  assert (H1 : active (setPosZ (posZ o + moveAmount f o) o) = false) by exact H.
  assert (M : magnetPull f (setPosZ (posZ o + moveAmount f o) o)
              = setPosZ (posZ o + moveAmount f o) o).
  { unfold magnetPull. rewrite H1. now rewrite andb_false_r. }
  rewrite M, (alienFire_inactive _ H1), H1. reflexivity.
Qed.

Lemma inactive_object_inert_witness :
  let o := object (stepObject frame25 obstacleAtMinus2) in
  active o = false /\
  events (stepObject frame25 o) = [] /\
  newSpawns (stepObject frame25 o) = [] /\
  keep (stepObject frame25 o) = true.
Proof.
  assert (H : active (object (stepObject frame25 obstacleAtMinus2)) = false)
    by reflexivity.
  pose proof (inactive_object_inert frame25 _ H) as E.
  split; [exact H|].
  rewrite E. repeat split.
Defined.

(** X15.  The shop portal.  An active portal opens the shop exactly when
    its moved position is less than 2 from the player's z, wherever the
    player is sideways or in height; it is then deactivated and dropped
    from the registry, and otherwise left active without any event.  It
    never counts as a hit. *)
Theorem portal_opens_shop (f : Frame) (o : GameObject) :
  type o = SHOP_PORTAL ->
  active o = true ->
  let z' := (posZ o + dist f)%Q in
  let near := Qltb (Qabs (z' - playerZ f)) 2 in
  events (stepObject f o) = (if near then [OpenShop] else []) /\
  active (object (stepObject f o)) = negb near /\
  keep (stepObject f o) = negb near && negb (Qgtb z' REMOVE_DISTANCE) /\
  newSpawns (stepObject f o) = [].
Proof.
  intros Ht Ha z' near. subst z' near.
  assert (Hm : moveAmount f o = dist f)
    by (unfold moveAmount; now rewrite Ht).
  unfold stepObject. rewrite Hm.
  set (o1 := setPosZ (posZ o + dist f) o).
  assert (Ht1 : type o1 = SHOP_PORTAL) by exact Ht.
  assert (Ha1 : active o1 = true) by exact Ha.
  rewrite (LevelFacts.magnetPull_not_pickup f o1)
    by (rewrite Ht1; reflexivity).
  assert (A : alienFire o1 = (o1, [], []))
    by (unfold alienFire; now rewrite Ht1).
  rewrite A, Ha1.
  unfold collide. rewrite Ht1.
  change (posZ o1) with (posZ o + dist f)%Q.
  destruct (Qltb (Qabs (posZ o + dist f - playerZ f)) 2);
    cbn; repeat split; exact Ha.
Qed.

Lemma portal_opens_shop_witness :
  let o := mkObject SHOP_PORTAL 0 0 (-3) true None None None None false None in
  let f := mkFrame (5 # 100) 2 false (44 # 10) 3 0 in
  events (stepObject f o) = [OpenShop] /\
  active (object (stepObject f o)) = false /\
  keep (stepObject f o) = false.
Proof.
  destruct (portal_opens_shop
              (mkFrame (5 # 100) 2 false (44 # 10) 3 0)
              (mkObject SHOP_PORTAL 0 0 (-3) true None None None None false None)
              eq_refl eq_refl) as (A & B & C & _).
  exact (conj A (conj B C)).
Defined.

(** X16.  The magnet does not touch what is not a pickup: for an
    obstacle, alien, missile or portal the loop body gives the same
    outcome whatever the magnet flag of the frame. *)
Theorem magnet_spares_non_pickups (f : Frame) (b : bool) (o : GameObject) :
  isPickup (type o) = false ->
  stepObject (withMagnet b f) o = stepObject f o.
Proof.
  intro Hp. unfold stepObject.
  assert (Hm : moveAmount (withMagnet b f) o = moveAmount f o) by reflexivity.
  rewrite Hm.
  rewrite !LevelFacts.magnetPull_not_pickup by exact Hp.
  destruct (alienFire (setPosZ (posZ o + moveAmount f o) o)) as [[o3 ms] ev1] eqn:E.
  assert (Ht : type o3 = type o).
  { pose proof (LevelFacts.alienFire_keeps (setPosZ (posZ o + moveAmount f o) o)) as K.
    rewrite E in K. destruct K as (K & _). exact K. }
  assert (C : collide (withMagnet b f) (posZ o) o3 = collide f (posZ o) o3).
  { unfold collide, dxThreshold, inZZone, isHit. cbn [withMagnet playerX playerY playerZ isMagnetActive].
    rewrite Ht. destruct (type o); try discriminate; reflexivity. }
  now rewrite C.
Qed.

Lemma magnet_spares_non_pickups_witness :
  stepObject (withMagnet true frame25) obstacleAtMinus2
  = stepObject frame25 obstacleAtMinus2.
Proof.
  apply (magnet_spares_non_pickups frame25 true obstacleAtMinus2).
  reflexivity.
Defined.

(** The collision block on a damage source, by its three tests. *)
Lemma collide_damage (f : Frame) (prevZ : Q) (o : GameObject) :
  isDamageSource (type o) = true ->
  collide f prevZ o =
    if inZZone f prevZ o && Qltb (Qabs (posX o - playerX f)) (9 # 10)
       && isHit f o
    then (setActive false o, true,
          PlayerHit ::
          (if isMissile (type o)
           then [ParticleBurst (posX o) (posY o) (posZ o) "#ff4400"]
           else []),
          true)
    else (o, true, [], false).
Proof.
  intro Hd. unfold collide, dxThreshold. rewrite Hd.
  destruct (type o); try discriminate;
    destruct (inZZone f prevZ o), (Qltb _ _), (isHit f o); reflexivity.
Qed.

(** X17.  No hit out of reach.  An active obstacle, alien or missile
    emits no player hit and stays active when it is 0.9 or more to the
    side, or wholly above or below the player, or when its path misses
    the z band of the player. *)
Theorem no_hit_out_of_reach (f : Frame) (o : GameObject) :
  active o = true ->
  isDamageSource (type o) = true ->
  ((9 # 10 <= Qabs (posX o - playerX f)) \/
   (objTop o <= playerY f) \/
   (playerY f + (18 # 10) <= objBottom o) \/
   (playerZ f + 2 <= posZ o) \/
   (posZ o + moveAmount f o <= playerZ f - 2))%Q ->
  LevelManager.playerHits (events (stepObject f o)) = 0%nat /\
  active (object (stepObject f o)) = true.
Proof.
  intros Ha Hd Hmiss.
  assert (Hnp : isPickup (type o) = false)
    by (destruct (type o); try discriminate; reflexivity).
  unfold stepObject.
  rewrite (LevelFacts.magnetPull_not_pickup
             f (setPosZ (posZ o + moveAmount f o) o) Hnp).
  pose proof (LevelFacts.alienFire_keeps (setPosZ (posZ o + moveAmount f o) o)) as K.
  destruct (alienFire (setPosZ (posZ o + moveAmount f o) o)) as [[o3 ms] ev1].
  cbn [type posX posY posZ active setPosZ] in K.
  destruct K as (Kt & Kx & Ky & Kz & Ka & Kev).
  rewrite Ka, Ha.
  assert (Etop : objTop o3 = objTop o)
    by (unfold objTop; now rewrite Kt, Ky).
  assert (Ebot : objBottom o3 = objBottom o)
    by (unfold objBottom; now rewrite Kt, Ky).
  assert (C : collide f (posZ o) o3 = (o3, true, [], false)).
  { rewrite collide_damage by (now rewrite Kt).
    replace (inZZone f (posZ o) o3 &&
             Qltb (Qabs (posX o3 - playerX f)) (9 # 10) && isHit f o3)
      with false; [reflexivity|].
    symmetry. unfold inZZone, isHit. rewrite Kx, Kz, Etop, Ebot.
    destruct Hmiss as [H | [H | [H | [H | H]]]].
    - apply Qltb_ge in H. rewrite H. now rewrite andb_false_r.
    - apply Qltb_ge in H. rewrite H. now rewrite andb_false_r.
    - apply Qgtb_le in H. rewrite H. now rewrite !andb_false_r.
    - apply Qltb_ge in H. rewrite H. reflexivity.
    - apply Qgtb_le in H. rewrite H. now rewrite andb_false_r. }
  rewrite C. cbn [events object].
  rewrite LevelFacts.playerHits_app, Kev. split; [reflexivity | congruence].
Qed.

Lemma no_hit_out_of_reach_witness :
  let jumping := mkFrame (5 # 100) (25 # 10) false 0 (17 # 10) 0 in
  LevelManager.playerHits (events (stepObject jumping obstacleAtMinus2)) = 0%nat /\
  active (object (stepObject jumping obstacleAtMinus2)) = true.
Proof.
  apply (no_hit_out_of_reach
           (mkFrame (5 # 100) (25 # 10) false 0 (17 # 10) 0) obstacleAtMinus2);
    [reflexivity | reflexivity |].
  right. left. cbn. discriminate.
Defined.

(** X18.  Pickups.  An active gem, letter or power-up whose path crosses
    the z band of the player, whose position after the magnet pull is
    within the lateral reach (0.9, or 2.1 under the magnet) and within
    2.8 in height, is collected: it is deactivated, spawns nothing, and
    its events are its store call followed by one particle burst at its
    pulled position in its own colour (white when it has none), with no
    player hit.  The store call is [collectGem] with the gem's points,
    or 50 when it has none; [collectLetter] with the letter's index;
    [applyPowerUp] with the power-up's kind.  A letter without an index
    and a power-up without a kind issue no store call, only the
    burst. *)
Theorem pickup_collected (f : Frame) (o : GameObject) :
  active o = true ->
  isPickup (type o) = true ->
  let o2 := magnetPull f (setPosZ (posZ o + dist f) o) in
  (posZ o < playerZ f + 2)%Q ->
  (posZ o + dist f > playerZ f - 2)%Q ->
  (Qabs (posX o2 - playerX f) <
     (if isMagnetActive f then 21 # 10 else 9 # 10))%Q ->
  (Qabs (posY o - playerY f) < 28 # 10)%Q ->
  let burst := ParticleBurst (posX o2) (posY o) (posZ o + dist f)
                             (orString (color o) "#ffffff") in
  events (stepObject f o) =
    match type o with
    | GEM => [ CollectGem (orZ (points o) 50); burst ]
    | LETTER =>
      match targetIndex o with
      | Some i => [ CollectLetter i; burst ]
      | None => [ burst ]
      end
    | POWERUP =>
      match powerUpType o with
      | Some p => [ ApplyPowerUp p; burst ]
      | None => [ burst ]
      end
    | _ => [ burst ]
    end /\
  playerHits (events (stepObject f o)) = 0%nat /\
  active (object (stepObject f o)) = false /\
  newSpawns (stepObject f o) = [].
Proof.
  intros Ha Hp o2 Hz1 Hz2 Hx Hy burst.
  assert (Hm : moveAmount f o = dist f).
  { unfold moveAmount. destruct (type o); try discriminate; reflexivity. }
  assert (K : type o2 = type o /\ posY o2 = posY o /\
              posZ o2 = (posZ o + dist f)%Q /\ active o2 = true /\
              color o2 = color o /\ points o2 = points o /\
              targetIndex o2 = targetIndex o /\
              powerUpType o2 = powerUpType o).
  { subst o2. unfold magnetPull.
    destruct (_ && _ && _); [destruct (Qltb _ 28)|]; cbn;
      repeat split; assumption. }
  destruct K as (Kt & Ky & Kz & Ka & Kc & Kp & Ki & Ku).
  assert (A : alienFire o2 = (o2, [], [])).
  { unfold alienFire. rewrite Kt. destruct (type o); try discriminate; reflexivity. }
  assert (C : collide f (posZ o) o2 = (setActive false o2, true, collectEvents o2, true)).
  { unfold collide, inZZone, dxThreshold.
    rewrite Kt, Ky, Kz.
    rewrite (proj2 (Qltb_lt _ _) Hz1), (proj2 (Qgtb_gt _ _) Hz2).
    assert (Hd : isDamageSource (type o) = false)
      by (destruct (type o); try discriminate; reflexivity).
    rewrite Hd, (proj2 (Qltb_lt _ _) Hx), (proj2 (Qltb_lt _ _) Hy).
    destruct (type o); try discriminate; reflexivity. }
  assert (E : events (stepObject f o) = collectEvents o2 /\
              active (object (stepObject f o)) = false /\
              newSpawns (stepObject f o) = []).
  { unfold stepObject. rewrite Hm. fold o2. rewrite A, Ka, C. cbn. auto. }
  destruct E as (E1 & E2 & E3).
  assert (G : playerHits (collectEvents o2) = 0%nat).
  { unfold collectEvents.
    destruct (type o2), (targetIndex o2), (powerUpType o2); reflexivity. }
  split; [|split; [now rewrite E1 | split; assumption]].
  rewrite E1. unfold collectEvents. subst burst.
  rewrite Kt, Ky, Kz, Kc, Kp, Ki, Ku.
  destruct (type o); try discriminate;
    destruct (targetIndex o), (powerUpType o); reflexivity.
Qed.

(** In the player's lane, one unit above the ground, at z = -2: a gem
    without points, the letter of index 3, and a magnet power-up. *)
Lemma pickup_collected_witness :
  let gem := mkObject GEM 0 (12 # 10) (-2) true
                      None None (Some "#00ffff"%string) None false None in
  let letter := mkObject LETTER 0 1 (-2) true
                         (Some "I"%string) (Some 3) (Some "#2979ff"%string)
                         None false None in
  let powerUp := mkObject POWERUP 0 (12 # 10) (-2) true
                          None None (Some "#b388ff"%string) None false
                          (Some MAGNET) in
  events (stepObject frame25 gem) =
    [ CollectGem 50;
      ParticleBurst 0 (12 # 10) (-2 + dist frame25) "#00ffff" ] /\
  events (stepObject frame25 letter) =
    [ CollectLetter 3;
      ParticleBurst 0 1 (-2 + dist frame25) "#2979ff" ] /\
  events (stepObject frame25 powerUp) =
    [ ApplyPowerUp MAGNET;
      ParticleBurst 0 (12 # 10) (-2 + dist frame25) "#b388ff" ] /\
  active (object (stepObject frame25 gem)) = false.
Proof.
  destruct (pickup_collected frame25
              (mkObject GEM 0 (12 # 10) (-2) true
                        None None (Some "#00ffff"%string) None false None)
              eq_refl eq_refl eq_refl eq_refl eq_refl eq_refl)
    as (G & _ & A & _).
  destruct (pickup_collected frame25
              (mkObject LETTER 0 1 (-2) true
                        (Some "I"%string) (Some 3) (Some "#2979ff"%string)
                        None false None)
              eq_refl eq_refl eq_refl eq_refl eq_refl eq_refl)
    as (L & _).
  destruct (pickup_collected frame25
              (mkObject POWERUP 0 (12 # 10) (-2) true
                        None None (Some "#b388ff"%string) None false
                        (Some MAGNET))
              eq_refl eq_refl eq_refl eq_refl eq_refl eq_refl)
    as (P & _).
  exact (conj G (conj L (conj P A))).
Defined.

(** X19.  The magnet pull never overshoots.  With a time step between 0
    and 2/7 (every frame has one of at most 0.05), the pull leaves a
    pickup's lateral distance to the player at exactly
    (1 - 3.5 * step) times what it was when it applies (magnet on, the
    object an active pickup less than 28 from the player in z), and
    leaves the object as it is otherwise; so the distance never grows,
    and height, depth, kind and active flag are untouched. *)
Theorem magnet_pull_contracts (f : Frame) (o : GameObject) :
  (0 <= safeDelta f)%Q -> (safeDelta f <= 2 # 7)%Q ->
  (Qabs (posX (magnetPull f o) - playerX f) <= Qabs (posX o - playerX f))%Q /\
  (isMagnetActive f = true -> active o = true -> isPickup (type o) = true ->
   (Qabs (posZ o - playerZ f) < 28)%Q ->
   (Qabs (posX (magnetPull f o) - playerX f) ==
    Qabs (posX o - playerX f) * (1 - (35 # 10) * safeDelta f))%Q) /\
  (isMagnetActive f = false \/ active o = false \/
   isPickup (type o) = false \/ (28 <= Qabs (posZ o - playerZ f))%Q ->
   magnetPull f o = o) /\
  posY (magnetPull f o) = posY o /\ posZ (magnetPull f o) = posZ o /\
  type (magnetPull f o) = type o /\ active (magnetPull f o) = active o /\
  (forall s delta player,
      (0 <= delta)%Q ->
      (0 <= safeDelta (frameOf s delta player) <= 5 # 100)%Q).
Proof.
  intros H0 H1.
  assert (P : (Qabs (posX o + (playerX f - posX o) * safeDelta f * (35 # 10)
                     - playerX f) ==
               Qabs (posX o - playerX f) * (1 - (35 # 10) * safeDelta f))%Q).
  { assert (E : (posX o + (playerX f - posX o) * safeDelta f * (35 # 10)
                 - playerX f ==
                 (posX o - playerX f) * (1 - (35 # 10) * safeDelta f))%Q) by ring.
    rewrite E, Qabs_Qmult.
    rewrite (Qabs_pos (1 - (35 # 10) * safeDelta f)); [reflexivity | lra]. }
  assert (L : (Qabs (posX o - playerX f) * (1 - (35 # 10) * safeDelta f)
               <= Qabs (posX o - playerX f))%Q).
  { pose proof (Qabs_nonneg (posX o - playerX f)) as N.
    set (a := Qabs (posX o - playerX f)) in *. nra. }
  repeat split.
  - unfold magnetPull.
    destruct (_ && _ && _); [destruct (Qltb _ 28)|]; cbn [posX setPosX];
      try apply Qle_refl.
    rewrite P. exact L.
  - intros Hm Ha Hp Hz. unfold magnetPull.
    rewrite Hm, Ha, Hp, (proj2 (Qltb_lt _ _) Hz). cbn [andb posX setPosX].
    exact P.
  - intro Hn. unfold magnetPull.
    destruct Hn as [Hn | [Hn | [Hn | Hn]]].
    + now rewrite Hn.
    + rewrite Hn. now rewrite andb_false_r.
    + rewrite Hn. now rewrite andb_false_r.
    + destruct (_ && _ && _); [|reflexivity].
      now rewrite (proj2 (Qltb_ge _ _) Hn).
  - unfold magnetPull. destruct (_ && _ && _); [destruct (Qltb _ 28)|]; reflexivity.
  - unfold magnetPull. destruct (_ && _ && _); [destruct (Qltb _ 28)|]; reflexivity.
  - unfold magnetPull. destruct (_ && _ && _); [destruct (Qltb _ 28)|]; reflexivity.
  - unfold magnetPull. destruct (_ && _ && _); [destruct (Qltb _ 28)|]; reflexivity.
  - unfold frameOf. destruct player as [[[px py] pz]|]; cbn [safeDelta];
      (apply Q.min_glb; [assumption | discriminate]).
  - unfold frameOf. destruct player as [[[px py] pz]|]; cbn [safeDelta];
      apply Q.le_min_r.
Qed.

Lemma magnet_pull_contracts_witness :
  let f := withMagnet true frame25 in
  let gem := mkObject GEM (22 # 10) (12 # 10) (-10) true
                      None None (Some "#00ffff"%string) None false None in
  (Qabs (posX (magnetPull f gem) - playerX f) <= Qabs (posX gem - playerX f))%Q /\
  (Qabs (posX (magnetPull f gem) - playerX f) ==
   Qabs (posX gem - playerX f) * (1 - (35 # 10) * safeDelta f))%Q /\
  (posX (magnetPull f gem) == 1815 # 1000)%Q /\
  magnetPull frame25 gem = gem /\
  magnetPull f (setPosZ (-28) gem) = setPosZ (-28) gem.
Proof.
  destruct (magnet_pull_contracts
              (withMagnet true frame25)
              (mkObject GEM (22 # 10) (12 # 10) (-10) true
                        None None (Some "#00ffff"%string) None false None))
    as (A & B & _); try discriminate.
  destruct (magnet_pull_contracts
              frame25
              (mkObject GEM (22 # 10) (12 # 10) (-10) true
                        None None (Some "#00ffff"%string) None false None))
    as (_ & _ & C & _); try discriminate.
  destruct (magnet_pull_contracts
              (withMagnet true frame25)
              (setPosZ (-28)
                 (mkObject GEM (22 # 10) (12 # 10) (-10) true
                           None None (Some "#00ffff"%string) None false None)))
    as (_ & _ & D & _); try discriminate.
  split; [exact A|]. split; [apply B; reflexivity|].
  split; [reflexivity|]. split.
  - apply C. left. reflexivity.
  - apply D. right. right. right. discriminate.
Defined.

(** One step of the loop, read off its change flag and its keep flag. *)
Lemma stepObject_flags (f : Frame) (o : GameObject) :
  (keep (stepObject f o) = true ->
   (posZ (object (stepObject f o)) <= REMOVE_DISTANCE)%Q) /\
  (hasChanges (stepObject f o) = false ->
   keep (stepObject f o) = true /\ newSpawns (stepObject f o) = [] /\
   events (stepObject f o) = []) /\
  (List.length (newSpawns (stepObject f o)) <=
   List.length (ofType ALIEN [o]))%nat /\
  Forall (fun m => type m = MISSILE /\ active m = true /\ posY m = 1%Q)
         (newSpawns (stepObject f o)).
Proof.
  unfold stepObject.
  set (o1 := setPosZ (posZ o + moveAmount f o) o).
  assert (T : type (magnetPull f o1) = type o)
    by (exact (proj2 (LevelFacts.magnetPull_hasFired f o1))).
  set (o2 := magnetPull f o1) in *.
  assert (A : let '(o3, ms, ev1) := alienFire o2 in
              (ms = [] -> ev1 = []) /\
              (List.length ms <= List.length (ofType ALIEN [o]))%nat /\
              Forall (fun m => type m = MISSILE /\ active m = true /\ posY m = 1%Q) ms).
  { unfold alienFire, ofType. cbn [filter]. rewrite <- T.
    destruct (type o2); cbn; try (repeat split; auto; lia).
    destruct (active o2 && negb (hasFired o2)); cbn; [|repeat split; auto; lia].
    destruct (Qgtb (posZ o2) (-90)); cbn; repeat split; auto; try lia.
    discriminate. }
  destruct (alienFire o2) as [[o3 ms] ev1]. destruct A as (A1 & A2 & A3).
  assert (C : let '(o4, k1, ev2, ch2) :=
                  (if active o3 then collide f (posZ o) o3
                   else (o3, true, [], false)) in
              ch2 = false -> k1 = true /\ ev2 = []).
  { destruct (active o3); [|auto].
    unfold collide.
    destruct (type o3);
      repeat match goal with
             | |- context [if ?b then _ else _] => destruct b
             end; cbn; intros; auto; discriminate. }
  destruct (if active o3 then collide f (posZ o) o3 else (o3, true, [], false))
    as [[[o4 k1] ev2] ch2].
  cbn [keep object hasChanges newSpawns events].
  repeat split; try assumption.
  - intro K. apply andb_true_iff in K. destruct K as [_ K].
    apply negb_true_iff in K. now apply Qgtb_le in K.
  - apply orb_false_iff in H. destruct H as [H G].
    apply orb_false_iff in H. destruct H as [_ H].
    destruct (C H) as [-> _]. now rewrite G.
  - apply orb_false_iff in H. destruct H as [H _].
    apply orb_false_iff in H. destruct H as [H _].
    destruct ms; [reflexivity | discriminate].
  - apply orb_false_iff in H. destruct H as [H _].
    apply orb_false_iff in H. destruct H as [Hm H].
    destruct (C H) as [_ ->].
    rewrite A1; [reflexivity|]. destruct ms; [reflexivity | discriminate].
Qed.

(** X20.  The registry after the loop.  Every object the loop keeps lies
    at 20 or before; the loop keeps no more objects than it was given;
    it spawns at most one missile per alien, each active and at height
    1; and when it leaves the change flag unset it has kept every
    object, spawned nothing and issued no event. *)
Theorem moveLoop_registry (f : Frame) (objs : list GameObject) :
  Forall (fun o => (posZ o <= REMOVE_DISTANCE)%Q) (loopKept f objs) /\
  (List.length (loopKept f objs) <= List.length objs)%nat /\
  (List.length (loopSpawns f objs) <= List.length (ofType ALIEN objs))%nat /\
  Forall (fun m => type m = MISSILE /\ active m = true /\ posY m = 1%Q)
         (loopSpawns f objs) /\
  (loopChanged f objs = false ->
   List.length (loopKept f objs) = List.length objs /\
   loopSpawns f objs = [] /\ loopEvents f objs = []).
Proof.
  unfold loopKept, loopSpawns, loopChanged, loopEvents.
  induction objs as [|o objs IH]; [cbn; repeat split; auto|].
  cbn [moveLoop].
  destruct (moveLoop f objs) as [[[kept news] evs] ch].
  destruct IH as (I1 & I2 & I3 & I4 & I5).
  destruct (stepObject_flags f o) as (S1 & S2 & S3 & S4).
  repeat split.
  - destruct (keep (stepObject f o)) eqn:K; [constructor; auto | assumption].
  - destruct (keep (stepObject f o)); simpl; lia.
  - rewrite length_app. unfold ofType in *. cbn [filter] in *.
    destruct (ObjectType_eqb (type o) ALIEN); simpl in *; lia.
  - apply Forall_app. split; assumption.
  - apply orb_false_iff in H. destruct H as [H1 H2].
    destruct (S2 H1) as (K & _ & _). rewrite K. simpl.
    destruct (I5 H2) as (L & _ & _). lia.
  - apply orb_false_iff in H. destruct H as [H1 H2].
    destruct (S2 H1) as (_ & N & _). destruct (I5 H2) as (_ & N' & _).
    now rewrite N, N'.
  - apply orb_false_iff in H. destruct H as [H1 H2].
    destruct (S2 H1) as (_ & _ & N). destruct (I5 H2) as (_ & _ & N').
    now rewrite N, N'.
Qed.

(** A quiet frame: an obstacle far ahead, moved and nothing else. *)
Lemma moveLoop_registry_witness :
  let far := mkObject OBSTACLE 0 (8 # 10) (-60) true
                      None None (Some "#ff0054"%string) None false None in
  loopChanged frame25 [far] = false /\
  List.length (loopKept frame25 [far]) = 1%nat /\
  loopSpawns frame25 [far] = [] /\ loopEvents frame25 [far] = [].
Proof.
  destruct (moveLoop_registry frame25
              [mkObject OBSTACLE 0 (8 # 10) (-60) true
                        None None (Some "#ff0054"%string) None false None])
    as (_ & _ & _ & _ & H).
  split; [reflexivity|]. exact (H eq_refl).
Defined.

(** ** The level manager: lanes *)

Lemma laneRange_In (m x : Z) : In x (laneRange m) <-> - m <= x <= m.
Proof.
  unfold laneRange. rewrite in_map_iff. split.
  - intros (k & <- & Hk). apply in_seq in Hk. lia.
  - intro H. exists (Z.to_nat (x + m)). split; [lia|].
    apply in_seq. lia.
Qed.

Lemma laneRange_NoDup (m : Z) : NoDup (laneRange m).
Proof.
  unfold laneRange. apply NoDup_map_NoDup_ForallPairs; [|apply seq_NoDup].
  intros a b _ _ H. lia.
Qed.

Lemma laneRange_length (m : Z) :
  0 <= m -> (1 <= List.length (laneRange m))%nat.
Proof. intro H. unfold laneRange. rewrite length_map, length_seq. lia. Qed.

(** The floor of a draw scaled to [n] slots is one of the slots. *)
Lemma floor_draw (r : Q) (n : Z) :
  unitDraw r -> 0 < n -> 0 <= Qfloor (r * inject_Z n) < n.
Proof.
  intros [H0 H1] Hn.
  assert (Hq : (0 < inject_Z n)%Q).
  { change (inject_Z 0 < inject_Z n)%Q. rewrite <- Zlt_Qlt. exact Hn. }
  split.
  - rewrite <- (Qfloor_Z 0) at 1. apply Qfloor_resp_le.
    change (inject_Z 0) with 0%Q.
    apply Qmult_le_0_compat; [assumption | now apply Qlt_le_weak].
  - rewrite Zlt_Qlt.
    apply Qle_lt_trans with (r * inject_Z n)%Q; [apply Qfloor_le|].
    rewrite <- (Qmult_1_l (inject_Z n)) at 2.
    now apply Qmult_lt_compat_r.
Qed.

(** X21.  A random lane is a lane of the track: for a draw in [0, 1) and
    a lane count that is not negative, [getRandomLane] lies between
    -floor(laneCount / 2) and floor(laneCount / 2), the lanes of
    [laneRange]. *)
Theorem getRandomLane_in_range (r : Q) (laneCount : Z) :
  unitDraw r -> 0 <= laneCount ->
  - (laneCount / 2) <= getRandomLane r laneCount <= laneCount / 2 /\
  In (getRandomLane r laneCount) (laneRange (laneCount / 2)).
Proof.
  intros Hr Hl.
  assert (Hm : 0 <= laneCount / 2) by (apply Z.div_pos; lia).
  assert (B : - (laneCount / 2) <= getRandomLane r laneCount <= laneCount / 2).
  { unfold getRandomLane.
    pose proof (floor_draw r (laneCount / 2 * 2 + 1) Hr ltac:(lia)). lia. }
  split; [exact B | now apply laneRange_In].
Qed.

Lemma getRandomLane_in_range_witness :
  getRandomLane (99 # 100) 9 = 4 /\
  - (9 / 2) <= getRandomLane (99 # 100) 9 <= 9 / 2 /\
  In (getRandomLane (99 # 100) 9) (laneRange (9 / 2)).
Proof.
  split; [reflexivity|].
  apply (getRandomLane_in_range (99 # 100) 9);
    [split; [discriminate | reflexivity] | lia].
Defined.

Lemma map_nth_seq_firstn (l : list Z) : forall c,
  (c <= List.length l)%nat ->
  map (fun i => nth i l 0) (seq 0 c) = firstn c l.
Proof.
  induction l as [|a l IH]; intros c Hc.
  - simpl in Hc. assert (c = 0%nat) by lia. now subst.
  - destruct c as [|c]; [reflexivity|].
    simpl in Hc. cbn [seq map firstn nth]. f_equal.
    rewrite <- seq_shift, map_map. cbn [nth]. apply IH. lia.
Qed.

Lemma firstn_NoDup (l : list Z) (c : nat) : NoDup l -> NoDup (firstn c l).
Proof.
  intro H. rewrite <- (firstn_skipn c l) in H.
  now apply NoDup_app_remove_r in H.
Qed.

Lemma firstn_In (l : list Z) (c : nat) (x : Z) : In x (firstn c l) -> In x l.
Proof.
  intro H. rewrite <- (firstn_skipn c l). apply in_or_app. now left.
Qed.

Lemma laneX_apart (a b : Z) :
  a <> b -> (LANE_WIDTH <= Qabs (laneX a - laneX b))%Q.
Proof.
  intro H. unfold laneX, LANE_WIDTH.
  assert (E : (inject_Z a * (22 # 10) - inject_Z b * (22 # 10)
               == inject_Z (a - b) * (22 # 10))%Q).
  { unfold Z.sub. rewrite inject_Z_plus, inject_Z_opp. ring. }
  rewrite E, Qabs_Qmult.
  assert (K : (1 <= Qabs (inject_Z (a - b)))%Q).
  { apply Qabs_case; intro S.
    - change (inject_Z 0 <= inject_Z (a - b))%Q in S.
      change (inject_Z 1 <= inject_Z (a - b))%Q.
      rewrite <- Zle_Qle in *. lia.
    - change (inject_Z (a - b) <= inject_Z 0)%Q in S.
      rewrite <- inject_Z_opp.
      change (inject_Z 1 <= inject_Z (- (a - b)))%Q.
      rewrite <- Zle_Qle in *. lia. }
  change (Qabs (22 # 10)) with (22 # 10)%Q.
  set (q := Qabs (inject_Z (a - b))) in *. lra.
Qed.

Lemma posX_obstacles_flat_map (F : nat -> list GameObject) (x : nat -> Q)
      (l : list nat) :
  (forall i, map posX (ofType OBSTACLE (F i)) = [x i]) ->
  map posX (ofType OBSTACLE (flat_map F l)) = map x l.
Proof.
  intro H. induction l as [|i l IH]; [reflexivity|].
  cbn [flat_map map]. unfold ofType in *.
  rewrite filter_app, map_app, H, IH. reflexivity.
Qed.

(** X22.  The spikes of a cluster and the aliens of a squad stand in
    distinct lanes of the track.  When the randomised sort returns a
    permutation of the lane list, a cluster has one to three spikes and
    a squad one or two aliens, at the x positions of pairwise distinct
    lanes between -floor(laneCount / 2) and floor(laneCount / 2); and
    since lanes are 2.2 apart, no player position is within the hit
    reach of 0.9 of two of them. *)
Theorem row_lanes_distinct (rnd : Random) (mode : GameMode)
        (laneCount : Z) (z : Q) :
  0 <= laneCount ->
  Permutation (shuffle rnd (laneRange (laneCount / 2)))
              (laneRange (laneCount / 2)) ->
  (exists lanes,
      NoDup lanes /\
      (forall l, In l lanes -> - (laneCount / 2) <= l <= laneCount / 2) /\
      (1 <= List.length lanes <= 3)%nat /\
      map posX (ofType OBSTACLE (spikeCluster rnd mode laneCount z))
        = map laneX lanes) /\
  (exists lanes,
      NoDup lanes /\
      (forall l, In l lanes -> - (laneCount / 2) <= l <= laneCount / 2) /\
      (1 <= List.length lanes <= 2)%nat /\
      map posX (alienSquad rnd laneCount z) = map laneX lanes) /\
  (forall a b px, a <> b ->
      ~ ((Qabs (laneX a - px) < 9 # 10)%Q /\ (Qabs (laneX b - px) < 9 # 10)%Q)).
Proof.
  intros Hl Hperm.
  assert (Hm : 0 <= laneCount / 2) by (apply Z.div_pos; lia).
  set (sh := shuffle rnd (laneRange (laneCount / 2))) in *.
  assert (Hnd : NoDup sh)
    by (apply (Permutation_NoDup (Permutation_sym Hperm)), laneRange_NoDup).
  assert (Hlen : (1 <= List.length sh)%nat)
    by (rewrite (Permutation_length Hperm); now apply laneRange_length).
  assert (Hin : forall l, In l sh -> - (laneCount / 2) <= l <= laneCount / 2).
  { intros l H. apply laneRange_In. exact (Permutation_in l Hperm H). }
  assert (Pick : forall c, (1 <= c <= List.length sh)%nat -> (c <= 3)%nat ->
                 forall bound, (c <= bound)%nat -> (bound <= 3)%nat ->
                 NoDup (firstn c sh) /\
                 (forall l, In l (firstn c sh) ->
                            - (laneCount / 2) <= l <= laneCount / 2) /\
                 (1 <= List.length (firstn c sh) <= bound)%nat).
  { intros c Hc Hc3 bound Hb _. split; [|split].
    - now apply firstn_NoDup.
    - intros l H. apply Hin. exact (firstn_In _ _ _ H).
    - rewrite length_firstn. lia. }
  split; [|split].
  - unfold spikeCluster. fold sh.
    set (c := if Qgtb (rndSpikeCount rnd) (88 # 100)
              then Nat.min 3 (List.length sh)
              else if Qgtb (rndSpikeCount rnd) (62 # 100)
                   then Nat.min 2 (List.length sh) else 1%nat).
    assert (Hc : (1 <= c <= List.length sh)%nat /\ (c <= 3)%nat).
    { subst c. destruct (Qgtb _ (88 # 100)); [lia|].
      destruct (Qgtb _ (62 # 100)); lia. }
    exists (firstn c sh).
    destruct (Pick c (proj1 Hc) (proj2 Hc) 3%nat (proj2 Hc) (Nat.le_refl 3))
      as (P1 & P2 & P3).
    split; [exact P1|]. split; [exact P2|]. split; [lia|].
    rewrite <- (map_nth_seq_firstn sh c) by lia. rewrite map_map.
    apply posX_obstacles_flat_map.
    intro i. destruct (Qltb _ _); reflexivity.
  - unfold alienSquad. fold sh.
    set (c := if Qgtb (rndAlienCount rnd) (82 # 100)
              then Nat.min 2 (List.length sh) else 1%nat).
    assert (Hc : (1 <= c <= List.length sh)%nat /\ (c <= 2)%nat).
    { subst c. destruct (Qgtb _ (82 # 100)); lia. }
    exists (firstn c sh).
    destruct (Pick c (proj1 Hc) ltac:(lia) 2%nat (proj2 Hc) ltac:(lia))
      as (P1 & P2 & P3).
    split; [exact P1|]. split; [exact P2|]. split; [lia|].
    rewrite map_map. cbn [posX].
    rewrite <- (map_nth_seq_firstn sh c) by lia. now rewrite map_map.
  - intros a b px Hab [Ha Hb].
    pose proof (laneX_apart a b Hab) as Hw. unfold LANE_WIDTH in Hw.
    assert (T : (Qabs (laneX a - laneX b)
                 <= Qabs (laneX a - px) + Qabs (laneX b - px))%Q).
    { assert (E : (laneX a - laneX b == (laneX a - px) + - (laneX b - px))%Q) by ring.
      rewrite E. eapply Qle_trans; [apply Qabs_triangle|].
      rewrite Qabs_opp. apply Qle_refl. }
    lra.
Qed.

Lemma row_lanes_distinct_witness :
  map posX (ofType OBSTACLE (spikeCluster gemDraws STORY 3 (-120)))
    = map laneX [-1] /\
  (forall a b px, a <> b ->
      ~ ((Qabs (laneX a - px) < 9 # 10)%Q /\ (Qabs (laneX b - px) < 9 # 10)%Q)).
Proof.
  destruct (row_lanes_distinct gemDraws STORY 3 (-120)) as (_ & _ & H).
  - lia.
  - apply Permutation_refl.
  - split; [reflexivity | exact H].
Defined.

(** ** The level manager: what the planner creates, and the schedule *)

Ltac fresh_list :=
  repeat first [apply Forall_cons | apply Forall_nil];
  unfold fresh; repeat split; simpl; auto.

Lemma letterSpawn_fresh rnd collected laneCount level z refs :
  Forall (fresh [LETTER; GEM])
         (fst (letterSpawn rnd collected laneCount level z refs)).
Proof.
  unfold letterSpawn. destruct (availableIndices collected);
    cbn [fst]; fresh_list.
Qed.

Lemma randomSpawn_fresh rnd mode laneCount level z :
  Forall (fresh (if 2 <=? level then [POWERUP; ALIEN; OBSTACLE; GEM]
                 else [POWERUP; OBSTACLE; GEM]))
         (randomSpawn rnd mode laneCount level z).
Proof.
  unfold randomSpawn.
  destruct (Qgtb _ _); [|constructor].
  destruct (Qltb (rndPowerup rnd) _).
  { destruct (2 <=? level); fresh_list. }
  destruct (Qltb (rndObstacle rnd) _).
  2:{ destruct (2 <=? level); fresh_list. }
  destruct (2 <=? level) eqn:L; cbn [andb].
  - destruct (Qltb (rndAlien rnd) _).
    + unfold alienSquad. apply Forall_map, Forall_forall.
      intros k _. unfold fresh. simpl. auto.
    + unfold spikeCluster. apply Forall_flat_map, Forall_forall.
      intros i _. destruct (Qltb _ _); fresh_list.
  - unfold spikeCluster. apply Forall_flat_map, Forall_forall.
    intros i _. destruct (Qltb _ _); fresh_list.
Qed.

(** X23.  What the planner creates.  Every object the spawn block
    creates is active and has not fired; it is never a missile; a letter
    is created only in Story mode when the letter schedule is due, a
    shop portal only in the endless mode, an alien only from level 2 on
    and only when no letter is due. *)
Theorem spawnPlan_kinds
        (s : Store.GameState) (rnd : Random) (refs : Refs)
        (kept : list GameObject) (o : GameObject) :
  In o (fst (spawnPlan s rnd refs kept)) ->
  active o = true /\ hasFired o = false /\ type o <> MISSILE /\
  (type o = LETTER ->
     Store.mode s = STORY /\ isLetterDue (Store.mode s) refs = true) /\
  (type o = SHOP_PORTAL -> Store.mode s = ENDLESS) /\
  (type o = ALIEN ->
     2 <= Store.level s /\ isLetterDue (Store.mode s) refs = false).
Proof.
  intro Hin. unfold spawnPlan in Hin.
  destruct (Qgtb (furthestZ kept) (- SPAWN_DISTANCE)); [|destruct Hin].
  set (z := spawnZ (Store.mode s) (Store.speed s * Store.speedMultiplier s) kept) in *.
  pose proof (LevelFacts.portalOffer_shape (Store.mode s) z refs kept) as P.
  destruct (portalOffer (Store.mode s) z refs kept) as [portal nextPortal].
  cbn [fst] in P.
  assert (Hportal : In o portal ->
                    active o = true /\ hasFired o = false /\
                    type o = SHOP_PORTAL /\ Store.mode s = ENDLESS).
  { intro H. destruct P as [P | [Pm P]]; rewrite P in H; [destruct H|].
    destruct H as [<- | []]. auto. }
  destruct (isLetterDue (Store.mode s) refs) eqn:Due.
  - assert (Hstory : Store.mode s = STORY).
    { unfold isLetterDue in Due. destruct (Store.mode s); [reflexivity | discriminate]. }
    pose proof (letterSpawn_fresh rnd (Store.collectedLetters s)
                  (Store.laneCount s) (Store.level s) z refs) as L.
    destruct (letterSpawn rnd (Store.collectedLetters s)
                (Store.laneCount s) (Store.level s) z refs) as [objs nl].
    cbn [fst] in *. apply in_app_or in Hin. destruct Hin as [H | H].
    + destruct (Hportal H) as (A & B & C & D). congruence.
    + destruct (proj1 (Forall_forall _ _) L o H) as (A & B & C).
      repeat split; try assumption;
        simpl in C; intuition congruence.
  - cbn [fst] in Hin. apply in_app_or in Hin. destruct Hin as [H | H].
    + destruct (Hportal H) as (A & B & C & D).
      repeat split; try assumption; intros; congruence.
    + pose proof (proj1 (Forall_forall _ _)
                    (randomSpawn_fresh rnd (Store.mode s) (Store.laneCount s)
                       (Store.level s) z) o H) as (A & B & C).
      repeat split; try assumption.
      * destruct (2 <=? Store.level s); simpl in C; intuition congruence.
      * destruct (2 <=? Store.level s); simpl in C; intuition congruence.
      * destruct (2 <=? Store.level s); simpl in C; intuition congruence.
      * destruct (2 <=? Store.level s); simpl in C; intuition congruence.
      * destruct (Z.leb_spec 2 (Store.level s)); [assumption|].
        simpl in C. intuition congruence.
Qed.

Lemma spawnPlan_kinds_witness :
  let o := mkObject GEM (laneX 0) (12 # 10) (-120) true
                    None None (Some "#00ffff"%string) (Some 50) false None in
  active o = true /\ hasFired o = false /\ type o <> MISSILE.
Proof.
  assert (Hin : In (mkObject GEM (laneX 0) (12 # 10) (-120) true
                             None None (Some "#00ffff"%string) (Some 50)
                             false None)
                   (fst (spawnPlan endlessStore gemDraws portalDue [])))
    by (vm_compute; right; left; reflexivity).
  destruct (spawnPlan_kinds endlessStore gemDraws portalDue [] _ Hin)
    as (A & B & C & _).
  exact (conj A (conj B C)).
Defined.

Lemma availableIndices_In (collected : list Z) (i : Z) :
  In i (availableIndices collected) <-> 0 <= i <= 5 /\ ~ In i collected.
Proof.
  unfold availableIndices. rewrite filter_In, in_map_iff. split.
  - intros [(k & <- & Hk) Hc]. apply in_seq in Hk. simpl in Hk.
    split; [lia|]. intro K. apply includes_In in K.
    rewrite K in Hc. discriminate.
  - intros [Hi Hc]. split.
    + exists (Z.to_nat i). split; [lia|]. apply in_seq. simpl. lia.
    + destruct (includes collected i) eqn:E; [|reflexivity].
      apply includes_In in E. contradiction.
Qed.

(** X24.  The letter that is due.  For a draw in [0, 1) the letter
    branch creates exactly one object, at the spawn position: a letter
    whose index is between 0 and 5 and not yet collected, carrying the
    character of the word at that index, and the schedule moves on by
    the interval of the level; or, when all six indices are collected, a
    gem of 50 points, and the schedule stays. *)
Theorem letterSpawn_uncollected
        (rnd : Random) (collected : list Z) (laneCount level : Z)
        (z : Q) (refs : Refs) :
  unitDraw (rndLetter rnd) ->
  exists o,
    fst (letterSpawn rnd collected laneCount level z refs) = [o] /\
    posZ o = z /\ active o = true /\
    ((exists i,
         0 <= i <= 5 /\ ~ In i collected /\
         type o = LETTER /\ targetIndex o = Some i /\
         value o = nth_error target (Z.to_nat i) /\
         snd (letterSpawn rnd collected laneCount level z refs) =
           option_map (fun d => (d + getLetterInterval level)%Q)
                      (nextLetterDistance refs))
     \/
     ((forall i, 0 <= i <= 5 -> In i collected) /\
      type o = GEM /\ points o = Some 50 /\
      snd (letterSpawn rnd collected laneCount level z refs) =
        nextLetterDistance refs)).
Proof.
  intro Hr. unfold letterSpawn.
  destruct (availableIndices collected) as [|a rest] eqn:E.
  - eexists. split; [reflexivity|]. cbn [posZ active type points snd].
    repeat split. right. repeat split.
    intros i Hi. destruct (in_dec Z.eq_dec i collected) as [H|H]; [assumption|].
    assert (K : In i (availableIndices collected))
      by (apply availableIndices_In; auto).
    rewrite E in K. destruct K.
  - set (avail := a :: rest) in *.
    pose proof (floor_draw (rndLetter rnd) (Z.of_nat (List.length avail)) Hr
                  ltac:(subst avail; simpl; lia)) as [K0 K1].
    set (k := Qfloor (rndLetter rnd * inject_Z (Z.of_nat (List.length avail)))) in *.
    destruct (Z.ltb_spec k 0); [lia|].
    destruct (nth_error avail (Z.to_nat k)) as [i|] eqn:N.
    2:{ apply nth_error_None in N. lia. }
    assert (Hi : In i (availableIndices collected))
      by (rewrite E; exact (nth_error_In _ _ N)).
    apply availableIndices_In in Hi. destruct Hi as [Hi Hc].
    destruct (Z.ltb_spec i 0); [lia|].
    eexists. split; [reflexivity|].
    cbn [posZ active type targetIndex value snd].
    repeat split. left. exists i. repeat split; auto; lia.
Qed.

Lemma letterSpawn_uncollected_witness :
  exists o,
    fst (letterSpawn gemDraws [0; 1; 2; 4; 5] 3 1 (-120) portalDue) = [o] /\
    type o = LETTER /\ targetIndex o = Some 3 /\ value o = Some "I"%string.
Proof.
  destruct (letterSpawn_uncollected gemDraws [0; 1; 2; 4; 5] 3 1 (-120) portalDue)
    as (o & E & _ & _ & _).
  - split; [discriminate | reflexivity].
  - exists o. split; [exact E|].
    assert (Ho : [o] = fst (letterSpawn gemDraws [0; 1; 2; 4; 5] 3 1 (-120) portalDue))
      by (symmetry; exact E).
    vm_compute in Ho. injection Ho as ->. repeat split.
Defined.

Lemma loopKept_ofType (f : Frame) (t : ObjectType) (objs : list GameObject) :
  (List.length (ofType t (loopKept f objs)) <= List.length (ofType t objs))%nat.
Proof.
  unfold loopKept. induction objs as [|o objs IH]; [simpl; lia|].
  cbn [moveLoop]. destruct (moveLoop f objs) as [[[kept news] evs] ch].
  unfold ofType in *. cbn [filter].
  destruct (keep (stepObject f o)).
  - cbn [filter]. rewrite LevelFacts.stepObject_type.
    destruct (ObjectType_eqb (type o) t); simpl; lia.
  - destruct (ObjectType_eqb (type o) t); simpl; lia.
Qed.

Lemma ofType_none (t : ObjectType) (l : list GameObject) :
  Forall (fun o => type o <> t) l -> ofType t l = [].
Proof.
  intro H. unfold ofType. induction H as [|o l Ho _ IH]; [reflexivity|].
  cbn [filter]. rewrite IH.
  destruct (ObjectType_eqb (type o) t) eqn:E; [|reflexivity].
  exfalso. apply Ho. destruct (type o), t; try discriminate; reflexivity.
Qed.

Lemma loopSpawns_missiles (f : Frame) (objs : list GameObject) :
  Forall (fun m => type m = MISSILE /\ active m = true /\ posY m = 1%Q)
         (loopSpawns f objs).
Proof.
  unfold loopSpawns.
  induction objs as [|o objs IH]; [constructor|].
  cbn [moveLoop]. destruct (moveLoop f objs) as [[[kept news] evs] ch].
  destruct (stepObject_flags f o) as (_ & _ & _ & S4).
  apply Forall_app. split; assumption.
Qed.

(** The planner when no letter is due: the schedule stays and no letter
    is created. *)
Lemma spawnPlan_no_letter s rnd refs kept :
  isLetterDue (Store.mode s) refs = false ->
  nextLetterDistance (snd (spawnPlan s rnd refs kept)) = nextLetterDistance refs /\
  ofType LETTER (fst (spawnPlan s rnd refs kept)) = [].
Proof.
  intro Due. unfold spawnPlan.
  destruct (Qgtb (furthestZ kept) (- SPAWN_DISTANCE)); [|auto].
  set (z := spawnZ (Store.mode s) (Store.speed s * Store.speedMultiplier s) kept).
  pose proof (LevelFacts.portalOffer_shape (Store.mode s) z refs kept) as P.
  destruct (portalOffer (Store.mode s) z refs kept) as [portal nextPortal].
  cbn [fst] in P. rewrite Due. cbn [fst snd nextLetterDistance].
  split; [reflexivity|].
  apply ofType_none, Forall_app. split.
  - destruct P as [-> | [_ ->]]; repeat constructor. discriminate.
  - eapply Forall_impl; [|apply randomSpawn_fresh].
    intros o (_ & _ & C).
    destruct (2 <=? Store.level s); simpl in C; intuition congruence.
Qed.

(** X25.  No letters without a schedule.  In a frame of the endless
    mode, or of any mode once the next letter distance is infinite, the
    registry holds no more letters after the frame than before, and an
    infinite next letter distance stays infinite; and entering the
    endless mode (outside a menu reset or restart) makes the next letter
    distance infinite and keeps the registry. *)
Theorem no_letters_without_schedule
        (s : Store.GameState) (delta : Q) (player : option (Q * Q * Q))
        (rnd : Random) (refs : Refs) (objs : list GameObject) :
  Store.mode s = ENDLESS \/ nextLetterDistance refs = None ->
  (List.length (ofType LETTER (fst (fst (useFrame s delta player rnd refs objs))))
   <= List.length (ofType LETTER objs))%nat /\
  (nextLetterDistance refs = None ->
   nextLetterDistance (snd (fst (useFrame s delta player rnd refs objs))) = None) /\
  (forall prev,
      Store.mode s = ENDLESS -> prevMode prev = STORY ->
      Store.status s <> MENU ->
      ~ (Store.status s = PLAYING /\ prevStatus prev = GAME_OVER) ->
      fst (fst (fst (transitionEffect prev s refs objs))) = objs /\
      nextLetterDistance (snd (fst (fst (transitionEffect prev s refs objs))))
        = None).
Proof.
  intro H.
  assert (U : (List.length (ofType LETTER (fst (fst (useFrame s delta player rnd refs objs))))
               <= List.length (ofType LETTER objs))%nat /\
              nextLetterDistance (snd (fst (useFrame s delta player rnd refs objs)))
                = nextLetterDistance refs).
  { unfold useFrame.
    destruct (Store.status s); cbn [fst snd]; try (split; [lia | reflexivity]).
    set (f := frameOf s delta player).
    pose proof (loopKept_ofType f LETTER objs) as K.
    pose proof (loopSpawns_missiles f objs) as M.
    unfold loopKept, loopSpawns in *.
    destruct (moveLoop f objs) as [[[kept news] evs] ch].
    match goal with
    | |- context [spawnPlan s rnd ?r ?k] =>
      pose proof (spawnPlan_no_letter s rnd r k) as P;
        destruct (spawnPlan s rnd r k) as [created refs2]
    end.
    cbn [fst snd] in *.
    destruct P as [P1 P2].
    { unfold isLetterDue. cbn [nextLetterDistance].
      destruct H as [-> | ->]; [reflexivity | now destruct (Store.mode s)]. }
    split; [|exact P1].
    unfold ofType in *. rewrite !filter_app, !length_app.
    rewrite P2.
    assert (N : filter (fun o => ObjectType_eqb (type o) LETTER) news = []).
    { apply ofType_none. eapply Forall_impl; [|exact M].
      intros m (T & _). rewrite T. discriminate. }
    rewrite N. simpl. lia. }
  destruct U as [U1 U2].
  split; [exact U1|]. split; [intro N; now rewrite U2|].
  intros prev Hm Hp Hmenu Hrestart.
  unfold transitionEffect. rewrite Hm, Hp. cbn [GameMode_eqb negb andb].
  destruct (Store.status s) eqn:St; try congruence; cbn [GameStatus_eqb orb andb];
    try (split; reflexivity).
  destruct (prevStatus prev) eqn:Ps; cbn [GameStatus_eqb orb andb];
    try (split; reflexivity).
  exfalso. apply Hrestart. auto.
Qed.

Lemma no_letters_without_schedule_witness :
  let letter := mkObject LETTER 0 1 (-50) true (Some "G"%string) (Some 0)
                         (Some "#2979ff"%string) None false None in
  (List.length
     (ofType LETTER
        (fst (fst (useFrame endlessStore (5 # 100) None gemDraws portalDue [letter]))))
   <= 1)%nat /\
  nextLetterDistance
    (snd (fst (useFrame endlessStore (5 # 100) None gemDraws portalDue [letter])))
    = None.
Proof.
  destruct (no_letters_without_schedule endlessStore (5 # 100) None gemDraws
              portalDue
              [mkObject LETTER 0 1 (-50) true (Some "G"%string) (Some 0)
                        (Some "#2979ff"%string) None false None]
              (or_introl eq_refl)) as (A & B & _).
  exact (conj A (B eq_refl)).
Defined.

Lemma getLetterInterval_from_level_2 (level : Z) :
  2 <= level -> (225 <= getLetterInterval level)%Q.
Proof.
  intro H. unfold getLetterInterval, BASE_LETTER_INTERVAL.
  rewrite Z.max_r by lia.
  assert (P : ((3 # 2) ^ 1 <= (3 # 2) ^ (level - 1))%Q).
  { apply Qpower_le_compat_l; [lia | discriminate]. }
  change ((3 # 2) ^ 1)%Q with (3 # 2)%Q in P.
  set (q := ((3 # 2) ^ (level - 1))%Q) in *. lra.
Qed.

(** X26.  The level-up effect.  When the level has changed to 2 or more
    while playing (and this is neither a restart nor the entry into the
    endless mode), the effect keeps exactly the objects nearer than 80,
    in order, appends one active shop portal at z = -100, and sets the
    next letter distance to the distance travelled plus the interval of
    the new level minus 120, which is at least 105 ahead: no letter is
    due right after a level-up.  A restart from GameOver instead empties
    the registry and resets the schedule, whatever the level did. *)
Theorem level_up_effect
        (prev : Prev) (s : Store.GameState) (refs : Refs)
        (objs : list GameObject) :
  Store.status s = PLAYING ->
  prevStatus prev <> GAME_OVER ->
  Store.level s <> prevLevel prev ->
  2 <= Store.level s ->
  Store.mode s = STORY \/ prevMode prev = ENDLESS ->
  let r := transitionEffect prev s refs objs in
  let portal := mkObject SHOP_PORTAL 0 0 (-100) true
                         None None None None false None in
  fst (fst (fst r)) =
    filter (fun o => Qgtb (posZ o) (-80)) objs ++ [portal] /\
  (forall o, In o (fst (fst (fst r))) <->
             (In o objs /\ (-80 < posZ o)%Q) \/ o = portal) /\
  (exists d,
      nextLetterDistance (snd (fst (fst r))) = Some d /\
      (d == distanceTraveled refs + (getLetterInterval (Store.level s) - 120))%Q /\
      (distanceTraveled refs + 105 <= d)%Q) /\
  distanceTraveled (snd (fst (fst r))) = distanceTraveled refs /\
  isLetterDue STORY (snd (fst (fst r))) = false /\
  snd (fst r) = None /\
  (forall prev0 s0,
      Store.status s0 = PLAYING -> prevStatus prev0 = GAME_OVER ->
      fst (fst (transitionEffect prev0 s0 refs objs)) =
        ([], mkRefs 0 (Some (getLetterInterval 1)) 450 80)).
Proof.
  intros Hst Hps Hlv Hl2 Hmode r portal.
  assert (E : r = (filter (fun o => Qgtb (posZ o) (-80)) objs ++ [levelUpPortal],
                   mkRefs (distanceTraveled refs)
                          (Some (distanceTraveled refs - SPAWN_DISTANCE
                                 + getLetterInterval (Store.level s))%Q)
                          (nextPortalDistance refs) (nextRampDistance refs),
                   None,
                   mkPrev (Store.status s) (Store.level s) (Store.mode s))).
  { subst r. unfold transitionEffect. rewrite Hst.
    cbn [GameStatus_eqb orb andb].
    assert (R : GameStatus_eqb (prevStatus prev) GAME_OVER = false)
      by (destruct (prevStatus prev); try reflexivity; congruence).
    rewrite R.
    assert (M : GameMode_eqb (Store.mode s) ENDLESS
                && negb (GameMode_eqb (prevMode prev) ENDLESS) = false).
    { destruct Hmode as [-> | ->]; [reflexivity|].
      now rewrite andb_false_r. }
    rewrite M.
    destruct (Z.eqb_spec (Store.level s) (prevLevel prev)); [contradiction|].
    destruct (Z.ltb_spec 1 (Store.level s)); [|lia].
    reflexivity. }
  pose proof (getLetterInterval_from_level_2 (Store.level s) Hl2) as G.
  rewrite E. cbn [fst snd nextLetterDistance distanceTraveled].
  split; [reflexivity|]. split; [|split; [|split; [|split; [|split]]]].
  - intro o. rewrite in_app_iff, filter_In. cbn [In].
    rewrite Qgtb_gt. intuition.
  - eexists. split; [reflexivity|]. unfold SPAWN_DISTANCE. split; [ring | lra].
  - reflexivity.
  - unfold isLetterDue. cbn [nextLetterDistance distanceTraveled].
    unfold Qgeb. destruct (Qle_bool _ _) eqn:B; [|reflexivity].
    apply Qle_bool_iff in B. unfold SPAWN_DISTANCE in B. lra.
  - reflexivity.
  - intros prev0 s0 H1 H2. unfold transitionEffect. rewrite H1, H2.
    reflexivity.
Qed.

Lemma level_up_effect_witness :
  let s := Store.advanceLevel (Store.startGame Store.initial) in
  let prev := mkPrev PLAYING 1 STORY in
  let refs := mkRefs 900 (Some 1050%Q) 450 80 in
  let far := mkObject OBSTACLE 0 (8 # 10) (-110) true
                      None None (Some "#ff0054"%string) None false None in
  fst (fst (fst (transitionEffect prev s refs [obstacleAtMinus2; far])))
    = [obstacleAtMinus2;
       mkObject SHOP_PORTAL 0 0 (-100) true None None None None false None] /\
  isLetterDue STORY (snd (fst (fst (transitionEffect prev s refs
                                      [obstacleAtMinus2; far])))) = false.
Proof.
  destruct (level_up_effect
              (mkPrev PLAYING 1 STORY)
              (Store.advanceLevel (Store.startGame Store.initial))
              (mkRefs 900 (Some 1050%Q) 450 80)
              [obstacleAtMinus2;
               mkObject OBSTACLE 0 (8 # 10) (-110) true
                        None None (Some "#ff0054"%string) None false None])
    as (A & _ & _ & _ & B & _).
  - reflexivity.
  - discriminate.
  - cbn. lia.
  - cbn. lia.
  - left. reflexivity.
  - split; [exact A | exact B].
Defined.

End LevelMore.

Module PlayerFacts.

Import Player.

(** X27.  The lane stays on the track.  For a lane count that is not
    negative, a lane move (reversed or not, from any lane) and the lane
    effect both end between -floor(laneCount / 2) and
    floor(laneCount / 2), one of the lanes objects are spawned in; the
    lane effect leaves a lane of the track alone; a move that stays on
    the track changes the lane by exactly [dir]; and with reversed
    controls a move is the move in the other direction. *)
Theorem lane_stays_on_track
        (isControlsReversed : bool) (laneCount dir : Z) (p : PlayerState) :
  0 <= laneCount ->
  dir = 1 \/ dir = -1 ->
  let m := laneCount / 2 in
  - m <= lane (moveLane isControlsReversed laneCount dir p) <= m /\
  In (lane (moveLane isControlsReversed laneCount dir p))
     (LevelManager.laneRange m) /\
  - m <= lane (clampLane laneCount p) <= m /\
  (- m <= lane p <= m -> clampLane laneCount p = p) /\
  (- m <= lane p + dir <= m ->
   lane (moveLane false laneCount dir p) = lane p + dir) /\
  moveLane true laneCount dir p = moveLane false laneCount (- dir) p.
Proof.
  intros Hl Hd m.
  assert (Hm : 0 <= m) by (apply Z.div_pos; lia).
  assert (B : - m <= lane (moveLane isControlsReversed laneCount dir p) <= m).
  { unfold moveLane. cbn [lane setLane]. fold m. lia. }
  split; [exact B|]. split; [now apply LevelMore.laneRange_In|].
  split; [|split; [|split]].
  - unfold clampLane. fold m.
    destruct (Z.ltb_spec m (Z.abs (lane p))); cbn [lane setLane]; lia.
  - intro H. unfold clampLane. fold m.
    destruct (Z.ltb_spec m (Z.abs (lane p))); [lia | reflexivity].
  - intro H. unfold moveLane. cbn [lane setLane]. fold m. lia.
  - unfold moveLane. destruct Hd as [-> | ->]; reflexivity.
Qed.

Lemma lane_stays_on_track_witness :
  lane (moveLane false 3 1 (setLane 1 initial)) = 1 /\
  lane (moveLane true 3 1 initial) = -1 /\
  lane (moveLane false 3 (-1) initial) = -1.
Proof.
  destruct (lane_stays_on_track false 3 1 (setLane 1 initial)
              ltac:(lia) (or_introl eq_refl)) as (A & _).
  destruct (lane_stays_on_track true 3 1 initial
              ltac:(lia) (or_introl eq_refl)) as (_ & _ & _ & _ & _ & R).
  destruct (lane_stays_on_track false 3 (-1) initial
              ltac:(lia) (or_intror eq_refl)) as (_ & _ & _ & _ & M & _).
  split; [|split].
  - assert (lane (moveLane false 3 1 (setLane 1 initial)) <> 0) by discriminate.
    assert (lane (moveLane false 3 1 (setLane 1 initial)) <> -1) by discriminate.
    change (3 / 2) with 1 in A. lia.
  - rewrite R. reflexivity.
  - rewrite M; [reflexivity | cbn; lia].
Defined.

Lemma step_jumpInv (i : Input) (p : PlayerState) :
  jumpInv p -> jumpInv (step p i).
Proof.
  intros (Hy & Hj & Hg & Ha).
  assert (Hp : jumpInv p) by (unfold jumpInv; auto).
  destruct i as [dj | st now delta | st | rev lc dir | lc | now s];
    cbn [step].
  - unfold triggerJump.
    destruct (isJumping p) eqn:J; cbn [negb].
    + specialize (Ha eq_refl).
      destruct (Z.ltb_spec (jumpsPerformed p) (if dj then 2 else 1));
        [|exact Hp].
      unfold jumpInv.
      cbn [posY jumpsPerformed isJumping velocityY].
      split; [exact Hy|]. split; [destruct dj; lia|].
      split; [intro C; congruence | intros _; lia].
    + unfold jumpInv.
      cbn [posY jumpsPerformed isJumping velocityY].
      split; [exact Hy|]. split; [lia|].
      split; [discriminate | intros _; lia].
  - assert (JF : jumpInv (jumpFrame delta p)).
    { unfold jumpFrame. destruct (isJumping p) eqn:J; [|exact Hp].
      destruct (Qle_bool _ 0) eqn:L.
      - unfold jumpInv.
        cbn [posY jumpsPerformed isJumping velocityY].
        split; [apply Qle_refl|]. split; [lia|].
        split; [auto | discriminate].
      - assert (~ (posY p + velocityY p * delta <= 0)%Q).
        { intro C. apply Qle_bool_iff in C. congruence. }
        unfold jumpInv.
        cbn [posY jumpsPerformed isJumping velocityY].
        split; [lra|]. split; [exact Hj|].
        split; [intro C; congruence | exact Ha]. }
    assert (G : forall q, jumpInv q -> jumpInv (graceFrame now q)).
    { intros q Hq. unfold graceFrame.
      destruct (isInvincible q); [|exact Hq].
      destruct (1500 <? now - lastDamageTime q); exact Hq. }
    unfold useFrame. destruct st; auto.
  - unfold onStatus. destruct st; try exact Hp.
    unfold jumpInv. cbn [posY jumpsPerformed isJumping velocityY].
    split; [apply Qle_refl|]. split; [lia|].
    split; [auto | discriminate].
  - exact Hp.
  - unfold clampLane. destruct (_ <? _); exact Hp.
  - unfold checkHit. destruct (_ || _); exact Hp.
Qed.

Lemma step_single (i : Input) (p : PlayerState) :
  match i with Jump dj => dj = false | _ => True end ->
  jumpInv p -> jumpsPerformed p <= 1 -> jumpsPerformed (step p i) <= 1.
Proof.
  intros Hi (Hy & Hj & Hg & Ha) H1.
  destruct i as [dj | st now delta | st | rev lc dir | lc | now s];
    cbn [step].
  - subst dj. unfold triggerJump.
    destruct (isJumping p); cbn [negb]; [|cbn; lia].
    destruct (Z.ltb_spec (jumpsPerformed p) 1); [cbn; lia | exact H1].
  - unfold useFrame, graceFrame, jumpFrame.
    destruct st; try exact H1;
      destruct (isJumping p); try destruct (Qle_bool _ 0); cbn;
        repeat match goal with
               | |- context [if ?b then _ else _] => destruct b; cbn
               end; lia.
  - unfold onStatus. destruct st; cbn; lia.
  - exact H1.
  - unfold clampLane. destruct (_ <? _); exact H1.
  - unfold checkHit. destruct (_ || _); exact H1.
Qed.

Lemma run_jumpInv (inputs : list Input) : forall p,
  jumpInv p ->
  jumpInv (run inputs p) /\
  (singleJumps inputs -> jumpsPerformed p <= 1 ->
   jumpsPerformed (run inputs p) <= 1).
Proof.
  unfold run, singleJumps.
  induction inputs as [|i inputs IH]; intros p Hp; cbn [fold_left].
  - auto.
  - destruct (IH (step p i) (step_jumpInv i p Hp)) as [A B].
    split; [exact A|].
    intros S H1. inversion S; subst.
    apply B; [assumption|]. now apply step_single.
Qed.

(** X28.  The jump counter.  After any sequence of jumps, frames, status
    changes, lane moves and hits from the initial state, the player is
    never below the ground, has made between 0 and 2 jumps, is on the
    ground with no jump counted and no vertical speed whenever it is not
    jumping, has made at least one jump whenever it is; and if no jump
    was triggered with the double jump owned, at most one jump is
    counted. *)
Theorem jump_counter_bounds (inputs : list Input) :
  let p := run inputs initial in
  (0 <= posY p)%Q /\
  0 <= jumpsPerformed p <= 2 /\
  (isJumping p = false ->
   posY p = 0%Q /\ jumpsPerformed p = 0 /\ velocityY p = 0%Q) /\
  (isJumping p = true -> 1 <= jumpsPerformed p) /\
  (singleJumps inputs -> jumpsPerformed p <= 1).
Proof.
  assert (I : jumpInv initial).
  { unfold jumpInv; cbn. repeat split; try reflexivity; try lia; discriminate. }
  destruct (run_jumpInv inputs initial I) as [(A & B & C & D) E].
  cbn zeta. repeat split; try tauto; try lia.
  intro S. apply E; [exact S | cbn; lia].
Qed.

Lemma jump_counter_bounds_witness :
  let inputs := [Jump false; Frame PLAYING 0 (1 # 10); Jump false;
                 Jump false] in
  singleJumps inputs /\
  isJumping (run inputs initial) = true /\
  jumpsPerformed (run inputs initial) = 1.
Proof.
  assert (S : singleJumps [Jump false; Frame PLAYING 0 (1 # 10); Jump false;
                           Jump false])
    by (repeat constructor).
  destruct (jump_counter_bounds
              [Jump false; Frame PLAYING 0 (1 # 10); Jump false; Jump false])
    as (_ & _ & _ & A & B).
  specialize (A eq_refl). specialize (B S).
  split; [exact S|]. split; [reflexivity | lia].
Defined.

Lemma jumpFrame_grace (delta : Q) (p : PlayerState) :
  isInvincible (jumpFrame delta p) = isInvincible p /\
  lastDamageTime (jumpFrame delta p) = lastDamageTime p.
Proof.
  unfold jumpFrame. destruct (isJumping p); [|auto].
  destruct (Qle_bool _ 0); cbn; auto.
Qed.

Lemma step_grace (t : Z) (i : Input) (p : PlayerState) :
  match i with Frame _ now _ => now <= t + 1500 | _ => True end ->
  isInvincible p = true -> lastDamageTime p = t ->
  isInvincible (step p i) = true /\ lastDamageTime (step p i) = t.
Proof.
  intros Fi Hi Ht.
  destruct i as [dj | st now delta | st | rev lc dir | lc | now s];
    cbn [step].
  - unfold triggerJump. destruct (negb _); [cbn; auto|].
    destruct (_ <? _); cbn; auto.
  - destruct (jumpFrame_grace delta p) as [J1 J2].
    unfold useFrame, graceFrame.
    destruct st; auto; rewrite J1, J2, Hi, Ht;
      (destruct (Z.ltb_spec 1500 (now - t)); [lia|]);
      rewrite J1, J2; auto.
  - unfold onStatus. destruct st; cbn; auto.
  - cbn. auto.
  - unfold clampLane. destruct (_ <? _); cbn; auto.
  - unfold checkHit. rewrite Hi. cbn. auto.
Qed.

Lemma run_grace (t : Z) (inputs : list Input) : forall p,
  framesBy (t + 1500) inputs ->
  isInvincible p = true -> lastDamageTime p = t ->
  isInvincible (run inputs p) = true /\ lastDamageTime (run inputs p) = t.
Proof.
  unfold run, framesBy.
  induction inputs as [|i inputs IH]; intros p F Hi Ht; cbn [fold_left].
  - auto.
  - inversion F as [|? ? Fi Fr]; subst.
    destruct (step_grace (lastDamageTime p) i p Fi Hi eq_refl) as [A B].
    apply IH; assumption.
Qed.

(** X29.  The grace period after a hit.  A hit on a player that is not
    invincible, with neither immortality nor shield active, calls
    [takeDamage] once and makes the player invincible.  Through any
    later inputs whose frames all come within 1500 ms of the hit, the
    player stays invincible, so a further hit changes neither the player
    nor the store; the first frame of play later than that ends the
    grace period. *)
Theorem hit_grace_period
        (now : Z) (s : StoreFlags.GameState) (p : PlayerState) :
  isInvincible p = false ->
  StoreFlags.isImmortalityActive s = false ->
  StoreFlags.isShieldActive s = false ->
  let p1 := fst (checkHit now s p) in
  snd (checkHit now s p) = StoreFlags.takeDamage s /\
  isInvincible p1 = true /\
  (forall inputs later s',
      framesBy (now + 1500) inputs ->
      checkHit later s' (run inputs p1) = (run inputs p1, s')) /\
  (forall inputs later delta,
      framesBy (now + 1500) inputs -> now + 1500 < later ->
      isInvincible
        (useFrame PLAYING later delta (run inputs p1)) = false).
Proof.
  intros Hi Him Hsh p1.
  set (q := mkPlayer (lane p) (posY p) (isJumping p) (velocityY p)
                     (jumpsPerformed p) true now).
  assert (E : checkHit now s p = (q, StoreFlags.takeDamage s)).
  { unfold checkHit. now rewrite Hi, Him, Hsh. }
  subst p1. rewrite E. cbn [fst snd].
  assert (R : forall inputs, framesBy (now + 1500) inputs ->
                isInvincible (run inputs q) = true /\
                lastDamageTime (run inputs q) = now).
  { intros inputs F. apply run_grace; [exact F | reflexivity | reflexivity]. }
  split; [reflexivity|]. split; [reflexivity|]. split.
  - intros inputs later s' F.
    destruct (R inputs F) as [G _].
    unfold checkHit. now rewrite G.
  - intros inputs later delta F L.
    destruct (R inputs F) as [G T].
    destruct (jumpFrame_grace delta (run inputs q)) as [J1 J2].
    unfold useFrame, graceFrame. rewrite J1, J2, G, T.
    destruct (Z.ltb_spec 1500 (later - now)); [reflexivity | lia].
Qed.

Lemma hit_grace_period_witness :
  StoreFlags.lives (snd (checkHit 1000 vulnerable initial)) = 2 /\
  snd (checkHit 2400 (snd (checkHit 1000 vulnerable initial))
                (run [Frame PLAYING 2400 (1 # 60)]
                     (fst (checkHit 1000 vulnerable initial))))
    = snd (checkHit 1000 vulnerable initial) /\
  isInvincible (useFrame PLAYING 2501 (1 # 60)
                         (fst (checkHit 1000 vulnerable initial))) = false.
Proof.
  destruct (hit_grace_period 1000 vulnerable initial eq_refl eq_refl eq_refl)
    as (A & _ & B & C).
  split; [rewrite A; reflexivity|]. split.
  - rewrite (B [Frame PLAYING 2400 (1 # 60)] 2400
               (snd (checkHit 1000 vulnerable initial))).
    + reflexivity.
    + repeat constructor. cbn. lia.
  - apply (C [] 2501 (1 # 60)); [constructor | lia].
Defined.

End PlayerFacts.

Module ShopMore.

Import Shop.

Lemma take_NoDup {A : Type} (l : list A) (c : nat) :
  NoDup l -> NoDup (firstn c l).
Proof.
  intro H. rewrite <- (firstn_skipn c l) in H.
  now apply NoDup_app_remove_r in H.
Qed.

Lemma take_In {A : Type} (l : list A) (c : nat) (x : A) :
  In x (firstn c l) -> In x l.
Proof.
  intro H. rewrite <- (firstn_skipn c l). apply in_or_app. now left.
Qed.

Lemma pool_ids (s : Store.GameState) :
  NoDup (map id (pool s)) /\ In (mkItem HEAL 1000 false) (pool s).
Proof.
  unfold pool, SHOP_ITEMS, inPool. cbn [filter id ItemType_eqb andb].
  destruct (Store.hasDoubleJump s), (Store.hasImmortality s),
    (6 <=? Store.maxLives s); cbn;
    (split; [repeat constructor; cbn; intuition discriminate | tauto]).
Qed.

(** X30.  The shop offer.  Whatever order the random sort leaves the
    pool in, the shop shows between one and three items with distinct
    ids, never the double jump or the immortality once owned and never
    the extra heart at six hearts; the button of a shown item is
    disabled exactly when the score is below the cost, and a press on an
    enabled button is a purchase that [buyItem] accepts, taking exactly
    the cost off the score. *)
Theorem shop_offer
        (sorted : list ShopItem -> list ShopItem) (s : Store.GameState) :
  (forall l, Permutation l (sorted l)) ->
  let offer := items sorted s in
  NoDup (map id offer) /\
  (1 <= List.length offer <= 3)%nat /\
  (forall item, In item offer ->
     In item SHOP_ITEMS /\
     (id item = DOUBLE_JUMP -> Store.hasDoubleJump s = false) /\
     (id item = IMMORTAL -> Store.hasImmortality s = false) /\
     (id item = MAX_LIFE -> Store.maxLives s < 6) /\
     isDisabled s item = (Store.score s <? cost item) /\
     fst (Store.buyItem (id item) (cost item) s) = negb (isDisabled s item) /\
     (isDisabled s item = false ->
      press s item = snd (Store.buyItem (id item) (cost item) s) /\
      Store.score (press s item) = Store.score s - cost item)).
Proof.
  intros Hperm offer. subst offer. unfold items.
  destruct (pool_ids s) as [Hnd Hheal].
  pose proof (Hperm (pool s)) as P.
  split; [|split].
  - rewrite <- firstn_map. apply take_NoDup.
    eapply Permutation_NoDup; [apply Permutation_map; exact P | exact Hnd].
  - rewrite length_firstn.
    rewrite <- (Permutation_length P).
    assert (1 <= List.length (pool s))%nat.
    { destruct (pool s); [destruct Hheal | simpl; lia]. }
    lia.
  - intros item Hin.
    apply take_In in Hin.
    apply (Permutation_in _ (Permutation_sym P)) in Hin.
    unfold pool in Hin. apply filter_In in Hin. destruct Hin as [Hin Hp].
    assert (M : id item = MAX_LIFE -> (6 <=? Store.maxLives s) = false).
    { intro E. unfold inPool in Hp. rewrite E in Hp. cbn in Hp.
      destruct (6 <=? Store.maxLives s); [discriminate | reflexivity]. }
    assert (D : isDisabled s item = (Store.score s <? cost item)).
    { unfold isDisabled.
      destruct (id item) eqn:E; cbn [ItemType_eqb andb];
        try rewrite (M eq_refl); rewrite ?orb_false_r;
          now rewrite Z.ltb_antisym. }
    split; [exact Hin|]. split; [|split; [|split; [|split; [|split]]]].
    + intro E. unfold inPool in Hp. rewrite E in Hp. cbn in Hp.
      destruct (Store.hasDoubleJump s); [discriminate | reflexivity].
    + intro E. unfold inPool in Hp. rewrite E in Hp. cbn in Hp.
      destruct (Store.hasImmortality s); [discriminate | reflexivity].
    + intro E. specialize (M E). apply Z.leb_gt in M. exact M.
    + exact D.
    + rewrite D. unfold Store.buyItem.
      destruct (id item) eqn:E; try rewrite (M eq_refl);
        rewrite Z.ltb_antisym;
        destruct (cost item <=? Store.score s); reflexivity.
    + intro H. unfold press. rewrite H. split; [reflexivity|].
      rewrite D in H. apply Z.ltb_ge in H.
      unfold Store.buyItem.
      destruct (id item) eqn:E; try rewrite (M eq_refl);
        destruct (Z.leb_spec (cost item) (Store.score s)); try lia;
          destruct s; reflexivity.
Qed.

Lemma shop_offer_witness :
  let s := Store.addScore 1200 (Store.startGame Store.initial) in
  map id (items reversed s) = [IMMORTAL; HEAL; DOUBLE_JUMP] /\
  isDisabled s (mkItem HEAL 1000 false) = false /\
  Store.score (press s (mkItem HEAL 1000 false)) = 200.
Proof.
  destruct (shop_offer reversed
              (Store.addScore 1200 (Store.startGame Store.initial))
              (fun l => Permutation_rev l))
    as (_ & _ & A).
  destruct (A (mkItem HEAL 1000 false)) as (_ & _ & _ & _ & D & _ & B).
  - cbn. auto.
  - split; [reflexivity|]. split; [rewrite D; reflexivity|].
    destruct (B ltac:(rewrite D; reflexivity)) as [_ B2].
    rewrite B2. reflexivity.
Defined.

End ShopMore.
